(** * DOSBox Staging: UTF-8 <-> DOS code page transcoder ([src/misc/unicode.cpp])

    A shallow embedding of the transcoder and the properties of its
    grapheme type, its UTF-8 codec, its configuration loaders and its two
    conversion pipelines.

    Conventions.  [uint8_t], [uint16_t] and [uint32_t] values are integers
    of [Z]; narrowing casts are written out with [uint8] and [uint16].
    [std::vector] and [std::string] as a byte string are [list Z]; the
    text of a mapping file is a list of [string] lines.  A [std::map]
    whose iteration order or whose comparison functor matters is an
    association list kept sorted by the map's [operator<] (section
    [std_map]); a [std::map] keyed by a 16-bit number that is only
    searched is a [gmap Z].  A [std::set<uint16_t>] is a [gset Z].  The
    global tables and the function-local [static] variables are the
    fields of a [Registry] that is passed from call to call.  The loop of
    [Grapheme::Decompose], which the source leaves unbounded, takes a
    [fuel] argument and returns [None] when it runs out; so do its
    callers. *)

From Stdlib Require Import ZArith List Bool Ascii String Permutation Sorted.
From stdpp Require Import base tactics option list gmap sets sorting relations.

Local Open Scope Z_scope.

(** ** Integer types *)

Definition uint8 (value : Z) : Z := value mod 256.
Definition uint16 (value : Z) : Z := value mod 65536.

(** ** Constants *)

Definition decode_threshold_non_ascii : Z := 0x80.
Definition decode_threshold_2_bytes : Z := 0xc0.
Definition decode_threshold_3_bytes : Z := 0xe0.
Definition decode_threshold_4_bytes : Z := 0xf0.
Definition decode_threshold_5_bytes : Z := 0xf8.
Definition decode_threshold_6_bytes : Z := 0xfc.
Definition encode_threshold_2_bytes : Z := 0x0080.
Definition encode_threshold_3_bytes : Z := 0x0800.

Definition unknown_character : Z := 0x3f.
Definition end_of_file_marking : Z := 0x1a.

(** ** Grapheme type *)

Definition ranges : list (Z * Z) :=
  [ (0x0300, 0x036f);
    (0x0653, 0x065f);
    (0x1ab0, 0x1aff);
    (0x1dc0, 0x1dff);
    (0x20d0, 0x20ff);
    (0xfe20, 0xfe2f) ].

Definition is_combining_mark (code_point : Z) : bool :=
  existsb (fun range => (range.1 <=? code_point) && (code_point <=? range.2))
          ranges.

Record Grapheme := mkGrapheme {
  code_point : Z;
  marks : list Z;
  marks_sorted : list Z;
  is_empty : bool;
  is_valid : bool
}.

(** [Grapheme() = default] *)
Definition Grapheme_default : Grapheme :=
  {| code_point := 0x20; marks := []; marks_sorted := [];
     is_empty := true; is_valid := true |}.

Definition Invalidate (g : Grapheme) : Grapheme :=
  {| code_point := unknown_character; marks := []; marks_sorted := [];
     is_empty := false; is_valid := false |}.

(** [Grapheme(const uint16_t code_point)] *)
Definition Grapheme_new (cp : Z) : Grapheme :=
  let g := {| code_point := cp; marks := []; marks_sorted := [];
              is_empty := false; is_valid := true |} in
  if is_combining_mark cp then Invalidate g else g.

Definition IsEmpty (g : Grapheme) : bool := is_empty g.
Definition IsValid (g : Grapheme) : bool := is_valid g.
Definition HasMark (g : Grapheme) : bool :=
  negb (bool_decide (marks g = [])).
Definition GetCodePoint (g : Grapheme) : Z := code_point g.

Definition PushInto (g : Grapheme) (str_out : list Z) : list Z :=
  if is_empty g || negb (is_valid g) then str_out
  else (str_out ++ [code_point g]) ++ marks g.

(** [std::find(marks.cbegin(), marks.cend(), x) != marks.cend()] *)
Definition std_find (x : Z) (l : list Z) : bool := existsb (Z.eqb x) l.

(** [std::sort] on a vector of numbers *)
Definition std_sort (l : list Z) : list Z := merge_sort Z.le l.

Definition AddMark (in_code_point : Z) (g : Grapheme) : Grapheme :=
  if negb (is_valid g) then g
  else if negb (is_combining_mark in_code_point) || is_empty g then
    Invalidate g
  else if std_find in_code_point (marks g) then g
  else {| code_point := code_point g;
          marks := marks g ++ [in_code_point];
          marks_sorted := std_sort (marks_sorted g ++ [in_code_point]);
          is_empty := is_empty g;
          is_valid := is_valid g |}.

Definition StripMarks (g : Grapheme) : Grapheme :=
  {| code_point := code_point g; marks := []; marks_sorted := [];
     is_empty := is_empty g; is_valid := is_valid g |}.

(** [for (const auto mark : rule.marks) AddMark(mark)] *)
Definition AddMarks (l : list Z) (g : Grapheme) : Grapheme :=
  fold_left (fun g mark => AddMark mark g) l g.

(** One turn of the [while] loop of [Grapheme::Decompose]. *)
Definition Decompose_step (rule : Grapheme) (g : Grapheme) : Grapheme :=
  AddMarks (marks rule)
           {| code_point := code_point rule;
              marks := marks g; marks_sorted := marks_sorted g;
              is_empty := is_empty g; is_valid := is_valid g |}.

(** The [while] loop of [Grapheme::Decompose]; [None] when [fuel] turns
    were not enough to leave it. *)
Fixpoint Decompose_loop (fuel : nat) (decomposition_rules : gmap Z Grapheme)
         (g : Grapheme) : option Grapheme :=
  match decomposition_rules !! code_point g with
  | None => Some g
  | Some rule =>
      match fuel with
      | O => None
      | S fuel' =>
          Decompose_loop fuel' decomposition_rules (Decompose_step rule g)
      end
  end.

Definition Decompose (fuel : nat) (decomposition_rules : gmap Z Grapheme)
           (g : Grapheme) : option Grapheme :=
  if negb (is_valid g) || is_empty g then Some g
  else Decompose_loop fuel decomposition_rules g.

(** [Grapheme::operator==] *)
Definition operator_eq (g other : Grapheme) : bool :=
  Bool.eqb (is_empty g) (is_empty other) &&
  Bool.eqb (is_valid g) (is_valid other) &&
  (code_point g =? code_point other) &&
  bool_decide (marks_sorted g = marks_sorted other).

(** Where [Grapheme::operator<] leaves: through one of its [return]
    statements, or after reaching the two trailing [assert]s (it then
    returns [false] if they hold). *)
Inductive lt_exit :=
| Return (result : bool)
| ReachedAsserts.

(** The [for] loop of [operator<], entered with vectors of equal size:
    [Some b] when it returns [b], [None] when it runs to its end. *)
Fixpoint lt_marks (l1 l2 : list Z) : option bool :=
  match l1, l2 with
  | x :: l1', y :: l2' =>
      if x <? y then Some true
      else if x >? y then Some false
      else lt_marks l1' l2'
  | _, _ => None
  end.

(** [Grapheme::operator<] *)
Definition operator_lt (g other : Grapheme) : lt_exit :=
  if code_point g <? code_point other then Return true
  else if code_point g >? code_point other then Return false
  else if bool_decide (marks_sorted g = []) &&
          bool_decide (marks_sorted other = []) then Return false
  else if (length (marks_sorted g) <? length (marks_sorted other))%nat then
    Return true
  else if (length (marks_sorted other) <? length (marks_sorted g))%nat then
    Return false
  else match lt_marks (marks_sorted g) (marks_sorted other) with
       | Some b => Return b
       | None => ReachedAsserts
       end.

(** The value of [g < other]; the asserts are proved to hold below. *)
Definition Grapheme_ltb (g other : Grapheme) : bool :=
  match operator_lt g other with
  | Return b => b
  | ReachedAsserts => false
  end.

(** Grapheme values that the class interface can produce: its fields are
    private, so a value is built by the constructors and changed only by
    the public member functions. *)
Inductive constructed : Grapheme -> Prop :=
| constructed_default : constructed Grapheme_default
| constructed_new cp : constructed (Grapheme_new cp)
| constructed_Invalidate g : constructed g -> constructed (Invalidate g)
| constructed_AddMark m g : constructed g -> constructed (AddMark m g)
| constructed_StripMarks g : constructed g -> constructed (StripMarks g)
| constructed_Decompose fuel rules g g' :
    (forall cp rule, rules !! cp = Some rule -> constructed rule) ->
    constructed g -> Decompose fuel rules g = Some g' -> constructed g'.

(** ** UTF-8 codec *)

Definition uint32 (value : Z) : Z := value mod 4294967296.

(** [static_cast<uint8_t>(str_in[i])] *)
Definition byte_at (str_in : list Z) (i : nat) : Z := uint8 (nth i str_in 0).

Definition is_continuation (byte : Z) : bool :=
  (byte >=? decode_threshold_non_ascii) && (byte <? decode_threshold_2_bytes).

(** The [while (counter--)] loop of the lambda [advance]; returns the new
    value of [i]. *)
Fixpoint advance_loop (counter : nat) (str_in : list Z) (i : nat) : nat :=
  match counter with
  | O => i
  | S counter' =>
      let byte_next := byte_at str_in (i + 1) in
      if (byte_next <? decode_threshold_non_ascii) ||
         (byte_next >=? decode_threshold_2_bytes)
      then i
      else advance_loop counter' str_in (S i)
  end.

(** The lambda [advance]: new [i] and new [status]. *)
Definition advance (str_in : list Z) (remaining : nat) (i : nat)
           (bytes : nat) : nat * bool :=
  (advance_loop (Nat.min remaining bytes) str_in i, false).

(** [byte_2] and [byte_3] of the loop of [utf8_to_wide] at index [i]:
    the next two bytes, 0 where the string has ended. *)
Definition byte_2_at (str_in : list Z) (i : nat) : Z :=
  let remaining := (length str_in - i - 1)%nat in
  if (1 <=? remaining)%nat then byte_at str_in (i + 1) else 0.

Definition byte_3_at (str_in : list Z) (i : nat) : Z :=
  let remaining := (length str_in - i - 1)%nat in
  if (2 <=? remaining)%nat then byte_at str_in (i + 2) else 0.

(** The body of the [for] loop of [utf8_to_wide], entered at index [i]:
    the new [i] (before the loop's [++i]), the new [status] and the code
    point pushed to [str_out]. *)
Definition utf8_decode_at (str_in : list Z) (i : nat) (status : bool)
  : nat * bool * Z :=
  let remaining := (length str_in - i - 1)%nat in
  let byte_1 := byte_at str_in i in
  let byte_2 := byte_2_at str_in i in
  let byte_3 := byte_3_at str_in i in
  let code_point := unknown_character in
  if byte_1 >=? decode_threshold_6_bytes then
    let '(i, status) := advance str_in remaining i 5 in
    (i, status, uint16 code_point)
  else if byte_1 >=? decode_threshold_5_bytes then
    let '(i, status) := advance str_in remaining i 4 in
    (i, status, uint16 code_point)
  else if byte_1 >=? decode_threshold_4_bytes then
    let '(i, status) := advance str_in remaining i 3 in
    (i, status, uint16 code_point)
  else if byte_1 >=? decode_threshold_3_bytes then
    let code_point := uint8 (byte_1 - decode_threshold_3_bytes) in
    let code_point := uint32 (Z.shiftl code_point 6) in
    let '(i, code_point, status) :=
      if is_continuation byte_2
      then (S i, uint32 (code_point + byte_2 - decode_threshold_non_ascii),
            status)
      else (i, code_point, false) in
    let code_point := uint32 (Z.shiftl code_point 6) in
    let '(i, code_point, status) :=
      if is_continuation byte_2 && is_continuation byte_3
      then (S i, uint32 (code_point + byte_3 - decode_threshold_non_ascii),
            status)
      else (i, code_point, false) in
    (i, status, uint16 code_point)
  else if byte_1 >=? decode_threshold_2_bytes then
    let code_point := uint8 (byte_1 - decode_threshold_2_bytes) in
    let code_point := uint32 (Z.shiftl code_point 6) in
    let '(i, code_point, status) :=
      if is_continuation byte_2
      then (S i, uint32 (code_point + byte_2 - decode_threshold_non_ascii),
            status)
      else (i, code_point, false) in
    (i, status, uint16 code_point)
  else if byte_1 <? decode_threshold_non_ascii then
    (i, status, uint16 byte_1)
  else
    (i, false, uint16 code_point).

(** The [for] loop of [utf8_to_wide].  Every turn moves [i] forward, so
    [length str_in] turns are enough (see [utf8_to_wide_loop_turns]). *)
Fixpoint utf8_to_wide_loop (turns : nat) (str_in : list Z) (i : nat)
         (status : bool) (str_out : list Z) : bool * list Z :=
  match turns with
  | O => (status, str_out)
  | S turns' =>
      if (i <? length str_in)%nat then
        let '(i', status', code_point) := utf8_decode_at str_in i status in
        utf8_to_wide_loop turns' str_in (S i') status'
                          (str_out ++ [code_point])
      else (status, str_out)
  end.

(** [utf8_to_wide]: the returned status and the final [str_out]. *)
Definition utf8_to_wide (str_in : list Z) : bool * list Z :=
  utf8_to_wide_loop (length str_in) str_in 0 true [].

(** The lambda [push] of [wide_to_utf8]. *)
Definition push_utf8 (value : Z) (str_out : list Z) : list Z :=
  str_out ++ [uint8 value].

Definition wide_to_utf8_step (str_out : list Z) (code_point : Z) : list Z :=
  if code_point <? encode_threshold_2_bytes then
    push_utf8 code_point str_out
  else if code_point <? encode_threshold_3_bytes then
    let to_byte_1 := Z.shiftr code_point 6 in
    let to_byte_2 := Z.land 0x3f code_point in
    push_utf8 (Z.lor to_byte_2 0x80) (push_utf8 (Z.lor to_byte_1 0xc0) str_out)
  else
    let to_byte_1 := Z.shiftr code_point 12 in
    let to_byte_2 := Z.land 0x3f (Z.shiftr code_point 6) in
    let to_byte_3 := Z.land 0x3f code_point in
    push_utf8 (Z.lor to_byte_3 0x80)
      (push_utf8 (Z.lor to_byte_2 0x80)
         (push_utf8 (Z.lor to_byte_1 0xe0) str_out)).

Definition wide_to_utf8 (str_in : list Z) : list Z :=
  fold_left wide_to_utf8_step str_in [].

(** ** [std::map] with a comparison functor

    The elements are kept in the order of [lt]; two keys are the same key
    when neither is less than the other. *)

Section std_map.
Context {K V : Type} (lt : K -> K -> bool).

(** [m.find(k)], [None] for [m.end()] *)
Fixpoint smap_find (k : K) (m : list (K * V)) : option V :=
  match m with
  | [] => None
  | (k', v') :: m' =>
      if lt k' k then smap_find k m'
      else if lt k k' then None
      else Some v'
  end.

(** [m.count(k)] *)
Definition smap_count (k : K) (m : list (K * V)) : bool :=
  match smap_find k m with Some _ => true | None => false end.

(** [m.try_emplace(k, v)]: the map and whether the element was added *)
Fixpoint smap_try_emplace (k : K) (v : V) (m : list (K * V))
  : list (K * V) * bool :=
  match m with
  | [] => ([(k, v)], true)
  | (k', v') :: m' =>
      if lt k' k then
        let '(m'', was_added) := smap_try_emplace k v m' in
        ((k', v') :: m'', was_added)
      else if lt k k' then ((k, v) :: m, true)
      else (m, false)
  end.

(** [m[k] = v]: an element that is there keeps its key *)
Fixpoint smap_assign (k : K) (v : V) (m : list (K * V)) : list (K * V) :=
  match m with
  | [] => [(k, v)]
  | (k', v') :: m' =>
      if lt k' k then (k', v') :: smap_assign k v m'
      else if lt k k' then (k, v) :: m
      else (k', v) :: m'
  end.
End std_map.

(** [add_if_not_mapped] *)
Definition add_if_not_mapped {K V : Type} (lt : K -> K -> bool)
           (mapping : list (K * V)) (first : K) (second : V)
  : list (K * V) * bool :=
  smap_try_emplace lt first second mapping.

(** ** The registry: the file's global tables and static variables *)

(** Unicode to DOS code page mapping *)
Abbreviation code_page_mapping_t := (list (Grapheme * Z)).
(** DOS code page to Unicode mapping *)
Abbreviation code_page_mapping_reverse_t := (list (Z * Grapheme)).

Record ConfigMappingEntry := mkConfigMappingEntry {
  valid : bool;
  mapping : code_page_mapping_reverse_t;
  extends_code_page : Z;
  extends_dir : string;
  extends_file : string
}.

(** A default-constructed [ConfigMappingEntry] *)
Definition ConfigMappingEntry_default : ConfigMappingEntry :=
  {| valid := false; mapping := []; extends_code_page := 0;
     extends_dir := EmptyString; extends_file := EmptyString |}.

Record Registry := mkRegistry {
  config_mappings : gmap Z ConfigMappingEntry;
  config_aliases : list (Z * Z);
  config_duplicates : gmap Z Z;
  mapping_ascii : code_page_mapping_t;
  decomposition_rules : gmap Z Grapheme;
  mappings_normalized_by_codepage : gmap Z code_page_mapping_t;
  mappings_decomposed_by_codepage : gmap Z code_page_mapping_t;
  aliases_normalized_by_codepage : gmap Z code_page_mapping_t;
  aliases_decomposed_by_codepage : gmap Z code_page_mapping_t;
  mappings_reverse_by_codepage : gmap Z code_page_mapping_reverse_t;
  (** [already_tried] of [construct_mapping] *)
  already_tried : gset Z;
  (** [config_loaded] of [load_config_if_needed] *)
  config_loaded : bool;
  (** [already_warned] of [warn_code_point], of [warn_code_page] and of
      [warn_default_code_page] *)
  warned_code_points : gset Z;
  warned_code_pages : gset Z;
  warned_default_code_page : bool
}.

(** The state of the program at its start. *)
Definition Registry_initial : Registry :=
  {| config_mappings := ∅; config_aliases := []; config_duplicates := ∅;
     mapping_ascii := []; decomposition_rules := ∅;
     mappings_normalized_by_codepage := ∅;
     mappings_decomposed_by_codepage := ∅;
     aliases_normalized_by_codepage := ∅;
     aliases_decomposed_by_codepage := ∅;
     mappings_reverse_by_codepage := ∅;
     already_tried := ∅; config_loaded := false;
     warned_code_points := ∅; warned_code_pages := ∅;
     warned_default_code_page := false |}.

(** Assignments to one global variable. *)
Definition set_config_mappings (value : gmap Z ConfigMappingEntry) (st : Registry) : Registry :=
  {| config_mappings := value; config_aliases := config_aliases st;
     config_duplicates := config_duplicates st;
     mapping_ascii := mapping_ascii st;
     decomposition_rules := decomposition_rules st;
     mappings_normalized_by_codepage := mappings_normalized_by_codepage st;
     mappings_decomposed_by_codepage := mappings_decomposed_by_codepage st;
     aliases_normalized_by_codepage := aliases_normalized_by_codepage st;
     aliases_decomposed_by_codepage := aliases_decomposed_by_codepage st;
     mappings_reverse_by_codepage := mappings_reverse_by_codepage st;
     already_tried := already_tried st; config_loaded := config_loaded st;
     warned_code_points := warned_code_points st;
     warned_code_pages := warned_code_pages st;
     warned_default_code_page := warned_default_code_page st |}.
Definition set_config_aliases (value : list (Z * Z)) (st : Registry) : Registry :=
  {| config_mappings := config_mappings st; config_aliases := value;
     config_duplicates := config_duplicates st;
     mapping_ascii := mapping_ascii st;
     decomposition_rules := decomposition_rules st;
     mappings_normalized_by_codepage := mappings_normalized_by_codepage st;
     mappings_decomposed_by_codepage := mappings_decomposed_by_codepage st;
     aliases_normalized_by_codepage := aliases_normalized_by_codepage st;
     aliases_decomposed_by_codepage := aliases_decomposed_by_codepage st;
     mappings_reverse_by_codepage := mappings_reverse_by_codepage st;
     already_tried := already_tried st; config_loaded := config_loaded st;
     warned_code_points := warned_code_points st;
     warned_code_pages := warned_code_pages st;
     warned_default_code_page := warned_default_code_page st |}.
Definition set_config_duplicates (value : gmap Z Z) (st : Registry) : Registry :=
  {| config_mappings := config_mappings st;
     config_aliases := config_aliases st; config_duplicates := value;
     mapping_ascii := mapping_ascii st;
     decomposition_rules := decomposition_rules st;
     mappings_normalized_by_codepage := mappings_normalized_by_codepage st;
     mappings_decomposed_by_codepage := mappings_decomposed_by_codepage st;
     aliases_normalized_by_codepage := aliases_normalized_by_codepage st;
     aliases_decomposed_by_codepage := aliases_decomposed_by_codepage st;
     mappings_reverse_by_codepage := mappings_reverse_by_codepage st;
     already_tried := already_tried st; config_loaded := config_loaded st;
     warned_code_points := warned_code_points st;
     warned_code_pages := warned_code_pages st;
     warned_default_code_page := warned_default_code_page st |}.
Definition set_mapping_ascii (value : code_page_mapping_t) (st : Registry) : Registry :=
  {| config_mappings := config_mappings st;
     config_aliases := config_aliases st;
     config_duplicates := config_duplicates st; mapping_ascii := value;
     decomposition_rules := decomposition_rules st;
     mappings_normalized_by_codepage := mappings_normalized_by_codepage st;
     mappings_decomposed_by_codepage := mappings_decomposed_by_codepage st;
     aliases_normalized_by_codepage := aliases_normalized_by_codepage st;
     aliases_decomposed_by_codepage := aliases_decomposed_by_codepage st;
     mappings_reverse_by_codepage := mappings_reverse_by_codepage st;
     already_tried := already_tried st; config_loaded := config_loaded st;
     warned_code_points := warned_code_points st;
     warned_code_pages := warned_code_pages st;
     warned_default_code_page := warned_default_code_page st |}.
Definition set_decomposition_rules (value : gmap Z Grapheme) (st : Registry) : Registry :=
  {| config_mappings := config_mappings st;
     config_aliases := config_aliases st;
     config_duplicates := config_duplicates st;
     mapping_ascii := mapping_ascii st; decomposition_rules := value;
     mappings_normalized_by_codepage := mappings_normalized_by_codepage st;
     mappings_decomposed_by_codepage := mappings_decomposed_by_codepage st;
     aliases_normalized_by_codepage := aliases_normalized_by_codepage st;
     aliases_decomposed_by_codepage := aliases_decomposed_by_codepage st;
     mappings_reverse_by_codepage := mappings_reverse_by_codepage st;
     already_tried := already_tried st; config_loaded := config_loaded st;
     warned_code_points := warned_code_points st;
     warned_code_pages := warned_code_pages st;
     warned_default_code_page := warned_default_code_page st |}.
Definition set_mappings_normalized_by_codepage (value : gmap Z code_page_mapping_t) (st : Registry) : Registry :=
  {| config_mappings := config_mappings st;
     config_aliases := config_aliases st;
     config_duplicates := config_duplicates st;
     mapping_ascii := mapping_ascii st;
     decomposition_rules := decomposition_rules st;
     mappings_normalized_by_codepage := value;
     mappings_decomposed_by_codepage := mappings_decomposed_by_codepage st;
     aliases_normalized_by_codepage := aliases_normalized_by_codepage st;
     aliases_decomposed_by_codepage := aliases_decomposed_by_codepage st;
     mappings_reverse_by_codepage := mappings_reverse_by_codepage st;
     already_tried := already_tried st; config_loaded := config_loaded st;
     warned_code_points := warned_code_points st;
     warned_code_pages := warned_code_pages st;
     warned_default_code_page := warned_default_code_page st |}.
Definition set_mappings_decomposed_by_codepage (value : gmap Z code_page_mapping_t) (st : Registry) : Registry :=
  {| config_mappings := config_mappings st;
     config_aliases := config_aliases st;
     config_duplicates := config_duplicates st;
     mapping_ascii := mapping_ascii st;
     decomposition_rules := decomposition_rules st;
     mappings_normalized_by_codepage := mappings_normalized_by_codepage st;
     mappings_decomposed_by_codepage := value;
     aliases_normalized_by_codepage := aliases_normalized_by_codepage st;
     aliases_decomposed_by_codepage := aliases_decomposed_by_codepage st;
     mappings_reverse_by_codepage := mappings_reverse_by_codepage st;
     already_tried := already_tried st; config_loaded := config_loaded st;
     warned_code_points := warned_code_points st;
     warned_code_pages := warned_code_pages st;
     warned_default_code_page := warned_default_code_page st |}.
Definition set_aliases_normalized_by_codepage (value : gmap Z code_page_mapping_t) (st : Registry) : Registry :=
  {| config_mappings := config_mappings st;
     config_aliases := config_aliases st;
     config_duplicates := config_duplicates st;
     mapping_ascii := mapping_ascii st;
     decomposition_rules := decomposition_rules st;
     mappings_normalized_by_codepage := mappings_normalized_by_codepage st;
     mappings_decomposed_by_codepage := mappings_decomposed_by_codepage st;
     aliases_normalized_by_codepage := value;
     aliases_decomposed_by_codepage := aliases_decomposed_by_codepage st;
     mappings_reverse_by_codepage := mappings_reverse_by_codepage st;
     already_tried := already_tried st; config_loaded := config_loaded st;
     warned_code_points := warned_code_points st;
     warned_code_pages := warned_code_pages st;
     warned_default_code_page := warned_default_code_page st |}.
Definition set_aliases_decomposed_by_codepage (value : gmap Z code_page_mapping_t) (st : Registry) : Registry :=
  {| config_mappings := config_mappings st;
     config_aliases := config_aliases st;
     config_duplicates := config_duplicates st;
     mapping_ascii := mapping_ascii st;
     decomposition_rules := decomposition_rules st;
     mappings_normalized_by_codepage := mappings_normalized_by_codepage st;
     mappings_decomposed_by_codepage := mappings_decomposed_by_codepage st;
     aliases_normalized_by_codepage := aliases_normalized_by_codepage st;
     aliases_decomposed_by_codepage := value;
     mappings_reverse_by_codepage := mappings_reverse_by_codepage st;
     already_tried := already_tried st; config_loaded := config_loaded st;
     warned_code_points := warned_code_points st;
     warned_code_pages := warned_code_pages st;
     warned_default_code_page := warned_default_code_page st |}.
Definition set_mappings_reverse_by_codepage (value : gmap Z code_page_mapping_reverse_t) (st : Registry) : Registry :=
  {| config_mappings := config_mappings st;
     config_aliases := config_aliases st;
     config_duplicates := config_duplicates st;
     mapping_ascii := mapping_ascii st;
     decomposition_rules := decomposition_rules st;
     mappings_normalized_by_codepage := mappings_normalized_by_codepage st;
     mappings_decomposed_by_codepage := mappings_decomposed_by_codepage st;
     aliases_normalized_by_codepage := aliases_normalized_by_codepage st;
     aliases_decomposed_by_codepage := aliases_decomposed_by_codepage st;
     mappings_reverse_by_codepage := value;
     already_tried := already_tried st; config_loaded := config_loaded st;
     warned_code_points := warned_code_points st;
     warned_code_pages := warned_code_pages st;
     warned_default_code_page := warned_default_code_page st |}.
Definition set_already_tried (value : gset Z) (st : Registry) : Registry :=
  {| config_mappings := config_mappings st;
     config_aliases := config_aliases st;
     config_duplicates := config_duplicates st;
     mapping_ascii := mapping_ascii st;
     decomposition_rules := decomposition_rules st;
     mappings_normalized_by_codepage := mappings_normalized_by_codepage st;
     mappings_decomposed_by_codepage := mappings_decomposed_by_codepage st;
     aliases_normalized_by_codepage := aliases_normalized_by_codepage st;
     aliases_decomposed_by_codepage := aliases_decomposed_by_codepage st;
     mappings_reverse_by_codepage := mappings_reverse_by_codepage st;
     already_tried := value; config_loaded := config_loaded st;
     warned_code_points := warned_code_points st;
     warned_code_pages := warned_code_pages st;
     warned_default_code_page := warned_default_code_page st |}.
Definition set_config_loaded (value : bool) (st : Registry) : Registry :=
  {| config_mappings := config_mappings st;
     config_aliases := config_aliases st;
     config_duplicates := config_duplicates st;
     mapping_ascii := mapping_ascii st;
     decomposition_rules := decomposition_rules st;
     mappings_normalized_by_codepage := mappings_normalized_by_codepage st;
     mappings_decomposed_by_codepage := mappings_decomposed_by_codepage st;
     aliases_normalized_by_codepage := aliases_normalized_by_codepage st;
     aliases_decomposed_by_codepage := aliases_decomposed_by_codepage st;
     mappings_reverse_by_codepage := mappings_reverse_by_codepage st;
     already_tried := already_tried st; config_loaded := value;
     warned_code_points := warned_code_points st;
     warned_code_pages := warned_code_pages st;
     warned_default_code_page := warned_default_code_page st |}.
Definition set_warned_code_points (value : gset Z) (st : Registry) : Registry :=
  {| config_mappings := config_mappings st;
     config_aliases := config_aliases st;
     config_duplicates := config_duplicates st;
     mapping_ascii := mapping_ascii st;
     decomposition_rules := decomposition_rules st;
     mappings_normalized_by_codepage := mappings_normalized_by_codepage st;
     mappings_decomposed_by_codepage := mappings_decomposed_by_codepage st;
     aliases_normalized_by_codepage := aliases_normalized_by_codepage st;
     aliases_decomposed_by_codepage := aliases_decomposed_by_codepage st;
     mappings_reverse_by_codepage := mappings_reverse_by_codepage st;
     already_tried := already_tried st; config_loaded := config_loaded st;
     warned_code_points := value; warned_code_pages := warned_code_pages st;
     warned_default_code_page := warned_default_code_page st |}.
Definition set_warned_code_pages (value : gset Z) (st : Registry) : Registry :=
  {| config_mappings := config_mappings st;
     config_aliases := config_aliases st;
     config_duplicates := config_duplicates st;
     mapping_ascii := mapping_ascii st;
     decomposition_rules := decomposition_rules st;
     mappings_normalized_by_codepage := mappings_normalized_by_codepage st;
     mappings_decomposed_by_codepage := mappings_decomposed_by_codepage st;
     aliases_normalized_by_codepage := aliases_normalized_by_codepage st;
     aliases_decomposed_by_codepage := aliases_decomposed_by_codepage st;
     mappings_reverse_by_codepage := mappings_reverse_by_codepage st;
     already_tried := already_tried st; config_loaded := config_loaded st;
     warned_code_points := warned_code_points st;
     warned_code_pages := value;
     warned_default_code_page := warned_default_code_page st |}.
Definition set_warned_default_code_page (value : bool) (st : Registry) : Registry :=
  {| config_mappings := config_mappings st;
     config_aliases := config_aliases st;
     config_duplicates := config_duplicates st;
     mapping_ascii := mapping_ascii st;
     decomposition_rules := decomposition_rules st;
     mappings_normalized_by_codepage := mappings_normalized_by_codepage st;
     mappings_decomposed_by_codepage := mappings_decomposed_by_codepage st;
     aliases_normalized_by_codepage := aliases_normalized_by_codepage st;
     aliases_decomposed_by_codepage := aliases_decomposed_by_codepage st;
     mappings_reverse_by_codepage := mappings_reverse_by_codepage st;
     already_tried := already_tried st; config_loaded := config_loaded st;
     warned_code_points := warned_code_points st;
     warned_code_pages := warned_code_pages st;
     warned_default_code_page := value |}.

(** ** Conversion routines *)

(** The warnings: only the bookkeeping of what was already reported is
    kept, the log line itself is not. *)
Definition warn_code_point (code_point : Z) (st : Registry) : Registry :=
  if bool_decide (code_point ∈ warned_code_points st) then st
  else set_warned_code_points ({[code_point]} ∪ warned_code_points st) st.

Definition warn_code_page (code_page : Z) (st : Registry) : Registry :=
  if bool_decide (code_page ∈ warned_code_pages st) then st
  else set_warned_code_pages ({[code_page]} ∪ warned_code_pages st) st.

Definition warn_default_code_page (st : Registry) : Registry :=
  if warned_default_code_page st then st
  else set_warned_default_code_page true st.

(** The lambdas of [wide_to_dos]; each returns its result and the new
    [str_out].  A mapping pointer that is [nullptr] is [None]. *)

Definition push_7bit (grapheme : Grapheme) (str_out : list Z)
  : bool * list Z :=
  if HasMark grapheme then (false, str_out)
  else
    let code_point := GetCodePoint grapheme in
    if code_point >=? decode_threshold_non_ascii then (false, str_out)
    else (true, str_out ++ [uint8 code_point]).

Definition push_code_page (mapping : option code_page_mapping_t)
           (grapheme : Grapheme) (str_out : list Z) : bool * list Z :=
  match mapping with
  | None => (false, str_out)
  | Some mapping =>
      match smap_find Grapheme_ltb grapheme mapping with
      | None => (false, str_out)
      | Some second => (true, str_out ++ [second])
      end
  end.

Definition push_fallback (mapping_ascii : code_page_mapping_t)
           (grapheme : Grapheme) (str_out : list Z) : bool * list Z :=
  if HasMark grapheme then (false, str_out)
  else
    match smap_find Grapheme_ltb (Grapheme_new (GetCodePoint grapheme))
                    mapping_ascii with
    | None => (false, str_out)
    | Some second => (true, str_out ++ [second])
    end.

(** The four mapping pointers of [wide_to_dos]. *)
Record mapping_pointers := mkPointers {
  mapping_normalized : option code_page_mapping_t;
  mapping_decomposed : option code_page_mapping_t;
  aliases_normalized : option code_page_mapping_t;
  aliases_decomposed : option code_page_mapping_t
}.

Definition null_pointers : mapping_pointers :=
  {| mapping_normalized := None; mapping_decomposed := None;
     aliases_normalized := None; aliases_decomposed := None |}.

(** [a || b] on results that carry the output string: [b] is run only
    when [a] returned [false]. *)
Definition or_else (a : bool * list Z) (b : list Z -> bool * list Z)
  : bool * list Z :=
  if a.1 then a else b a.2.

Definition push_normalized (ptrs : mapping_pointers)
           (mapping_ascii : code_page_mapping_t)
           (grapheme : Grapheme) (str_out : list Z) : bool * list Z :=
  or_else (push_7bit grapheme str_out) (fun str_out =>
  or_else (push_code_page (mapping_normalized ptrs) grapheme str_out)
          (fun str_out =>
  or_else (push_code_page (aliases_normalized ptrs) grapheme str_out)
          (fun str_out =>
  push_fallback mapping_ascii grapheme str_out))).

Definition push_decomposed (fuel : nat) (rules : gmap Z Grapheme)
           (ptrs : mapping_pointers)
           (grapheme : Grapheme) (str_out : list Z)
  : option (bool * list Z) :=
  match Decompose fuel rules grapheme with
  | None => None
  | Some decomposed =>
      Some (or_else
              (push_code_page (mapping_decomposed ptrs) decomposed str_out)
              (fun str_out =>
               push_code_page (aliases_decomposed ptrs) decomposed str_out))
  end.

(** The first part of [wide_to_dos]: the lookups of the four mappings. *)
Definition find_mappings (code_page : Z) (st : Registry)
  : mapping_pointers * Registry :=
  if code_page =? 0 then (null_pointers, st)
  else
    let it_normalized := mappings_normalized_by_codepage st !! code_page in
    let st := match it_normalized with
              | Some _ => st
              | None => warn_code_page code_page st
              end in
    ({| mapping_normalized := it_normalized;
        mapping_decomposed := mappings_decomposed_by_codepage st !! code_page;
        aliases_normalized := aliases_normalized_by_codepage st !! code_page;
        aliases_decomposed := aliases_decomposed_by_codepage st !! code_page |},
     st).

(** The [while] loop that adds the combining marks after [str_in[i]];
    [rest] is the part of [str_in] from index [i + 1] on. *)
Fixpoint assemble_marks (rest : list Z) (grapheme : Grapheme) (i : nat)
  : Grapheme * nat :=
  match rest with
  | next :: rest' =>
      if is_combining_mark next
      then assemble_marks rest' (AddMark next grapheme) (S i)
      else (grapheme, i)
  | [] => (grapheme, i)
  end.

(** What the loops of [wide_to_dos] carry: [status], [str_out] and the
    registry (for the warnings). *)
Record dos_state := mkDosState {
  dos_status : bool;
  dos_out : list Z;
  dos_registry : Registry
}.

(** The lambda [push_unknown]. *)
Definition push_unknown (code_point : Z) (s : dos_state) : dos_state :=
  {| dos_out := dos_out s ++ [unknown_character];
     dos_registry := warn_code_point code_point (dos_registry s);
     dos_status := false |}.

Definition set_dos_out (str_out : list Z) (s : dos_state) : dos_state :=
  {| dos_out := str_out; dos_registry := dos_registry s;
     dos_status := dos_status s |}.

(** The body of the [for] loop of [wide_to_dos], entered at index [i]:
    the new [i] (before the loop's [++i]) and the new state. *)
Definition wide_to_dos_body (fuel : nat) (ptrs : mapping_pointers)
           (str_in : list Z) (i : nat) (s : dos_state)
  : option (nat * dos_state) :=
  let st := dos_registry s in
  let '(grapheme, i) :=
    assemble_marks (drop (S i) str_in) (Grapheme_new (nth i str_in 0)) i in
  let '(pushed, str_out) :=
    push_normalized ptrs (mapping_ascii st) grapheme (dos_out s) in
  if pushed then Some (i, set_dos_out str_out s)
  else
    match push_decomposed fuel (decomposition_rules st) ptrs grapheme
                          str_out with
    | None => None
    | Some (true, str_out) => Some (i, set_dos_out str_out s)
    | Some (false, str_out) =>
        let original_code_point := GetCodePoint grapheme in
        match Decompose fuel (decomposition_rules st) grapheme with
        | None => None
        | Some grapheme =>
            if HasMark grapheme then
              let grapheme := StripMarks grapheme in
              let '(pushed, str_out) :=
                push_normalized ptrs (mapping_ascii st) grapheme str_out in
              if pushed then Some (i, set_dos_out str_out s)
              else Some (i, push_unknown original_code_point
                                         (set_dos_out str_out s))
            else Some (i, push_unknown original_code_point
                                       (set_dos_out str_out s))
        end
    end.

(** The [for] loop of [wide_to_dos]; every turn moves [i] forward, so it
    is given [length str_in] turns. *)
Fixpoint wide_to_dos_loop (turns : nat) (fuel : nat) (ptrs : mapping_pointers)
         (str_in : list Z) (i : nat) (s : dos_state) : option dos_state :=
  if (i <? length str_in)%nat then
    match turns with
    | O => None
    | S turns' =>
        match wide_to_dos_body fuel ptrs str_in i s with
        | None => None
        | Some (i', s') => wide_to_dos_loop turns' fuel ptrs str_in (S i') s'
        end
    end
  else Some s.

(** [wide_to_dos]: the returned status, [str_out] and the registry. *)
Definition wide_to_dos (fuel : nat) (str_in : list Z) (code_page : Z)
           (st : Registry) : option (bool * list Z * Registry) :=
  let '(ptrs, st) := find_mappings code_page st in
  match wide_to_dos_loop (length str_in) fuel ptrs str_in 0
                         {| dos_status := true; dos_out := [];
                            dos_registry := st |} with
  | None => None
  | Some s => Some (dos_status s, dos_out s, dos_registry s)
  end.

(** Unicode code points for screen codes from 0x00 to 0x1f *)
Definition codes : list Z :=
  [ 0x0020; 0x263a; 0x263b; 0x2665;
    0x2666; 0x2663; 0x2660; 0x2022;
    0x25d8; 0x25cb; 0x25d9; 0x2642;
    0x2640; 0x266a; 0x266b; 0x263c;
    0x25ba; 0x25c4; 0x2195; 0x203c;
    0x00b6; 0x00a7; 0x25ac; 0x21a8;
    0x2191; 0x2193; 0x2192; 0x2190;
    0x221f; 0x2194; 0x25b2; 0x25bc ].

Definition codepoint_7f : Z := 0x2302.

(** The body of the [for] loop of [dos_to_wide]. *)
Definition dos_to_wide_step (st : Registry) (code_page : Z)
           (str_out : list Z) (character : Z) : list Z :=
  let byte := uint8 character in
  if byte >=? decode_threshold_non_ascii then
    match mappings_reverse_by_codepage st !! code_page with
    | None => str_out ++ [unknown_character]
    | Some reverse =>
        match smap_find Z.ltb byte reverse with
        | None => str_out ++ [unknown_character]
        | Some grapheme => PushInto grapheme str_out
        end
    end
  else if byte =? 0x7f then str_out ++ [codepoint_7f]
  else if byte >=? 0x20 then str_out ++ [byte]
  else str_out ++ [nth (Z.to_nat byte) codes 0].

Definition dos_to_wide (str_in : list Z) (code_page : Z) (st : Registry)
  : list Z :=
  fold_left (dos_to_wide_step st code_page) str_in [].

(** ** Reading resources from files *)

(** A mapping file as the loaders see it: the lines that successive calls
    of [std::getline] return, and whether the stream then ends in a read
    error instead of the end of the file. *)
Record File := mkFile {
  file_lines : list string;
  file_read_error : bool
}.

(** [GetResourcePath(dir)] followed by [open_mapping_file]: the file of
    that name in that resource directory, [None] if it cannot be opened. *)
Definition resources := string -> string -> option File.

Definition file_name_main : string := "MAIN.TXT".
Definition file_name_ascii : string := "ASCII.TXT".
Definition file_name_decomposition : string := "DECOMPOSITION.TXT".
Definition dir_name_mapping : string := "mapping".

(** [line_str.length() >= 1 && line_str[0] == end_of_file_marking] *)
Definition starts_with_eof_marking (line_str : string) : bool :=
  match line_str with
  | String c _ => (Z.of_nat (nat_of_ascii c) =? end_of_file_marking)
  | EmptyString => false
  end.

Definition string_empty (s : string) : bool :=
  match s with EmptyString => true | _ => false end.

(** [get_line] on the lines still to be read: [None] when it returns
    [false], else the line, the lines left and the new [line_num]. *)
Fixpoint get_line (pending : list string) (line_num : nat)
  : option (string * list string * nat) :=
  match pending with
  | [] => None
  | line_str :: pending' =>
      if starts_with_eof_marking line_str then None
      else if string_empty line_str then get_line pending' (S line_num)
      else Some (line_str, pending', S line_num)
  end.

(** How a [while (get_line(...))] loop was left: at the end-of-file
    marking, or because [std::getline] failed. *)
Inductive loop_end := AtMarking | AtStreamEnd.

(** [while (get_line(in_file, line_str, line_num)) { body }], where
    [body] either returns from the importing function ([None]) or goes on
    with a new state.  It is [get_line] and the loop in one recursion on
    the lines (see [while_get_line_unfold]). *)
Section while_get_line.
Context {A : Type} (body : nat -> string -> A -> option A).

Fixpoint while_get_line (pending : list string) (line_num : nat) (acc : A)
  : option (A * loop_end) :=
  match pending with
  | [] => Some (acc, AtStreamEnd)
  | line_str :: pending' =>
      if starts_with_eof_marking line_str then Some (acc, AtMarking)
      else if string_empty line_str
      then while_get_line pending' (S line_num) acc
      else match body (S line_num) line_str acc with
           | None => None
           | Some acc' => while_get_line pending' (S line_num) acc'
           end
  end.
End while_get_line.

Definition is_space (c : ascii) : bool :=
  Ascii.eqb c " " || Ascii.eqb c "009" || Ascii.eqb c "013" ||
  Ascii.eqb c "010".

(** The [for] loop of [get_tokens]; [rest] is [line] from index [i] on. *)
Fixpoint get_tokens_loop (rest : string) (line : string) (i : nat)
         (token_started : bool) (start_pos : nat) (tokens : list string)
  : bool * nat * list string :=
  match rest with
  | EmptyString => (token_started, start_pos, tokens)
  | String c rest' =>
      if Ascii.eqb c "#" then (token_started, start_pos, tokens)
      else if negb token_started && negb (is_space c) then
        get_tokens_loop rest' line (S i) true i tokens
      else if token_started && is_space c then
        get_tokens_loop rest' line (S i) false start_pos
          (tokens ++ [String.substring start_pos (i - start_pos) line])
      else get_tokens_loop rest' line (S i) token_started start_pos tokens
  end.

(** [get_tokens]: its result and [tokens]. *)
Definition get_tokens (line : string) : bool * list string :=
  let '(token_started, start_pos, tokens) :=
    get_tokens_loop line line 0 false 0 [] in
  let tokens :=
    if token_started
    then tokens ++ [String.substring start_pos
                      (String.length line - start_pos) line]
    else tokens in
  (negb (bool_decide (tokens = [])), tokens).

(** [isxdigit] together with the digit's value. *)
Definition hex_digit (c : ascii) : option Z :=
  let n := Z.of_nat (nat_of_ascii c) in
  if (0x30 <=? n) && (n <=? 0x39) then Some (n - 0x30)
  else if (0x41 <=? n) && (n <=? 0x46) then Some (n - 0x41 + 10)
  else if (0x61 <=? n) && (n <=? 0x66) then Some (n - 0x61 + 10)
  else None.

Definition get_hex_8bit (token : string) : option Z :=
  match token with
  | String "0" (String "x" (String c2 (String c3 EmptyString))) =>
      match hex_digit c2, hex_digit c3 with
      | Some d2, Some d3 => Some (uint8 (d2 * 16 + d3))
      | _, _ => None
      end
  | _ => None
  end.

Definition get_hex_16bit (token : string) : option Z :=
  match token with
  | String "0" (String "x" (String c2 (String c3 (String c4
      (String c5 EmptyString))))) =>
      match hex_digit c2, hex_digit c3, hex_digit c4, hex_digit c5 with
      | Some d2, Some d3, Some d4, Some d5 =>
          Some (uint16 (((d2 * 16 + d3) * 16 + d4) * 16 + d5))
      | _, _, _, _ => None
      end
  | _ => None
  end.

Definition get_ascii (token : string) : option Z :=
  match token with
  | String c EmptyString => Some (uint8 (Z.of_nat (nat_of_ascii c)))
  | _ =>
      if String.eqb token "SPC" then Some 0x20
      else if String.eqb token "HSH" then Some 0x23
      else if String.eqb token "NNN" then Some unknown_character
      else None
  end.

Definition is_digit (c : ascii) : bool :=
  let n := Z.of_nat (nat_of_ascii c) in (0x30 <=? n) && (n <=? 0x39).

(** [std::atoi] on a string of decimal digits *)
Fixpoint atoi_digits (token : string) (acc : Z) : Z :=
  match token with
  | EmptyString => acc
  | String c rest =>
      atoi_digits rest (acc * 10 + (Z.of_nat (nat_of_ascii c) - 0x30))
  end.

Fixpoint all_digits (token : string) : bool :=
  match token with
  | EmptyString => true
  | String c rest => is_digit c && all_digits rest
  end.

Definition UINT16_MAX : Z := 65535.

Definition get_code_page (token : string) : option Z :=
  if string_empty token || (5 <? String.length token)%nat then None
  else if negb (all_digits token) then None
  else
    let tmp := atoi_digits token 0 in
    if (tmp <? 1) || (tmp >? UINT16_MAX) then None
    else Some (uint16 tmp).

(** [tokens[idx]] *)
Definition token_at (tokens : list string) (idx : nat) : string :=
  nth idx tokens EmptyString.

Definition get_grapheme (tokens : list string) : option Grapheme :=
  if (length tokens <? 2)%nat then None
  else
    match get_hex_16bit (token_at tokens 1) with
    | None => None
    | Some code_point =>
        let new_grapheme := Grapheme_new code_point in
        let after_3 :=
          if (3 <=? length tokens)%nat then
            match get_hex_16bit (token_at tokens 2) with
            | None => None
            | Some code_point => Some (AddMark code_point new_grapheme)
            end
          else Some new_grapheme in
        match after_3 with
        | None => None
        | Some new_grapheme =>
            if (4 <=? length tokens)%nat then
              match get_hex_16bit (token_at tokens 3) with
              | None => None
              | Some code_point => Some (AddMark code_point new_grapheme)
              end
            else Some new_grapheme
        end
    end.

(** [check_import_status]: [in_file.fail() && !in_file.eof()] holds when
    the loop was left because [std::getline] failed on a read error. *)
Definition check_import_status (file : File) (how : loop_end) (empty : bool)
  : bool :=
  if match how with
     | AtStreamEnd => file_read_error file
     | AtMarking => false
     end
  then false
  else if empty then false
  else true.

Definition check_grapheme_valid (grapheme : Grapheme) : bool :=
  IsValid grapheme.

(** The body of the loop of [import_mapping_code_page]; the state is
    [new_mapping]. *)
Definition import_mapping_code_page_body (line_num : nat) (line_str : string)
           (new_mapping : code_page_mapping_reverse_t)
  : option code_page_mapping_reverse_t :=
  let '(has_tokens, tokens) := get_tokens line_str in
  if negb has_tokens then Some new_mapping
  else
    match get_hex_8bit (token_at tokens 0) with
    | None => None
    | Some character_code =>
        if (length tokens =? 1)%nat then
          if character_code >=? decode_threshold_non_ascii then
            Some (add_if_not_mapped Z.ltb new_mapping character_code
                                    Grapheme_default).1
          else Some new_mapping
        else if (length tokens <=? 4)%nat then
          if character_code >=? decode_threshold_non_ascii then
            match get_grapheme tokens with
            | None => None
            | Some grapheme =>
                let '(new_mapping, was_added) :=
                  add_if_not_mapped Z.ltb new_mapping character_code
                                    grapheme in
                if was_added && negb (check_grapheme_valid grapheme)
                then None
                else Some new_mapping
            end
          else Some new_mapping
        else None
    end.

(** [import_mapping_code_page]: [None] when it returns [false], else the
    value assigned to [mapping]. *)
Definition import_mapping_code_page (fs : resources)
           (dir_name file_name : string)
  : option code_page_mapping_reverse_t :=
  match fs dir_name file_name with
  | None => None
  | Some in_file =>
      match while_get_line import_mapping_code_page_body
                           (file_lines in_file) 0 [] with
      | None => None
      | Some (new_mapping, how) =>
          if check_import_status in_file how (bool_decide (new_mapping = []))
          then Some new_mapping
          else None
      end
  end.

(** The local variables of [import_config_main]. *)
Record main_locals := mkMainLocals {
  file_empty : bool;
  curent_code_page : Z;
  new_config_mappings : gmap Z ConfigMappingEntry;
  new_config_duplicates : gmap Z Z;
  new_config_aliases : list (Z * Z)
}.

(** [m[code_page]] on a [config_mappings_t]: the element, created with
    its default value when it is missing. *)
Definition entry_at (code_page : Z) (m : gmap Z ConfigMappingEntry)
  : ConfigMappingEntry :=
  default ConfigMappingEntry_default (m !! code_page).

(** The lambda [check_no_code_page]. *)
Definition check_no_code_page (l : main_locals) (code_page : Z) : bool :=
  if (match new_config_mappings l !! code_page with
      | Some entry => valid entry
      | None => false
      end) ||
     bool_decide (is_Some (new_config_duplicates l !! code_page))
  then false
  else true.

Definition import_config_main_ALIAS (tokens : list string) (l : main_locals)
  : option main_locals :=
  if (negb (length tokens =? 3)%nat && negb (length tokens =? 4)%nat) ||
     ((length tokens =? 4)%nat &&
      negb (String.eqb (token_at tokens 3) "BIDIRECTIONAL"))
  then None
  else
    match get_hex_16bit (token_at tokens 1),
          get_hex_16bit (token_at tokens 2) with
    | Some code_point_1, Some code_point_2 =>
        let aliases := new_config_aliases l ++ [(code_point_1, code_point_2)] in
        let aliases :=
          if (length tokens =? 4)%nat
          then aliases ++ [(code_point_2, code_point_1)]
          else aliases in
        Some {| file_empty := file_empty l;
                curent_code_page := 0;
                new_config_mappings := new_config_mappings l;
                new_config_duplicates := new_config_duplicates l;
                new_config_aliases := aliases |}
    | _, _ => None
    end.

Definition import_config_main_CODEPAGE (tokens : list string)
           (l : main_locals) : option main_locals :=
  if (length tokens =? 4)%nat && String.eqb (token_at tokens 2) "DUPLICATES"
  then
    match get_code_page (token_at tokens 1),
          get_code_page (token_at tokens 3) with
    | Some code_page_1, Some code_page_2 =>
        if negb (check_no_code_page l code_page_1) then None
        else
          Some {| file_empty := file_empty l;
                  curent_code_page := 0;
                  new_config_mappings := new_config_mappings l;
                  new_config_duplicates :=
                    <[code_page_1 := code_page_2]> (new_config_duplicates l);
                  new_config_aliases := new_config_aliases l |}
    | _, _ => None
    end
  else
    if negb (length tokens =? 2)%nat then None
    else
      match get_code_page (token_at tokens 1) with
      | None => None
      | Some code_page =>
          if negb (check_no_code_page l code_page) then None
          else
            let entry := entry_at code_page (new_config_mappings l) in
            Some {| file_empty := file_empty l;
                    curent_code_page := code_page;
                    new_config_mappings :=
                      <[code_page :=
                          {| valid := true;
                             mapping := mapping entry;
                             extends_code_page := extends_code_page entry;
                             extends_dir := extends_dir entry;
                             extends_file := extends_file entry |}]>
                        (new_config_mappings l);
                    new_config_duplicates := new_config_duplicates l;
                    new_config_aliases := new_config_aliases l |}
      end.

Definition import_config_main_EXTENDS (tokens : list string)
           (l : main_locals) : option main_locals :=
  if curent_code_page l =? 0 then None
  else
    let entry := entry_at (curent_code_page l) (new_config_mappings l) in
    if (length tokens =? 3)%nat && String.eqb (token_at tokens 1) "CODEPAGE"
    then
      match get_code_page (token_at tokens 2) with
      | None => None
      | Some code_page =>
          Some {| file_empty := file_empty l;
                  curent_code_page := 0;
                  new_config_mappings :=
                    <[curent_code_page l :=
                        {| valid := valid entry;
                           mapping := mapping entry;
                           extends_code_page := code_page;
                           extends_dir := extends_dir entry;
                           extends_file := extends_file entry |}]>
                      (new_config_mappings l);
                  new_config_duplicates := new_config_duplicates l;
                  new_config_aliases := new_config_aliases l |}
      end
    else if (length tokens =? 4)%nat && String.eqb (token_at tokens 1) "FILE"
    then
      Some {| file_empty := false;
              curent_code_page := 0;
              new_config_mappings :=
                <[curent_code_page l :=
                    {| valid := valid entry;
                       mapping := mapping entry;
                       extends_code_page := extends_code_page entry;
                       extends_dir := token_at tokens 2;
                       extends_file := token_at tokens 3 |}]>
                  (new_config_mappings l);
              new_config_duplicates := new_config_duplicates l;
              new_config_aliases := new_config_aliases l |}
    else None.

(** The branch of [import_config_main] for a line that starts with a
    character code; [new_mapping] is a reference into the entry of the
    code page being defined. *)
Definition import_config_main_character (tokens : list string)
           (character_code : Z) (l : main_locals) : option main_locals :=
  if curent_code_page l =? 0 then None
  else
    let entry := entry_at (curent_code_page l) (new_config_mappings l) in
    let store (new_mapping : code_page_mapping_reverse_t) :=
      Some {| file_empty := false;
              curent_code_page := curent_code_page l;
              new_config_mappings :=
                <[curent_code_page l :=
                    {| valid := valid entry;
                       mapping := new_mapping;
                       extends_code_page := extends_code_page entry;
                       extends_dir := extends_dir entry;
                       extends_file := extends_file entry |}]>
                  (new_config_mappings l);
              new_config_duplicates := new_config_duplicates l;
              new_config_aliases := new_config_aliases l |} in
    let untouched :=
      Some {| file_empty := file_empty l;
              curent_code_page := curent_code_page l;
              new_config_mappings :=
                <[curent_code_page l := entry]> (new_config_mappings l);
              new_config_duplicates := new_config_duplicates l;
              new_config_aliases := new_config_aliases l |} in
    if (length tokens =? 1)%nat then
      if character_code >=? decode_threshold_non_ascii then
        store (add_if_not_mapped Z.ltb (mapping entry) character_code
                                 Grapheme_default).1
      else untouched
    else if (length tokens <=? 4)%nat then
      if character_code >=? decode_threshold_non_ascii then
        match get_grapheme tokens with
        | None => None
        | Some grapheme =>
            if negb (check_grapheme_valid grapheme) then None
            else store (add_if_not_mapped Z.ltb (mapping entry)
                                          character_code grapheme).1
        end
      else untouched
    else None.

(** The body of the loop of [import_config_main]. *)
Definition import_config_main_body (line_num : nat) (line_str : string)
           (l : main_locals) : option main_locals :=
  let '(has_tokens, tokens) := get_tokens line_str in
  if negb has_tokens then Some l
  else if String.eqb (token_at tokens 0) "ALIAS" then
    import_config_main_ALIAS tokens l
  else if String.eqb (token_at tokens 0) "CODEPAGE" then
    import_config_main_CODEPAGE tokens l
  else if String.eqb (token_at tokens 0) "EXTENDS" then
    import_config_main_EXTENDS tokens l
  else
    match get_hex_8bit (token_at tokens 0) with
    | Some character_code =>
        import_config_main_character tokens character_code l
    | None => None
    end.

(** The local variables of [import_config_main] before its loop. *)
Definition main_locals_initial : main_locals :=
  {| file_empty := true; curent_code_page := 0;
     new_config_mappings := ∅; new_config_duplicates := ∅;
     new_config_aliases := [] |}.

(** What [import_config_main] has when it reaches its last three
    assignments; [None] when it returns before them. *)
Definition import_config_main_parse (fs : resources) : option main_locals :=
  match fs dir_name_mapping file_name_main with
  | None => None
  | Some in_file =>
      match while_get_line import_config_main_body (file_lines in_file) 0
                           main_locals_initial with
      | None => None
      | Some (l, how) =>
          if check_import_status in_file how (file_empty l)
          then Some l
          else None
      end
  end.

Definition import_config_main (fs : resources) (st : Registry) : Registry :=
  match import_config_main_parse fs with
  | None => st
  | Some l =>
      set_config_aliases (new_config_aliases l)
        (set_config_duplicates (new_config_duplicates l)
           (set_config_mappings (new_config_mappings l) st))
  end.

(** The [for] loop over the mark tokens of a line of DECOMPOSITION.TXT;
    [rest] is [tokens] from index 2 on. *)
Fixpoint import_decomposition_marks (rest : list string) (code_point_1 : Z)
         (new_rules : gmap Z Grapheme) : option (gmap Z Grapheme) :=
  match rest with
  | [] => Some new_rules
  | token :: rest' =>
      match get_hex_16bit token with
      | None => None
      | Some code_point_2 =>
          if negb (is_combining_mark code_point_2) then None
          else
            import_decomposition_marks rest' code_point_1
              (<[code_point_1 :=
                   AddMark code_point_2
                     (default Grapheme_default (new_rules !! code_point_1))]>
                 new_rules)
      end
  end.

(** The body of the loop of [import_decomposition]. *)
Definition import_decomposition_body (line_num : nat) (line_str : string)
           (new_rules : gmap Z Grapheme) : option (gmap Z Grapheme) :=
  let '(has_tokens, tokens) := get_tokens line_str in
  if negb has_tokens then Some new_rules
  else if (length tokens <? 3)%nat then None
  else
    match get_hex_16bit (token_at tokens 0),
          get_hex_16bit (token_at tokens 1) with
    | Some code_point_1, Some code_point_2 =>
        import_decomposition_marks (drop 2 tokens) code_point_1
          (<[code_point_1 := Grapheme_new code_point_2]> new_rules)
    | _, _ => None
    end.

(** [new_rules.empty()] *)
Definition rules_empty (new_rules : gmap Z Grapheme) : bool :=
  bool_decide (new_rules = ∅).

(** The rules [import_decomposition] assigns to [decomposition_rules];
    [None] when it returns before the assignment. *)
Definition import_decomposition_parse (fs : resources)
  : option (gmap Z Grapheme) :=
  match fs dir_name_mapping file_name_decomposition with
  | None => None
  | Some in_file =>
      match while_get_line import_decomposition_body (file_lines in_file) 0
                           ∅ with
      | None => None
      | Some (new_rules, how) =>
          if check_import_status in_file how (rules_empty new_rules)
          then Some new_rules
          else None
      end
  end.

Definition import_decomposition (fs : resources) (st : Registry) : Registry :=
  match import_decomposition_parse fs with
  | None => st
  | Some new_rules => set_decomposition_rules new_rules st
  end.

(** The body of the loop of [import_mapping_ascii]. *)
Definition import_mapping_ascii_body (line_num : nat) (line_str : string)
           (new_mapping_ascii : code_page_mapping_t)
  : option code_page_mapping_t :=
  let '(has_tokens, tokens) := get_tokens line_str in
  if negb has_tokens then Some new_mapping_ascii
  else if negb (length tokens =? 2)%nat then None
  else
    match get_hex_16bit (token_at tokens 0), get_ascii (token_at tokens 1) with
    | Some code_point, Some character =>
        Some (smap_assign Grapheme_ltb (Grapheme_new code_point) character
                          new_mapping_ascii)
    | _, _ => None
    end.

(** [new_mapping_ascii.empty()] *)
Definition mapping_empty (new_mapping_ascii : code_page_mapping_t) : bool :=
  bool_decide (new_mapping_ascii = []).

Definition import_mapping_ascii_parse (fs : resources)
  : option code_page_mapping_t :=
  match fs dir_name_mapping file_name_ascii with
  | None => None
  | Some in_file =>
      match while_get_line import_mapping_ascii_body (file_lines in_file) 0
                           [] with
      | None => None
      | Some (new_mapping_ascii, how) =>
          if check_import_status in_file how
                                 (mapping_empty new_mapping_ascii)
          then Some new_mapping_ascii
          else None
      end
  end.

Definition import_mapping_ascii (fs : resources) (st : Registry) : Registry :=
  match import_mapping_ascii_parse fs with
  | None => st
  | Some new_mapping_ascii => set_mapping_ascii new_mapping_ascii st
  end.

(** ** Building the mappings of a code page *)

Definition deduplicate_code_page (code_page : Z) (st : Registry) : Z :=
  match config_duplicates st !! code_page with
  | None => code_page
  | Some second => second
  end.

(** The [for] loop of [construct_decomposed]. *)
Fixpoint construct_decomposed_loop (fuel : nat) (rules : gmap Z Grapheme)
         (normalized : code_page_mapping_t) (decomposed : code_page_mapping_t)
  : option code_page_mapping_t :=
  match normalized with
  | [] => Some decomposed
  | (grapheme, character_code) :: rest =>
      match Decompose fuel rules grapheme with
      | None => None
      | Some tmp =>
          if operator_eq grapheme tmp
          then construct_decomposed_loop fuel rules rest decomposed
          else construct_decomposed_loop fuel rules rest
                 (smap_assign Grapheme_ltb tmp character_code decomposed)
      end
  end.

(** [construct_decomposed]: the new value of [decomposed]. *)
Definition construct_decomposed (fuel : nat) (rules : gmap Z Grapheme)
           (normalized : code_page_mapping_t) : option code_page_mapping_t :=
  construct_decomposed_loop fuel rules normalized [].

(** The lambda [add_to_mappings] of [construct_mapping], on the pair
    [(new_mapping, new_mapping_reverse)]. *)
Definition add_to_mappings (first : Z) (second : Grapheme)
           (maps : code_page_mapping_t * code_page_mapping_reverse_t)
  : code_page_mapping_t * code_page_mapping_reverse_t :=
  let '(new_mapping, new_mapping_reverse) := maps in
  if first <? decode_threshold_non_ascii then maps
  else
    let '(new_mapping_reverse, was_added) :=
      add_if_not_mapped Z.ltb new_mapping_reverse first second in
    if negb was_added then (new_mapping, new_mapping_reverse)
    else if IsEmpty second || negb (IsValid second) then
      (new_mapping, new_mapping_reverse)
    else
      ((add_if_not_mapped Grapheme_ltb new_mapping second first).1,
       new_mapping_reverse).

(** The last part of [construct_mapping], from the external mapping file
    on; [maps] is the pair [(new_mapping, new_mapping_reverse)] so far. *)
Definition construct_mapping_finish (fuel : nat) (fs : resources)
           (code_page : Z) (config_mapping : ConfigMappingEntry)
           (maps : code_page_mapping_t * code_page_mapping_reverse_t)
           (st : Registry) : option (bool * Registry) :=
  let from_file :=
    if string_empty (extends_file config_mapping) then Some maps
    else
      match import_mapping_code_page fs (extends_dir config_mapping)
                                     (extends_file config_mapping) with
      | None => None
      | Some mapping_file =>
          Some (fold_left
                  (fun maps entry => add_to_mappings entry.1 entry.2 maps)
                  mapping_file maps)
      end in
  match from_file with
  | None => Some (false, st)
  | Some (new_mapping, new_mapping_reverse) =>
      let st :=
        set_mappings_normalized_by_codepage
          (<[code_page := new_mapping]>
             (mappings_normalized_by_codepage st)) st in
      let st :=
        set_mappings_reverse_by_codepage
          (<[code_page := new_mapping_reverse]>
             (mappings_reverse_by_codepage st)) st in
      match construct_decomposed fuel (decomposition_rules st)
                                 new_mapping with
      | None => None
      | Some decomposed =>
          Some (true,
                set_mappings_decomposed_by_codepage
                  (<[code_page := decomposed]>
                     (mappings_decomposed_by_codepage st)) st)
      end
  end.

(** [construct_mapping], with [prepare_code_page] (which it calls and
    which calls it) as [prepare]. *)
Definition construct_mapping
           (prepare : Z -> Registry -> option (bool * Registry))
           (fuel : nat) (fs : resources) (code_page : Z) (st : Registry)
  : option (bool * Registry) :=
  if bool_decide (code_page ∈ already_tried st) then Some (false, st)
  else
    let st := set_already_tried ({[code_page]} ∪ already_tried st) st in
    let config_mapping := entry_at code_page (config_mappings st) in
    let maps :=
      fold_left (fun maps entry => add_to_mappings entry.1 entry.2 maps)
                (mapping config_mapping) ([], []) in
    if extends_code_page config_mapping =? 0 then
      construct_mapping_finish fuel fs code_page config_mapping maps st
    else
      let dependency :=
        deduplicate_code_page (extends_code_page config_mapping) st in
      match prepare dependency st with
      | None => None
      | Some (false, st) => Some (false, st)
      | Some (true, st) =>
          construct_mapping_finish fuel fs code_page config_mapping
            (fold_left
               (fun maps entry => add_to_mappings entry.2 entry.1 maps)
               (default [] (mappings_normalized_by_codepage st
                              !! dependency))
               maps)
            st
      end.

(** The [for] loop of [construct_aliases]. *)
Definition construct_aliases_step (mapping : code_page_mapping_t)
           (aliases_normalized : code_page_mapping_t) (alias : Z * Z)
  : code_page_mapping_t :=
  if negb (smap_count Grapheme_ltb (Grapheme_new alias.1) mapping) &&
     smap_count Grapheme_ltb (Grapheme_new alias.2) mapping &&
     negb (smap_count Grapheme_ltb (Grapheme_new alias.1) aliases_normalized)
  then
    match smap_find Grapheme_ltb (Grapheme_new alias.2) mapping with
    | Some second =>
        smap_assign Grapheme_ltb (Grapheme_new alias.1) second
                    aliases_normalized
    | None => aliases_normalized
    end
  else aliases_normalized.

Definition construct_aliases (fuel : nat) (code_page : Z) (st : Registry)
  : option Registry :=
  let mapping :=
    default [] (mappings_normalized_by_codepage st !! code_page) in
  let aliases_normalized :=
    fold_left (construct_aliases_step mapping) (config_aliases st)
              (default [] (aliases_normalized_by_codepage st !! code_page)) in
  let st :=
    set_aliases_normalized_by_codepage
      (<[code_page := aliases_normalized]>
         (aliases_normalized_by_codepage st)) st in
  match construct_decomposed fuel (decomposition_rules st)
                             aliases_normalized with
  | None => None
  | Some decomposed =>
      Some (set_aliases_decomposed_by_codepage
              (<[code_page := decomposed]>
                 (aliases_decomposed_by_codepage st)) st)
  end.

(** The three [erase] calls of [prepare_code_page]. *)
Definition erase_mappings (code_page : Z) (st : Registry) : Registry :=
  set_mappings_reverse_by_codepage
    (delete code_page (mappings_reverse_by_codepage st))
    (set_mappings_decomposed_by_codepage
       (delete code_page (mappings_decomposed_by_codepage st))
       (set_mappings_normalized_by_codepage
          (delete code_page (mappings_normalized_by_codepage st)) st)).

(** [prepare_code_page]; [depth] bounds the nesting of the calls through
    [construct_mapping], [fuel] the loops of [Decompose]. *)
Fixpoint prepare_code_page (depth : nat) (fuel : nat) (fs : resources)
         (code_page : Z) (st : Registry) : option (bool * Registry) :=
  if bool_decide (is_Some (mappings_normalized_by_codepage st !! code_page))
  then Some (true, st)
  else if negb (bool_decide (is_Some (config_mappings st !! code_page)))
  then Some (false, erase_mappings code_page st)
  else
    match depth with
    | O => None
    | S depth' =>
        match construct_mapping (prepare_code_page depth' fuel fs)
                                fuel fs code_page st with
        | None => None
        | Some (false, st) => Some (false, erase_mappings code_page st)
        | Some (true, st) =>
            match construct_aliases fuel code_page st with
            | None => None
            | Some st => Some (true, st)
            end
        end
    end.

Definition load_config_if_needed (fs : resources) (st : Registry)
  : Registry :=
  if config_loaded st then st
  else
    set_config_loaded true
      (import_config_main fs
         (import_mapping_ascii fs
            (import_decomposition fs st))).

Definition default_code_page : Z := 437.

Definition get_default_code_page (fuel : nat) (fs : resources)
           (st : Registry) : option (Z * Registry) :=
  match prepare_code_page fuel fuel fs default_code_page st with
  | None => None
  | Some (false, st) => Some (0, warn_default_code_page st)
  | Some (true, st) => Some (default_code_page, st)
  end.

Definition get_custom_code_page (fuel : nat) (fs : resources)
           (custom_code_page : Z) (st : Registry) : option (Z * Registry) :=
  if custom_code_page =? 0 then Some (0, st)
  else
    let code_page := deduplicate_code_page custom_code_page st in
    match prepare_code_page fuel fuel fs code_page st with
    | None => None
    | Some (false, st) => get_default_code_page fuel fs st
    | Some (true, st) => Some (code_page, st)
    end.

(** ** External interface *)

(** [utf8_to_dos(str_in, str_out, code_page)]: the returned status,
    [str_out] and the registry afterwards. *)
Definition utf8_to_dos (fuel : nat) (fs : resources) (str_in : list Z)
           (code_page : Z) (st : Registry)
  : option (bool * list Z * Registry) :=
  let st := load_config_if_needed fs st in
  match get_custom_code_page fuel fs code_page st with
  | None => None
  | Some (cp, st) =>
      let '(status1, str_wide) := utf8_to_wide str_in in
      match wide_to_dos fuel str_wide cp st with
      | None => None
      | Some (status2, str_out, st) => Some (status1 && status2, str_out, st)
      end
  end.

(** [dos_to_utf8(str_in, str_out, code_page)]: [str_out] and the registry
    afterwards. *)
Definition dos_to_utf8 (fuel : nat) (fs : resources) (str_in : list Z)
           (code_page : Z) (st : Registry) : option (list Z * Registry) :=
  let st := load_config_if_needed fs st in
  match get_custom_code_page fuel fs code_page st with
  | None => None
  | Some (cp, st) =>
      let str_wide := dos_to_wide str_in cp st in
      Some (wide_to_utf8 str_wide, st)
  end.

(** ** Notions used in the statements *)

(** [b] is the base of the decomposition rule of [a]. *)
Definition rule_step (rules : gmap Z Grapheme) (a b : Z) : Prop :=
  exists rule, rules !! a = Some rule /\ code_point rule = b.

(** The rules form an acyclic graph: no code point reaches itself by
    repeatedly following rule bases. *)
Definition acyclic (rules : gmap Z Grapheme) : Prop :=
  forall cp, ~ tc (rule_step rules) cp cp.

(** Every rule of the table is a value of the Grapheme class. *)
Definition rules_constructed (rules : gmap Z Grapheme) : Prop :=
  forall cp rule, rules !! cp = Some rule -> constructed rule.

(** The number of graphemes in a sequence of code points: a grapheme is a
    code point together with the run of combining marks that follows it,
    so there is one for the first code point and one for each later code
    point that is not a combining mark. *)
Definition grapheme_count (str_in : list Z) : nat :=
  match str_in with
  | [] => O
  | _ :: rest =>
      S (length (List.filter (fun c => negb (is_combining_mark c)) rest))
  end.

(** A byte of the range 0x20..0x7E. *)
Definition printable_ascii (byte : Z) : Prop := 0x20 <= byte <= 0x7e.

(** A resource directory with the given three top-level mapping files
    and nothing else. *)
Definition mapping_files (main ascii decomposition : option File)
  : resources :=
  fun dir_name file_name =>
    if String.eqb dir_name dir_name_mapping then
      if String.eqb file_name file_name_main then main
      else if String.eqb file_name file_name_ascii then ascii
      else if String.eqb file_name file_name_decomposition then decomposition
      else None
    else None.

Definition text_file (lines : list string) : File :=
  {| file_lines := lines; file_read_error := false |}.

(** What makes a loader return before it assigns to the global tables:
    the file cannot be opened, the loop over its lines is left through a
    [return] (a parse error), or [check_import_status] refuses it
    (a read error, or no entries). *)
Definition import_fails {A : Type} (body : nat -> string -> A -> option A)
           (init : A) (empty : A -> bool) (in_file : option File) : Prop :=
  match in_file with
  | None => True
  | Some file =>
      match while_get_line body (file_lines file) 0 init with
      | None => True
      | Some (new_table, how) =>
          check_import_status file how (empty new_table) = false
      end
  end.

(** The class invariant of [Grapheme]: the marks are combining marks
    without repetition, [marks_sorted] is [marks] in increasing order, and
    only a valid, non-empty grapheme carries marks. *)
Record grapheme_inv (g : Grapheme) : Prop := {
  inv_combining : Forall (fun m => is_combining_mark m = true) (marks g);
  inv_nodup : NoDup (marks g);
  inv_sorted : Sorted Z.le (marks_sorted g);
  inv_perm : marks_sorted g ≡ₚ marks g;
  inv_flags : marks g <> [] -> is_empty g = false /\ is_valid g = true
}.

(** What a [push_...] lambda of [wide_to_dos] does to [str_out]: it
    pushes one byte and returns [true], or pushes nothing and returns
    [false]. *)
Definition pushes_at_most_one (str_out : list Z) (r : bool * list Z) : Prop :=
  (r.1 = true /\ exists byte, r.2 = str_out ++ [byte]) \/
  r = (false, str_out).

(** What the mapping builder leaves alone: the decomposition rules and
    the configuration of the code pages; [already_tried] only grows. *)
Definition same_config (st st' : Registry) : Prop :=
  decomposition_rules st' = decomposition_rules st /\
  config_mappings st' = config_mappings st /\
  already_tried st ⊆ already_tried st'.

(** The code pages of the configuration that [construct_mapping] has not
    tried yet. *)
Definition untried (st : Registry) : gset Z :=
  dom (config_mappings st) ∖ already_tried st.

(** ** Example tables and files *)

(** One rule: U+00E9 is U+0065 with U+0301. *)
Definition example_rules : gmap Z Grapheme :=
  {[ 0x00e9 := AddMark 0x0301 (Grapheme_new 0x65) ]}.

(** A small set of mapping files: code page 437 with one mapped byte,
    one byte marked undefined and one alias. *)
Definition good_main_files : resources :=
  mapping_files
    (Some (text_file ["CODEPAGE 437"%string; "0x80 0x00c7"%string;
                      "0x81"%string; "ALIAS 0x00c8 0x00c7"%string]))
    (Some (text_file ["0x2018 '"%string]))
    (Some (text_file ["0x00e9 0x0065 0x0301"%string])).

(** The registry after [get_custom_code_page(437)] on these files: the
    configuration is loaded and code page 437 is prepared. *)
Definition example_registry : Registry :=
  match get_custom_code_page 2 good_main_files 437
          (load_config_if_needed good_main_files Registry_initial) with
  | Some (_, st) => st
  | None => Registry_initial
  end.

(** A MAIN.TXT whose third line gives a mark that is no combining
    mark. *)
Definition broken_main_files : resources :=
  mapping_files
    (Some (text_file ["CODEPAGE 437"%string; "0x80 0x00c7"%string;
                      "0x81 0x00fc 0x0041"%string]))
    None None.

(** A DECOMPOSITION.TXT with two lines for the same source code point. *)
Definition duplicate_source_files : resources :=
  mapping_files None None
    (Some (text_file ["0x00c9 0x0045 0x0301"%string;
                      "0x00c9 0x0041 0x0300"%string])).

(** ** Further notions used in the statements *)

(** A code point of the Basic Multilingual Plane: a [uint16_t] value. *)
Definition is_uint16 (cp : Z) : Prop := 0 <= cp < 65536.

(** The bytes that [wide_to_utf8] pushes for one code point. *)
Definition utf8_bytes (code_point : Z) : list Z :=
  wide_to_utf8_step [] code_point.

(** [f] holds on the [count] numbers from [lo] on. *)
Fixpoint holds_from (f : Z -> bool) (count : nat) (lo : Z) : bool :=
  match count with
  | O => true
  | S count' => f lo && holds_from f count' (lo + 1)
  end.

(** The arithmetic of a 2-byte and of a 3-byte encoding, checked on one
    code point: the bytes pushed are a lead byte and continuation bytes,
    and the decoder's formula gives the code point back. *)
Definition encode_2_bytes_ok (cp : Z) : bool :=
  let b1 := uint8 (Z.lor (Z.shiftr cp 6) 0xc0) in
  let b2 := uint8 (Z.lor (Z.land 0x3f cp) 0x80) in
  (0xc0 <=? b1) && (b1 <? 0xe0) && (0x80 <=? b2) && (b2 <? 0xc0) &&
  ((b1 - 0xc0) * 64 + (b2 - 0x80) =? cp).

Definition encode_3_bytes_ok (cp : Z) : bool :=
  let b1 := uint8 (Z.lor (Z.shiftr cp 12) 0xe0) in
  let b2 := uint8 (Z.lor (Z.land 0x3f (Z.shiftr cp 6)) 0x80) in
  let b3 := uint8 (Z.lor (Z.land 0x3f cp) 0x80) in
  (0xe0 <=? b1) && (b1 <? 0xf0) && (0x80 <=? b2) && (b2 <? 0xc0) &&
  (0x80 <=? b3) && (b3 <? 0xc0) &&
  (((b1 - 0xe0) * 64 + (b2 - 0x80)) * 64 + (b3 - 0x80) =? cp).

(** The two special values of a Grapheme: an empty one is the
    default-constructed one, an invalid one is the result of
    [Invalidate]. *)
Definition grapheme_shape (g : Grapheme) : Prop :=
  (is_empty g = true -> g = Grapheme_default) /\
  (is_valid g = false -> g = Invalidate g).

(** A grapheme whose code points are [uint16_t] values. *)
Definition grapheme_wide (g : Grapheme) : Prop :=
  is_uint16 (code_point g) /\ Forall is_uint16 (marks g).

(** A grapheme as the tables hold it: of 16-bit code points, and a value
    of the Grapheme class. *)
Definition grapheme_ok (g : Grapheme) : Prop :=
  grapheme_wide g /\ constructed g.

(** An entry of a byte-to-grapheme mapping read from a file: a byte of
    the upper half with a valid (or empty, for an undefined byte)
    grapheme. *)
Definition reverse_entry_ok (entry : Z * Grapheme) : Prop :=
  0x80 <= entry.1 <= 0xff /\ is_valid entry.2 = true /\
  constructed entry.2 /\ grapheme_wide entry.2.

(** A code page number as the configuration files can give it. *)
Definition code_page_number (cp : Z) : Prop := 1 <= cp <= 65535.

(** What holds for the configuration tables that [import_config_main]
    builds. *)
Record config_ok (mappings : gmap Z ConfigMappingEntry)
       (duplicates : gmap Z Z) (aliases : list (Z * Z)) : Prop := {
  config_ok_mappings :
    forall cp entry, mappings !! cp = Some entry ->
      code_page_number cp /\ valid entry = true /\
      (extends_code_page entry = 0 \/
       code_page_number (extends_code_page entry)) /\
      Forall reverse_entry_ok (mapping entry);
  config_ok_duplicates :
    forall cp cp', duplicates !! cp = Some cp' ->
      code_page_number cp /\ code_page_number cp';
  config_ok_aliases :
    Forall (fun alias => is_uint16 alias.1 /\ is_uint16 alias.2) aliases
}.

(** The same while the file is being read: the code page being defined,
    if any, has its entry. *)
Definition main_locals_ok (l : main_locals) : Prop :=
  config_ok (new_config_mappings l) (new_config_duplicates l)
            (new_config_aliases l) /\
  (curent_code_page l = 0 \/
   is_Some (new_config_mappings l !! curent_code_page l)).

(** What holds for the two tables that [construct_mapping] stores for a
    code page: the byte-to-grapheme table has its keys in increasing
    order and graphemes of 16-bit code points, and every entry of the
    grapheme-to-byte table is the mirror image of one of its entries. *)
Definition tables_ok (normalized : code_page_mapping_t)
           (reverse : code_page_mapping_reverse_t) : Prop :=
  StronglySorted (fun e1 e2 : Z * Grapheme => e1.1 < e2.1) reverse /\
  Forall (fun e : Z * Grapheme => grapheme_ok e.2) reverse /\
  Forall (fun e : Grapheme * Z =>
            (e.2, e.1) ∈ reverse /\ 0x80 <= e.2 <= 0xff /\
            is_valid e.1 = true /\ is_empty e.1 = false) normalized.

(** What holds for the registry between two calls of the external
    interface. *)
Definition registry_ok (st : Registry) : Prop :=
  config_ok (config_mappings st) (config_duplicates st)
            (config_aliases st) /\
  (forall cp normalized,
      mappings_normalized_by_codepage st !! cp = Some normalized ->
      exists reverse,
        mappings_reverse_by_codepage st !! cp = Some reverse /\
        tables_ok normalized reverse) /\
  (forall cp reverse,
      mappings_reverse_by_codepage st !! cp = Some reverse ->
      Forall (fun e : Z * Grapheme => grapheme_ok e.2) reverse).

(** The registries differ in nothing but the sets of the warnings
    already given. *)
Definition only_warnings_differ (st st' : Registry) : Prop :=
  set_warned_code_points (warned_code_points st)
    (set_warned_code_pages (warned_code_pages st) st') = st.

(** The lines of a file up to and with the first one that starts with
    the end-of-file marking. *)
Fixpoint cut_at_marking (lines : list string) : list string :=
  match lines with
  | [] => []
  | line_str :: rest =>
      if starts_with_eof_marking line_str then [line_str]
      else line_str :: cut_at_marking rest
  end.

(** The resources with every file cut at its end-of-file marking. *)
Definition cut_resources (fs : resources) : resources :=
  fun dir_name file_name =>
    match fs dir_name file_name with
    | None => None
    | Some file =>
        Some {| file_lines := cut_at_marking (file_lines file);
                file_read_error := file_read_error file |}
    end.




(** A main configuration file whose code page 850 takes its mapping from
    a file of its own, which ends with the end-of-file marking. *)
Definition extended_main_files : resources :=
  fun dir_name file_name =>
    if String.eqb dir_name "cp" && String.eqb file_name "CP850.TXT" then
      Some (text_file ["0x80 0x00c7 # C with cedilla"%string;
                       "0x41 0x0041"%string; "0x9f"%string;
                       String (ascii_of_nat 26) EmptyString;
                       "no more definitions"%string])
    else
      mapping_files
        (Some (text_file ["CODEPAGE 850"%string;
                          "EXTENDS FILE cp CP850.TXT"%string]))
        None None dir_name file_name.

(** ** The entry points without a code page *)

(** What these read of the rest of the emulator: [IS_EGAVGA_ARCH] and
    [dos.loaded_codepage]. *)
Record Machine := mkMachine {
  IS_EGAVGA_ARCH : bool;
  loaded_codepage : Z
}.

(** [get_utf8_code_page]: the code page and the registry afterwards. *)
Definition get_utf8_code_page (machine : Machine) (fuel : nat)
           (fs : resources) (st : Registry) : option (Z * Registry) :=
  if negb (IS_EGAVGA_ARCH machine) then get_default_code_page fuel fs st
  else
    let st := load_config_if_needed fs st in
    let code_page :=
      deduplicate_code_page (uint16 (loaded_codepage machine)) st in
    match prepare_code_page fuel fuel fs code_page st with
    | None => None
    | Some (true, st) => Some (code_page, st)
    | Some (false, st) => get_default_code_page fuel fs st
    end.

(** [utf8_to_dos(str_in, str_out)] *)
Definition utf8_to_dos_loaded (machine : Machine) (fuel : nat)
           (fs : resources) (str_in : list Z) (st : Registry)
  : option (bool * list Z * Registry) :=
  let st := load_config_if_needed fs st in
  match get_utf8_code_page machine fuel fs st with
  | None => None
  | Some (cp, st) =>
      let '(status1, str_wide) := utf8_to_wide str_in in
      match wide_to_dos fuel str_wide cp st with
      | None => None
      | Some (status2, str_out, st) => Some (status1 && status2, str_out, st)
      end
  end.

(** [dos_to_utf8(str_in, str_out)] *)
Definition dos_to_utf8_loaded (machine : Machine) (fuel : nat)
           (fs : resources) (str_in : list Z) (st : Registry)
  : option (list Z * Registry) :=
  let st := load_config_if_needed fs st in
  match get_utf8_code_page machine fuel fs st with
  | None => None
  | Some (cp, st) =>
      let str_wide := dos_to_wide str_in cp st in
      Some (wide_to_utf8 str_wide, st)
  end.

(** ** Notions for the lines of a mapping file *)

(** The line has no [#]. *)
Fixpoint hash_free (line : string) : bool :=
  match line with
  | EmptyString => true
  | String c rest => negb (Ascii.eqb c "#") && hash_free rest
  end.

(** The line ends in the middle of a token: its last character is there
    and is no white space. *)
Fixpoint ends_with_token (line : string) : bool :=
  match line with
  | EmptyString => false
  | String c rest =>
      match rest with
      | EmptyString => negb (is_space c)
      | String _ _ => ends_with_token rest
      end
  end.

(** The three [assert]s at the start of [construct_aliases]. *)
Definition construct_aliases_asserts (code_page : Z) (st : Registry) : Prop :=
  aliases_normalized_by_codepage st !! code_page = None /\
  aliases_decomposed_by_codepage st !! code_page = None /\
  is_Some (mappings_normalized_by_codepage st !! code_page).

(** Only a prepared code page has alias tables. *)
Definition aliases_follow_mappings (st : Registry) : Prop :=
  forall code_page,
    mappings_normalized_by_codepage st !! code_page = None ->
    aliases_normalized_by_codepage st !! code_page = None /\
    aliases_decomposed_by_codepage st !! code_page = None.

(** Between [st] and [st'] the code page has stayed unprepared and its
    alias tables are the same. *)
Definition left_alone (code_page : Z) (st st' : Registry) : Prop :=
  mappings_normalized_by_codepage st' !! code_page = None /\
  aliases_normalized_by_codepage st' !! code_page
  = aliases_normalized_by_codepage st !! code_page /\
  aliases_decomposed_by_codepage st' !! code_page
  = aliases_decomposed_by_codepage st !! code_page.

(** The registry of the example files when [prepare_code_page(437)]
    reaches its call of [construct_aliases]. *)
Definition mapped_registry : Registry :=
  match construct_mapping (prepare_code_page 2 2 good_main_files) 2
          good_main_files 437
          (load_config_if_needed good_main_files Registry_initial) with
  | Some (_, st) => st
  | None => Registry_initial
  end.


(** * Properties of the Grapheme type *)

Lemma std_find_spec x l : std_find x l = true <-> x ∈ l.
Proof.
  unfold std_find. rewrite existsb_exists. split.
  - intros (y & Hin & Heq). apply Z.eqb_eq in Heq. subst y.
    by apply list_elem_of_In.
  - intros Hin. exists x. split; [by apply list_elem_of_In | apply Z.eqb_refl].
Qed.

Lemma std_sort_Sorted l : Sorted Z.le (std_sort l).
Proof. apply (Sorted_merge_sort Z.le). Qed.

Lemma std_sort_Permutation l : std_sort l ≡ₚ l.
Proof. apply (merge_sort_Permutation Z.le). Qed.

Lemma grapheme_inv_no_marks cp e v :
  grapheme_inv {| code_point := cp; marks := []; marks_sorted := [];
                  is_empty := e; is_valid := v |}.
Proof. split; simpl; try constructor; try done. Qed.

Lemma Grapheme_new_inv cp : grapheme_inv (Grapheme_new cp).
Proof.
  unfold Grapheme_new, Invalidate.
  destruct (is_combining_mark cp); apply grapheme_inv_no_marks.
Qed.

Lemma AddMark_inv m g : grapheme_inv g -> grapheme_inv (AddMark m g).
Proof.
  intros Hg. unfold AddMark.
  destruct (is_valid g) eqn:Hv; simpl; [|done].
  destruct (is_combining_mark m) eqn:Hm; simpl;
    [|apply grapheme_inv_no_marks].
  destruct (is_empty g) eqn:He; [apply grapheme_inv_no_marks|].
  destruct (std_find m (marks g)) eqn:Hf; [done|].
  destruct Hg as [Hc Hn Hs Hp Hfl]. split; simpl.
  - apply Forall_app. split; [done|]. by constructor.
  - apply NoDup_app. split_and!; [done| |apply NoDup_singleton].
    intros x Hx Hx'. apply list_elem_of_singleton in Hx'. subst x.
    apply std_find_spec in Hx. congruence.
  - apply std_sort_Sorted.
  - rewrite std_sort_Permutation. by rewrite Hp.
  - done.
Qed.

Lemma AddMarks_inv l g : grapheme_inv g -> grapheme_inv (AddMarks l g).
Proof.
  unfold AddMarks. revert g.
  induction l as [|m l IH]; intros g Hg; simpl; [done|].
  apply IH. by apply AddMark_inv.
Qed.

Lemma Decompose_step_inv rule g :
  grapheme_inv g -> grapheme_inv (Decompose_step rule g).
Proof.
  intros [Hc Hn Hs Hp Hfl]. unfold Decompose_step.
  apply AddMarks_inv. by split.
Qed.

Lemma Decompose_loop_inv fuel rules g g' :
  grapheme_inv g -> Decompose_loop fuel rules g = Some g' -> grapheme_inv g'.
Proof.
  revert g. induction fuel as [|fuel IH]; intros g Hg; simpl.
  - destruct (rules !! code_point g); [done|]. by intros [= <-].
  - destruct (rules !! code_point g) as [rule|]; [|by intros [= <-]].
    apply IH. by apply Decompose_step_inv.
Qed.

Lemma Decompose_inv fuel rules g g' :
  grapheme_inv g -> Decompose fuel rules g = Some g' -> grapheme_inv g'.
Proof.
  intros Hg. unfold Decompose.
  destruct (negb (is_valid g) || is_empty g); [by intros [= <-]|].
  by apply Decompose_loop_inv.
Qed.

Create HintDb grapheme.
#[local] Hint Resolve grapheme_inv_no_marks Grapheme_new_inv AddMark_inv
  AddMarks_inv Decompose_inv : grapheme.

(** Every value that the class interface builds has the invariant. *)
Lemma constructed_inv g : constructed g -> grapheme_inv g.
Proof.
  induction 1; unfold Grapheme_default, Invalidate, StripMarks;
    eauto with grapheme.
Qed.

Lemma constructed_AddMarks l g : constructed g -> constructed (AddMarks l g).
Proof.
  unfold AddMarks. revert g.
  induction l as [|m l IH]; intros g Hg; simpl; [done|].
  apply IH. by constructor.
Qed.

(** A grapheme with marks is neither empty nor invalid. *)
Lemma marks_sorted_flags g :
  grapheme_inv g -> marks_sorted g <> [] ->
  is_empty g = false /\ is_valid g = true.
Proof.
  intros [_ _ _ Hp Hfl] Hne. apply Hfl. intros Hnil.
  rewrite Hnil in Hp. by apply Permutation_nil_r in Hp.
Qed.

Lemma operator_lt_asserts_inv g1 g2 :
  operator_lt g1 g2 = ReachedAsserts ->
  marks_sorted g1 <> [] /\ marks_sorted g2 <> [].
Proof.
  unfold operator_lt.
  destruct (code_point g1 <? code_point g2); [done|].
  destruct (code_point g1 >? code_point g2); [done|].
  destruct (marks_sorted g1) as [|x l1], (marks_sorted g2) as [|y l2];
    simpl; try done.
Qed.

(** Two graphemes without marks leave [operator<] before its asserts:
    this is how the default-constructed grapheme and [Grapheme(0x20)],
    which differ in [is_empty] only, are compared. *)
Lemma operator_lt_default_space :
  operator_lt Grapheme_default (Grapheme_new 0x20) = Return false /\
  operator_lt (Grapheme_new 0x20) Grapheme_default = Return false.
Proof. vm_compute. done. Qed.

(** C9: the two asserts at the end of [Grapheme::operator<] hold.  For
    all grapheme values [g1], [g2] that the class interface can build,
    if the comparison [g1 < g2] reaches the asserts, then [g1] and [g2]
    agree on [is_empty] and on [is_valid]. *)
Theorem operator_lt_asserts_hold g1 g2 :
  constructed g1 -> constructed g2 ->
  operator_lt g1 g2 = ReachedAsserts ->
  is_empty g1 = is_empty g2 /\ is_valid g1 = is_valid g2.
Proof.
  intros H1%constructed_inv H2%constructed_inv Hlt.
  apply operator_lt_asserts_inv in Hlt as [Hn1 Hn2].
  destruct (marks_sorted_flags g1 H1 Hn1) as [-> ->].
  destruct (marks_sorted_flags g2 H2 Hn2) as [-> ->].
  done.
Qed.

Lemma operator_lt_asserts_hold_witness :
  let g1 := AddMark 0x0323 (AddMark 0x0301 (Grapheme_new 0x65)) in
  let g2 := AddMark 0x0301 (AddMark 0x0323 (Grapheme_new 0x65)) in
  is_empty g1 = is_empty g2 /\ is_valid g1 = is_valid g2.
Proof.
  apply (operator_lt_asserts_hold
           (AddMark 0x0323 (AddMark 0x0301 (Grapheme_new 0x65)))
           (AddMark 0x0301 (AddMark 0x0323 (Grapheme_new 0x65)))).
  - apply constructed_AddMark, constructed_AddMark, constructed_new.
  - apply constructed_AddMark, constructed_AddMark, constructed_new.
  - vm_compute. reflexivity.
Defined.

(** Adding combining marks to a valid, non-empty grapheme keeps it valid
    and non-empty, keeps its base, and adds just those marks. *)
Lemma AddMark_combining m g :
  is_valid g = true -> is_empty g = false -> is_combining_mark m = true ->
  let g' := AddMark m g in
  is_valid g' = true /\ is_empty g' = false /\
  code_point g' = code_point g /\
  (forall x, x ∈ marks g' <-> x ∈ marks g \/ x = m).
Proof.
  intros Hv He Hm. unfold AddMark. rewrite Hv, Hm, He. simpl.
  destruct (std_find m (marks g)) eqn:Hf; simpl.
  - split_and!; try done. intros x. split; [by left|].
    intros [?| ->]; [done|]. by apply std_find_spec.
  - split_and!; try done. intros x.
    rewrite elem_of_app, list_elem_of_singleton. done.
Qed.

Lemma AddMarks_combining l g :
  is_valid g = true -> is_empty g = false ->
  Forall (fun m => is_combining_mark m = true) l ->
  let g' := AddMarks l g in
  is_valid g' = true /\ is_empty g' = false /\
  code_point g' = code_point g /\
  (forall x, x ∈ marks g' <-> x ∈ marks g \/ x ∈ l).
Proof.
  unfold AddMarks. revert g.
  induction l as [|m l IH]; intros g Hv He Hl; simpl.
  - split_and!; try done. intros x. rewrite elem_of_nil. tauto.
  - apply Forall_cons in Hl as [Hm Hl].
    destruct (AddMark_combining m g Hv He Hm) as (Hv' & He' & Hc' & Hin').
    destruct (IH (AddMark m g) Hv' He' Hl) as (Hv'' & He'' & Hc'' & Hin'').
    split_and!; try done; [congruence|].
    intros x. rewrite Hin'', Hin', elem_of_cons. tauto.
Qed.

(** Once invalid, a grapheme ignores [AddMark]. *)
Lemma AddMarks_invalid l g : is_valid g = false -> AddMarks l g = g.
Proof.
  intros Hv. unfold AddMarks. induction l as [|m l IH]; simpl; [done|].
  unfold AddMark at 2. rewrite Hv. simpl. apply IH.
Qed.

(** A mark that is not a combining mark invalidates the grapheme. *)
Lemma AddMarks_not_combining l g :
  is_valid g = true -> is_empty g = false ->
  Exists (fun m => is_combining_mark m = false) l ->
  AddMarks l g = Invalidate g.
Proof.
  unfold AddMarks. revert g.
  induction l as [|m l IH]; intros g Hv He Hl; simpl.
  - by apply Exists_nil in Hl.
  - destruct (is_combining_mark m) eqn:Hm.
    + apply Exists_cons in Hl as [Hl|Hl]; [congruence|].
      destruct (AddMark_combining m g Hv He Hm) as (Hv' & He' & _).
      by rewrite (IH _ Hv' He' Hl).
    + unfold AddMark at 2. rewrite Hv, Hm. simpl.
      apply (AddMarks_invalid l (Invalidate g)). done.
Qed.

Lemma operator_eq_spec g1 g2 :
  operator_eq g1 g2 = true <->
  is_empty g1 = is_empty g2 /\ is_valid g1 = is_valid g2 /\
  code_point g1 = code_point g2 /\ marks_sorted g1 = marks_sorted g2.
Proof.
  unfold operator_eq.
  rewrite !andb_true_iff, !eqb_true_iff, Z.eqb_eq, bool_decide_eq_true.
  tauto.
Qed.

Lemma operator_eq_refl g : operator_eq g g = true.
Proof. by apply operator_eq_spec. Qed.

(** Two graphemes with the same marks have the same [marks_sorted]. *)
Lemma marks_sorted_unique g1 g2 :
  grapheme_inv g1 -> grapheme_inv g2 ->
  (forall x, x ∈ marks g1 <-> x ∈ marks g2) ->
  marks_sorted g1 = marks_sorted g2.
Proof.
  intros [_ Hn1 Hs1 Hp1 _] [_ Hn2 Hs2 Hp2 _] Hin.
  apply (Sorted_unique Z.le); try done.
  rewrite Hp1, Hp2. by apply NoDup_Permutation.
Qed.

Lemma AddMarks_Permutation base l1 l2 :
  l1 ≡ₚ l2 ->
  operator_eq (AddMarks l1 (Grapheme_new base))
              (AddMarks l2 (Grapheme_new base)) = true.
Proof.
  intros Hperm.
  destruct (is_valid (Grapheme_new base)) eqn:Hv.
  2: { rewrite !AddMarks_invalid by done. apply operator_eq_refl. }
  assert (is_empty (Grapheme_new base) = false) as He.
  { unfold Grapheme_new. by destruct (is_combining_mark base). }
  destruct (decide (Forall (fun m => is_combining_mark m = true) l1))
    as [Hall|Hex].
  - assert (Forall (fun m => is_combining_mark m = true) l2) as Hall2
      by by rewrite <- Hperm.
    destruct (AddMarks_combining l1 _ Hv He Hall) as (Hv1 & He1 & Hc1 & Hin1).
    destruct (AddMarks_combining l2 _ Hv He Hall2) as (Hv2 & He2 & Hc2 & Hin2).
    apply operator_eq_spec. split_and!; try congruence.
    apply marks_sorted_unique.
    + apply AddMarks_inv, Grapheme_new_inv.
    + apply AddMarks_inv, Grapheme_new_inv.
    + intros x. rewrite Hin1, Hin2. by rewrite Hperm.
  - apply not_Forall_Exists in Hex; [|intros x; apply _].
    assert (Exists (fun m => is_combining_mark m = false) l1) as Hex1.
    { eapply Exists_impl; [exact Hex|]. simpl. intros x Hx.
      by apply not_true_is_false. }
    assert (Exists (fun m => is_combining_mark m = false) l2) as Hex2
      by by rewrite <- Hperm.
    rewrite (AddMarks_not_combining l1), (AddMarks_not_combining l2) by done.
    apply operator_eq_refl.
Qed.

(** C5: for every base code point, [Grapheme(base)] with the marks [m1]
    then [m2] added compares equal ([operator==]) to [Grapheme(base)]
    with [m2] then [m1] added; more generally, two lists of marks that
    are permutations of each other give equal graphemes. *)
Theorem AddMark_order_insensitive base :
  (forall m1 m2,
      operator_eq (AddMark m2 (AddMark m1 (Grapheme_new base)))
                  (AddMark m1 (AddMark m2 (Grapheme_new base))) = true) /\
  (forall l1 l2,
      l1 ≡ₚ l2 ->
      operator_eq (AddMarks l1 (Grapheme_new base))
                  (AddMarks l2 (Grapheme_new base)) = true).
Proof.
  split.
  - intros m1 m2.
    apply (AddMarks_Permutation base [m1; m2] [m2; m1]). apply perm_swap.
  - apply AddMarks_Permutation.
Qed.

Lemma AddMark_order_insensitive_witness :
  operator_eq (AddMarks [0x0301; 0x0323; 0x0301] (Grapheme_new 0x61))
              (AddMarks [0x0323; 0x0301; 0x0301] (Grapheme_new 0x61)) = true.
Proof.
  apply (proj2 (AddMark_order_insensitive 0x61)).
  apply perm_swap.
Defined.

(** ** Termination of [Decompose] *)

Lemma constructed_combining g :
  constructed g -> Forall (fun m => is_combining_mark m = true) (marks g).
Proof. intros Hg. apply constructed_inv in Hg. apply Hg. Qed.

Lemma Decompose_step_valid rule g :
  is_valid g = true -> is_empty g = false ->
  Forall (fun m => is_combining_mark m = true) (marks rule) ->
  let g' := Decompose_step rule g in
  is_valid g' = true /\ is_empty g' = false /\
  code_point g' = code_point rule.
Proof.
  intros Hv He Hm. unfold Decompose_step.
  match goal with |- context [AddMarks _ ?g0] =>
    destruct (AddMarks_combining (marks rule) g0 Hv He Hm)
      as (Hv' & He' & Hc' & _) end.
  done.
Qed.

(** [seen] holds code points that the loop has left behind: each of them
    leads to the current base, so the current base is a new one. *)
Lemma Decompose_loop_terminates rules :
  rules_constructed rules -> acyclic rules ->
  forall fuel (seen : gset Z) g,
    is_valid g = true -> is_empty g = false ->
    seen ⊆ dom rules ->
    (forall s, s ∈ seen -> tc (rule_step rules) s (code_point g)) ->
    (size (dom rules) <= fuel + size seen)%nat ->
    is_Some (Decompose_loop fuel rules g).
Proof.
  intros Hrules Hacyclic fuel.
  induction fuel as [|fuel IH]; intros seen g Hv He Hsub Hseen Hsize; simpl.
  - destruct (rules !! code_point g) as [rule|] eqn:Hrule; [|by eexists].
    exfalso.
    assert (code_point g ∈ seen) as Hin.
    { assert (seen ≡ dom rules) as ->.
      { apply set_subseteq_size_equiv; [done|]. simpl in Hsize. lia. }
      apply elem_of_dom. by eexists. }
    by apply (Hacyclic (code_point g)), Hseen.
  - destruct (rules !! code_point g) as [rule|] eqn:Hrule; [|by eexists].
    assert (code_point g ∉ seen) as Hnotin.
    { intros Hin. by apply (Hacyclic (code_point g)), Hseen. }
    destruct (Decompose_step_valid rule g Hv He) as (Hv' & He' & Hc').
    { eapply constructed_combining, Hrules, Hrule. }
    assert (rule_step rules (code_point g) (code_point rule)) as Hstep
      by (by exists rule).
    apply (IH ({[code_point g]} ∪ seen)); try done.
    + apply union_subseteq. split; [|done].
      apply singleton_subseteq_l, elem_of_dom. by eexists.
    + intros s Hs. rewrite Hc'. apply elem_of_union in Hs as [Hs|Hs].
      * apply elem_of_singleton in Hs. subst s. by apply tc_once.
      * eapply tc_r; [by apply Hseen|done].
    + rewrite size_union.
      * rewrite size_singleton. lia.
      * intros x Hx%elem_of_singleton Hx'. by subst x.
Qed.

Lemma Decompose_loop_mono rules fuel fuel' g g' :
  Decompose_loop fuel rules g = Some g' -> (fuel <= fuel')%nat ->
  Decompose_loop fuel' rules g = Some g'.
Proof.
  revert fuel' g. induction fuel as [|fuel IH]; intros fuel' g; simpl.
  - destruct (rules !! code_point g) eqn:Hrule; [done|].
    intros [= <-] _. destruct fuel'; simpl; by rewrite Hrule.
  - destruct (rules !! code_point g) eqn:Hrule.
    + intros HD Hle. destruct fuel' as [|fuel']; [lia|]. simpl.
      rewrite Hrule. apply IH; [done|lia].
    + intros [= <-] _. destruct fuel'; simpl; by rewrite Hrule.
Qed.

(** The loop is left only at a base that has no rule. *)
Lemma Decompose_loop_final rules fuel g g' :
  Decompose_loop fuel rules g = Some g' -> rules !! code_point g' = None.
Proof.
  revert g. induction fuel as [|fuel IH]; intros g; simpl.
  - destruct (rules !! code_point g) eqn:Hrule; [done|]. by intros [= <-].
  - destruct (rules !! code_point g) eqn:Hrule; [apply IH|]. by intros [= <-].
Qed.

Lemma Decompose_total rules fuel g :
  rules_constructed rules -> acyclic rules -> (size rules <= fuel)%nat ->
  is_Some (Decompose fuel rules g).
Proof.
  intros Hrules Hacyclic Hfuel. unfold Decompose.
  destruct (is_valid g) eqn:Hv; simpl; [|by eexists].
  destruct (is_empty g) eqn:He; simpl; [by eexists|].
  apply (Decompose_loop_terminates rules Hrules Hacyclic fuel ∅);
    try done.
  rewrite size_dom, size_empty. lia.
Qed.

Lemma Decompose_mono rules fuel fuel' g g' :
  Decompose fuel rules g = Some g' -> (fuel <= fuel')%nat ->
  Decompose fuel' rules g = Some g'.
Proof.
  unfold Decompose. destruct (negb (is_valid g) || is_empty g); [done|].
  apply Decompose_loop_mono.
Qed.

Lemma Decompose_idempotent rules fuel g g' :
  Decompose fuel rules g = Some g' ->
  forall fuel', Decompose fuel' rules g' = Some g'.
Proof.
  unfold Decompose.
  destruct (negb (is_valid g) || is_empty g) eqn:Hg.
  - intros [= <-] fuel'. by rewrite Hg.
  - intros HD%Decompose_loop_final fuel'.
    destruct (negb (is_valid g') || is_empty g'); [done|].
    destruct fuel'; simpl; by rewrite HD.
Qed.

(** C7: for every grapheme and every table of decomposition rules (each
    rule a value of the Grapheme class) that is acyclic,
    [Grapheme::Decompose] terminates: as soon as the fuel is the size of
    the table it returns a grapheme [g'], and decomposing [g'] again
    returns [g'] itself. *)
Theorem Decompose_terminates_idempotent rules g :
  rules_constructed rules -> acyclic rules ->
  exists g',
    (forall fuel, (size rules <= fuel)%nat ->
                  Decompose fuel rules g = Some g') /\
    (forall fuel, Decompose fuel rules g' = Some g').
Proof.
  intros Hrules Hacyclic.
  destruct (Decompose_total rules (size rules) g Hrules Hacyclic)
    as [g' Hg']; [done|].
  exists g'. split.
  - intros fuel Hfuel. by eapply Decompose_mono.
  - by eapply Decompose_idempotent.
Qed.

(** A table whose rule bases have no rule of their own is acyclic. *)
Lemma flat_rules_acyclic rules :
  (forall cp rule, rules !! cp = Some rule ->
                   rules !! code_point rule = None) ->
  acyclic rules.
Proof.
  intros Hflat cp Htc.
  assert (forall a b, tc (rule_step rules) a b -> rules !! b = None) as Hend.
  { intros a b Hab. induction Hab as [a b (rule & Hr & <-)|a b c _ _ IH];
      [by eapply Hflat|done]. }
  apply Hend in Htc as Hnone.
  inversion Htc as [? ? (rule & Hr & _)|? ? ? (rule & Hr & _) _]; congruence.
Qed.

Lemma example_rules_constructed : rules_constructed example_rules.
Proof.
  unfold example_rules. intros cp rule [_ <-]%lookup_singleton_Some.
  apply constructed_AddMark, constructed_new.
Qed.

Lemma example_rules_acyclic : acyclic example_rules.
Proof.
  apply flat_rules_acyclic. unfold example_rules.
  intros cp rule [_ <-]%lookup_singleton_Some. by vm_compute.
Qed.

Lemma good_main_files_rules :
  decomposition_rules (load_config_if_needed good_main_files Registry_initial)
  = example_rules.
Proof. vm_compute. reflexivity. Qed.

Lemma Decompose_terminates_idempotent_witness :
  exists g',
    (forall fuel, (size example_rules <= fuel)%nat ->
                  Decompose fuel example_rules (Grapheme_new 0x00e9)
                  = Some g') /\
    (forall fuel, Decompose fuel example_rules g' = Some g').
Proof.
  apply (Decompose_terminates_idempotent example_rules (Grapheme_new 0x00e9)).
  - exact example_rules_constructed.
  - exact example_rules_acyclic.
Defined.


(** * The UTF-8 codec *)

(** Decide the comparisons of the byte [b] with the decoding
    thresholds. *)
Ltac case_thresholds b :=
  repeat match goal with
         | |- context [b >=? ?t] => destruct (Z.geb_spec b t); try lia
         end.

(** Drop the wrap-around of the integer types where the value fits. *)
Ltac unwrap :=
  repeat match goal with
         | |- context [?x mod ?m] => rewrite (Z.mod_small x m) by lia
         end.

Lemma advance_loop_ge counter str_in i :
  (i <= advance_loop counter str_in i)%nat.
Proof.
  revert i. induction counter as [|counter IH]; intros i; simpl; [lia|].
  destruct (_ || _); [lia|]. specialize (IH (S i)). lia.
Qed.

(** The loop body never moves [i] backwards. *)
Lemma utf8_decode_at_ge str_in i status :
  (i <= (utf8_decode_at str_in i status).1.1)%nat.
Proof.
  unfold utf8_decode_at, advance.
  repeat match goal with
         | |- context [if ?b then _ else _] => destruct b
         end; simpl; try lia; apply advance_loop_ge.
Qed.

(** [length str_in] turns are enough: more turns change nothing. *)
Lemma utf8_to_wide_loop_turns str_in turns turns' i status str_out :
  (length str_in - i <= turns)%nat -> (length str_in - i <= turns')%nat ->
  utf8_to_wide_loop turns str_in i status str_out =
  utf8_to_wide_loop turns' str_in i status str_out.
Proof.
  revert turns' i status str_out.
  induction turns as [|turns IH]; intros turns' i status str_out H1 H2.
  - destruct turns' as [|turns']; simpl; [done|].
    destruct (i <? length str_in)%nat eqn:Hi; [|done].
    apply Nat.ltb_lt in Hi. lia.
  - destruct turns' as [|turns']; simpl;
      destruct (i <? length str_in)%nat eqn:Hi; try done.
    + apply Nat.ltb_lt in Hi. lia.
    + apply Nat.ltb_lt in Hi.
      pose proof (utf8_decode_at_ge str_in i status) as Hge.
      destruct (utf8_decode_at str_in i status) as [[i' status'] cp].
      simpl in Hge. apply IH; lia.
Qed.

Lemma utf8_decode_at_ascii str_in i status :
  0 <= nth i str_in 0 < 0x80 ->
  utf8_decode_at str_in i status = (i, status, nth i str_in 0).
Proof.
  intros Hb. unfold utf8_decode_at.
  assert (byte_at str_in i = nth i str_in 0) as ->.
  { unfold byte_at, uint8. apply Z.mod_small. lia. }
  unfold decode_threshold_6_bytes, decode_threshold_5_bytes,
    decode_threshold_4_bytes, decode_threshold_3_bytes,
    decode_threshold_2_bytes, decode_threshold_non_ascii.
  case_thresholds (nth i str_in 0).
  destruct (Z.ltb_spec (nth i str_in 0) 128); [|lia].
  unfold uint16. rewrite Z.mod_small by lia. done.
Qed.

Lemma printable_ascii_nth (s : list Z) i :
  Forall printable_ascii s -> (i < length s)%nat ->
  0x20 <= nth i s 0 <= 0x7e.
Proof.
  intros Hs Hi. rewrite Forall_forall in Hs. apply Hs.
  apply list_elem_of_In, nth_In. done.
Qed.

Lemma drop_nth_cons (s : list Z) i :
  (i < length s)%nat -> drop i s = nth i s 0 :: drop (S i) s.
Proof.
  revert i. induction s as [|x s IH]; intros i Hi; simpl in *; [lia|].
  destruct i as [|i]; simpl; [by rewrite drop_0|]. apply IH. lia.
Qed.

Lemma utf8_to_wide_loop_ascii s turns i status str_out :
  Forall printable_ascii s -> (length s - i <= turns)%nat ->
  utf8_to_wide_loop turns s i status str_out = (status, str_out ++ drop i s).
Proof.
  intros Hs. revert i str_out.
  induction turns as [|turns IH]; intros i str_out Hturns; simpl.
  - rewrite drop_ge by lia. by rewrite app_nil_r.
  - destruct (i <? length s)%nat eqn:Hi.
    + apply Nat.ltb_lt in Hi.
      pose proof (printable_ascii_nth s i Hs Hi) as Hb.
      rewrite utf8_decode_at_ascii by lia.
      rewrite IH by lia. rewrite (drop_nth_cons s i Hi).
      by rewrite <- app_assoc.
    + apply Nat.ltb_ge in Hi. rewrite drop_ge by lia. by rewrite app_nil_r.
Qed.

Lemma utf8_to_wide_ascii s :
  Forall printable_ascii s -> utf8_to_wide s = (true, s).
Proof.
  intros Hs. unfold utf8_to_wide.
  rewrite utf8_to_wide_loop_ascii by (done || lia). by rewrite drop_0.
Qed.

Lemma wide_to_utf8_ascii_from s str_out :
  Forall printable_ascii s ->
  fold_left wide_to_utf8_step s str_out = str_out ++ s.
Proof.
  revert str_out. induction s as [|c s IH]; intros str_out Hs; simpl.
  - by rewrite app_nil_r.
  - apply Forall_cons in Hs as [Hc Hs]. unfold printable_ascii in Hc.
    rewrite IH by done. unfold wide_to_utf8_step at 1.
    unfold encode_threshold_2_bytes.
    destruct (Z.ltb_spec c 128); [|lia].
    unfold push_utf8, uint8. rewrite Z.mod_small by lia.
    by rewrite <- app_assoc.
Qed.

Lemma wide_to_utf8_ascii s :
  Forall printable_ascii s -> wide_to_utf8 s = s.
Proof. intros Hs. unfold wide_to_utf8. by rewrite wide_to_utf8_ascii_from. Qed.

Lemma dos_to_wide_ascii_from s code_page st str_out :
  Forall printable_ascii s ->
  fold_left (dos_to_wide_step st code_page) s str_out = str_out ++ s.
Proof.
  revert str_out. induction s as [|c s IH]; intros str_out Hs; simpl.
  - by rewrite app_nil_r.
  - apply Forall_cons in Hs as [Hc Hs]. unfold printable_ascii in Hc.
    rewrite IH by done. unfold dos_to_wide_step at 1.
    unfold uint8, decode_threshold_non_ascii. rewrite Z.mod_small by lia.
    destruct (Z.geb_spec c 128); [lia|].
    destruct (Z.eqb_spec c 127); [lia|].
    destruct (Z.geb_spec c 32); [|lia].
    by rewrite <- app_assoc.
Qed.

Lemma dos_to_wide_ascii s code_page st :
  Forall printable_ascii s -> dos_to_wide s code_page st = s.
Proof. intros Hs. unfold dos_to_wide. by rewrite dos_to_wide_ascii_from. Qed.

Lemma byte_at_range str_in i : 0 <= byte_at str_in i < 256.
Proof. unfold byte_at, uint8. apply Z.mod_pos_bound. lia. Qed.

(** What the loop body of [utf8_to_wide] does at a malformed sequence:
    the status is cleared in every case, and the sentinel is pushed for a
    lone continuation byte, but not for a 2-byte or 3-byte lead byte
    whose continuation bytes are missing or wrong. *)
Lemma utf8_decode_at_malformed str_in i status :
  let byte_1 := byte_at str_in i in
  (0x80 <= byte_1 < 0xc0 ->
   utf8_decode_at str_in i status = (i, false, unknown_character)) /\
  (0xc0 <= byte_1 < 0xe0 -> is_continuation (byte_2_at str_in i) = false ->
   utf8_decode_at str_in i status = (i, false, (byte_1 - 0xc0) * 64)) /\
  (0xe0 <= byte_1 < 0xf0 -> is_continuation (byte_2_at str_in i) = false ->
   utf8_decode_at str_in i status = (i, false, (byte_1 - 0xe0) * 4096)) /\
  (0xe0 <= byte_1 < 0xf0 -> is_continuation (byte_2_at str_in i) = true ->
   is_continuation (byte_3_at str_in i) = false ->
   utf8_decode_at str_in i status =
   (S i, false, ((byte_1 - 0xe0) * 64 + (byte_2_at str_in i - 0x80)) * 64)).
Proof.
  intros byte_1. pose proof (byte_at_range str_in i) as Hb1.
  fold byte_1 in Hb1.
  unfold utf8_decode_at. fold byte_1.
  assert (is_continuation (byte_2_at str_in i) = true ->
          0x80 <= byte_2_at str_in i < 0xc0) as Hcont.
  { unfold is_continuation, decode_threshold_non_ascii,
      decode_threshold_2_bytes. lia. }
  generalize dependent (byte_2_at str_in i). intros byte_2 Hcont.
  generalize (byte_3_at str_in i). intros byte_3.
  clearbody byte_1.
  unfold decode_threshold_6_bytes, decode_threshold_5_bytes,
    decode_threshold_4_bytes, decode_threshold_3_bytes,
    decode_threshold_2_bytes, decode_threshold_non_ascii.
  unfold uint8, uint32, uint16. rewrite !Z.shiftl_mul_pow2 by lia.
  change (2 ^ 6) with 64.
  split_and!.
  - intros Hr.
    case_thresholds byte_1.
    destruct (Z.ltb_spec byte_1 128); [lia|]. done.
  - intros Hr ->.
    case_thresholds byte_1.
    unwrap.
    done.
  - intros Hr ->.
    case_thresholds byte_1.
    cbn [andb]. rewrite ?Z.shiftl_mul_pow2 by lia. change (2 ^ 6) with 64.
    unwrap.
    f_equal. lia.
  - intros Hr H2 H3. rewrite H2, H3. specialize (Hcont H2).
    case_thresholds byte_1.
    cbn [andb]. rewrite ?Z.shiftl_mul_pow2 by lia. change (2 ^ 6) with 64.
    unwrap.
    f_equal. lia.
Qed.

(** What is pushed for a 2-byte or 3-byte lead byte whose continuation
    bytes are missing or wrong is a multiple of 64, never the sentinel. *)
Lemma truncated_code_point_not_sentinel a :
  a * 64 <> unknown_character.
Proof. unfold unknown_character. lia. Qed.

(** C1: [utf8_to_wide] on a 2-byte or a 3-byte lead byte whose
    continuation byte is missing or is no continuation byte: the status
    is [false], but what is pushed for the position is built from the
    bits decoded so far (0x00C0, 0x2080, 0x2000), not the sentinel
    0x3F. *)
Theorem utf8_to_wide_truncated_sequences :
  utf8_to_wide [0xc3] = (false, [0x00c0]) /\
  utf8_to_wide [0xc3; 0x41] = (false, [0x00c0; 0x41]) /\
  utf8_to_wide [0xe2; 0x82] = (false, [0x2080]) /\
  utf8_to_wide [0xe2; 0x41] = (false, [0x2000; 0x41]).
Proof. vm_compute. done. Qed.

(** The sibling paths do emit the sentinel. *)
Lemma utf8_to_wide_sentinel_paths :
  utf8_to_wide [0x80] = (false, [unknown_character]) /\
  utf8_to_wide [0xf0; 0x9f; 0x98] = (false, [unknown_character]).
Proof. vm_compute. done. Qed.

(** A 2-byte lead byte at the end of the input: what is pushed is built
    from the lead byte's low bits; it is never the sentinel. *)
Lemma utf8_to_wide_lone_2_byte_lead lead :
  0xc0 <= lead < 0xe0 ->
  utf8_to_wide [lead] = (false, [(lead - 0xc0) * 64]) /\
  (lead - 0xc0) * 64 <> unknown_character.
Proof.
  intros Hlead. split; [|unfold unknown_character; lia].
  assert (exists k, lead = 0xc0 + Z.of_nat k /\ (k < 32)%nat) as (k & -> & Hk).
  { exists (Z.to_nat (lead - 0xc0)). lia. }
  do 32 (destruct k as [|k]; [vm_compute; done|]). lia.
Qed.

(** * The UTF-8 -> DOS pipeline *)

Lemma push_7bit_one g str_out :
  pushes_at_most_one str_out (push_7bit g str_out).
Proof.
  unfold push_7bit. destruct (HasMark g); [by right|].
  destruct (_ >=? _); [by right|]. left. simpl. eauto.
Qed.

Lemma push_code_page_one m g str_out :
  pushes_at_most_one str_out (push_code_page m g str_out).
Proof.
  unfold push_code_page. destruct m as [m|]; [|by right].
  destruct (smap_find _ _ _); [|by right]. left. simpl. eauto.
Qed.

Lemma push_fallback_one ascii g str_out :
  pushes_at_most_one str_out (push_fallback ascii g str_out).
Proof.
  unfold push_fallback. destruct (HasMark g); [by right|].
  destruct (smap_find _ _ _); [|by right]. left. simpl. eauto.
Qed.

Lemma or_else_one str_out a b :
  pushes_at_most_one str_out a ->
  (forall str_out, pushes_at_most_one str_out (b str_out)) ->
  pushes_at_most_one str_out (or_else a b).
Proof.
  intros [[Ha Hb]| ->] Hb'; unfold or_else.
  - rewrite Ha. by left.
  - simpl. apply Hb'.
Qed.

Lemma push_normalized_one ptrs ascii g str_out :
  pushes_at_most_one str_out (push_normalized ptrs ascii g str_out).
Proof.
  unfold push_normalized.
  repeat (apply or_else_one; [|intros ?]);
    auto using push_7bit_one, push_code_page_one, push_fallback_one.
Qed.

Lemma push_decomposed_one fuel rules ptrs g str_out r :
  push_decomposed fuel rules ptrs g str_out = Some r ->
  pushes_at_most_one str_out r.
Proof.
  unfold push_decomposed. destruct (Decompose fuel rules g); [|done].
  intros [= <-]. apply or_else_one; [|intros ?]; apply push_code_page_one.
Qed.

(** The marks loop stops in front of the next code point that is not a
    combining mark: the graphemes that start after it are those of the
    code points left. *)
Lemma assemble_marks_count rest g i :
  let r := assemble_marks rest g i in
  (i <= r.2)%nat /\
  grapheme_count (drop (r.2 - i) rest) =
    length (List.filter (fun c => negb (is_combining_mark c)) rest).
Proof.
  revert g i. induction rest as [|next rest IH]; intros g i; simpl.
  - split; [lia|]. by rewrite drop_nil.
  - destruct (is_combining_mark next) eqn:Hm; simpl.
    + destruct (IH (AddMark next g) (S i)) as [Hle Hdrop].
      split; [lia|].
      replace (_ - i)%nat with (S ((assemble_marks rest (AddMark next g)
                                      (S i)).2 - S i)) by lia.
      done.
    + split; [lia|]. by rewrite Nat.sub_diag.
Qed.

Lemma wide_to_dos_body_count fuel ptrs str_in i s i' s' :
  (i < length str_in)%nat ->
  wide_to_dos_body fuel ptrs str_in i s = Some (i', s') ->
  (i <= i')%nat /\
  length (dos_out s') = S (length (dos_out s)) /\
  grapheme_count (drop i str_in) = S (grapheme_count (drop (S i') str_in)).
Proof.
  intros Hi. unfold wide_to_dos_body.
  pose proof (assemble_marks_count (drop (S i) str_in)
                (Grapheme_new (nth i str_in 0)) i) as [Hle Hcount].
  destruct (assemble_marks _ _ _) as [grapheme j]. simpl in Hle, Hcount.
  rewrite drop_drop in Hcount.
  replace (S i + (j - i))%nat with (S j) in Hcount by lia.
  assert (grapheme_count (drop i str_in) =
          S (grapheme_count (drop (S j) str_in))) as Hgc.
  { rewrite Hcount. rewrite (drop_S str_in (nth i str_in 0) i); [done|].
    destruct (nth_lookup_or_length str_in i 0); [done|lia]. }
  assert (forall r (k : dos_state -> dos_state),
             pushes_at_most_one (dos_out s) r -> r.1 = true ->
             (forall t, length (dos_out (k t)) = length (dos_out t)) ->
             length (dos_out (k (set_dos_out r.2 s))) = S (length (dos_out s)))
    as Hpushed.
  { intros r k [[_ [byte Hb]]| ->] Hr Hk; [|done].
    rewrite Hk. simpl. rewrite Hb, length_app. simpl. lia. }
  pose proof (push_normalized_one ptrs (mapping_ascii (dos_registry s))
                grapheme (dos_out s)) as Hn.
  destruct (push_normalized _ _ _ _) as [pushed str_out1] eqn:Hpn.
  destruct pushed.
  { intros [= <- <-]. split_and!; [done| |done].
    apply (Hpushed (true, str_out1) id); done. }
  destruct Hn as [[? _]|[= ->]]; [done|].
  destruct (push_decomposed _ _ _ _ _) as [[pushed str_out2]|] eqn:Hpd;
    [|done].
  apply push_decomposed_one in Hpd as Hd.
  destruct pushed.
  { intros [= <- <-]. split_and!; [done| |done].
    apply (Hpushed (true, str_out2) id); done. }
  destruct Hd as [[? _]|[= ->]]; [done|].
  destruct (Decompose _ _ _) as [decomposed|]; [|done].
  assert (forall cp, length (dos_out (push_unknown cp s)) =
                     S (length (dos_out s))) as Hunknown.
  { intros cp. simpl. rewrite length_app. simpl. lia. }
  assert (set_dos_out (dos_out s) s = s) as Hsame by by destruct s.
  destruct (HasMark decomposed).
  - pose proof (push_normalized_one ptrs (mapping_ascii (dos_registry s))
                  (StripMarks decomposed) (dos_out s)) as Hn.
    destruct (push_normalized _ _ (StripMarks decomposed) _)
      as [pushed str_out3] eqn:Hpn2.
    destruct pushed.
    + intros [= <- <-]. split_and!; [done| |done].
      apply (Hpushed (true, str_out3) id); done.
    + destruct Hn as [[? _]|[= ->]]; [done|].
      intros [= <- <-]. rewrite Hsame. done.
  - intros [= <- <-]. rewrite Hsame. done.
Qed.

Lemma wide_to_dos_loop_count turns fuel ptrs str_in i s s' :
  wide_to_dos_loop turns fuel ptrs str_in i s = Some s' ->
  length (dos_out s') =
    (length (dos_out s) + grapheme_count (drop i str_in))%nat.
Proof.
  revert i s. induction turns as [|turns IH]; intros i s; simpl.
  - destruct (i <? length str_in)%nat eqn:Hi; [done|].
    apply Nat.ltb_ge in Hi. intros [= <-]. rewrite drop_ge by done.
    simpl. lia.
  - destruct (i <? length str_in)%nat eqn:Hi.
    + apply Nat.ltb_lt in Hi.
      destruct (wide_to_dos_body fuel ptrs str_in i s) as [[i' s1]|] eqn:Hb;
        [|done].
      apply wide_to_dos_body_count in Hb as (_ & Hlen & Hgc); [|done].
      intros Hloop%IH. lia.
    + apply Nat.ltb_ge in Hi. intros [= <-]. rewrite drop_ge by done.
      simpl. lia.
Qed.

Lemma wide_to_dos_count fuel str_in code_page st status str_out st' :
  wide_to_dos fuel str_in code_page st = Some (status, str_out, st') ->
  length str_out = grapheme_count str_in.
Proof.
  unfold wide_to_dos. destruct (find_mappings code_page st) as [ptrs st1].
  destruct (wide_to_dos_loop _ _ _ _ _ _) as [s'|] eqn:Hloop; [|done].
  intros [= <- <- <-]. apply wide_to_dos_loop_count in Hloop.
  rewrite Hloop. simpl. by rewrite drop_0.
Qed.

Lemma warn_code_point_rules cp st :
  decomposition_rules (warn_code_point cp st) = decomposition_rules st.
Proof. unfold warn_code_point. by destruct (bool_decide _). Qed.

Lemma warn_code_page_rules cp st :
  decomposition_rules (warn_code_page cp st) = decomposition_rules st.
Proof. unfold warn_code_page. by destruct (bool_decide _). Qed.

Lemma find_mappings_rules code_page st :
  decomposition_rules (find_mappings code_page st).2 = decomposition_rules st.
Proof.
  unfold find_mappings. destruct (code_page =? 0); [done|]. simpl.
  destruct (_ !! _); [done|]. apply warn_code_page_rules.
Qed.

Lemma wide_to_dos_body_rules fuel ptrs str_in i s i' s' :
  wide_to_dos_body fuel ptrs str_in i s = Some (i', s') ->
  decomposition_rules (dos_registry s') = decomposition_rules (dos_registry s).
Proof.
  unfold wide_to_dos_body.
  destruct (assemble_marks _ _ _) as [grapheme j].
  destruct (push_normalized _ _ grapheme _) as [[] str_out1];
    [by intros [= <- <-]|].
  destruct (push_decomposed _ _ _ _ _) as [[[] str_out2]|];
    [by intros [= <- <-]| |done].
  destruct (Decompose _ _ _) as [decomposed|]; [|done].
  destruct (HasMark decomposed).
  - destruct (push_normalized _ _ (StripMarks decomposed) _)
      as [[] str_out3]; intros [= <- <-]; [done|].
    simpl. apply warn_code_point_rules.
  - intros [= <- <-]. simpl. apply warn_code_point_rules.
Qed.

Lemma wide_to_dos_body_total fuel ptrs str_in i s :
  rules_constructed (decomposition_rules (dos_registry s)) ->
  acyclic (decomposition_rules (dos_registry s)) ->
  (size (decomposition_rules (dos_registry s)) <= fuel)%nat ->
  is_Some (wide_to_dos_body fuel ptrs str_in i s).
Proof.
  intros Hc Ha Hf. unfold wide_to_dos_body.
  destruct (assemble_marks _ _ _) as [grapheme j].
  destruct (push_normalized _ _ grapheme _) as [[] str_out1]; [by eexists|].
  destruct (Decompose_total _ fuel grapheme Hc Ha Hf) as [decomposed Hd].
  unfold push_decomposed. rewrite Hd.
  destruct (or_else _ _) as [[] str_out2]; [by eexists|].
  destruct (HasMark decomposed); [|by eexists].
  destruct (push_normalized _ _ (StripMarks decomposed) _) as [[] str_out3];
    by eexists.
Qed.

Lemma wide_to_dos_loop_total turns fuel ptrs str_in i s :
  rules_constructed (decomposition_rules (dos_registry s)) ->
  acyclic (decomposition_rules (dos_registry s)) ->
  (size (decomposition_rules (dos_registry s)) <= fuel)%nat ->
  (length str_in - i <= turns)%nat ->
  is_Some (wide_to_dos_loop turns fuel ptrs str_in i s).
Proof.
  revert i s. induction turns as [|turns IH]; intros i s Hc Ha Hf Ht; simpl.
  - destruct (i <? length str_in)%nat eqn:Hi; [|by eexists].
    apply Nat.ltb_lt in Hi. lia.
  - destruct (i <? length str_in)%nat eqn:Hi; [|by eexists].
    apply Nat.ltb_lt in Hi.
    destruct (wide_to_dos_body_total fuel ptrs str_in i s Hc Ha Hf)
      as [[i' s'] Hb].
    rewrite Hb.
    apply wide_to_dos_body_rules in Hb as Hr.
    apply wide_to_dos_body_count in Hb as (Hle & _); [|done].
    apply IH; rewrite ?Hr; try done. lia.
Qed.

Lemma wide_to_dos_total fuel str_in code_page st :
  rules_constructed (decomposition_rules st) ->
  acyclic (decomposition_rules st) ->
  (size (decomposition_rules st) <= fuel)%nat ->
  is_Some (wide_to_dos fuel str_in code_page st).
Proof.
  intros Hc Ha Hf. unfold wide_to_dos.
  pose proof (find_mappings_rules code_page st) as Hr.
  destruct (find_mappings code_page st) as [ptrs st1]. simpl in Hr.
  destruct (wide_to_dos_loop_total (length str_in) fuel ptrs str_in 0
              {| dos_status := true; dos_out := []; dos_registry := st1 |})
    as [s' Hs']; simpl; rewrite ?Hr; try done; [lia|].
  rewrite Hs'. by eexists.
Qed.

(** When no step of the fallback chain pushes a byte for the assembled
    grapheme, the loop body pushes the sentinel through [push_unknown]. *)
Lemma wide_to_dos_body_unknown fuel ptrs str_in i s grapheme j decomposed :
  assemble_marks (drop (S i) str_in) (Grapheme_new (nth i str_in 0)) i
  = (grapheme, j) ->
  (push_normalized ptrs (mapping_ascii (dos_registry s)) grapheme
                   (dos_out s)).1 = false ->
  push_decomposed fuel (decomposition_rules (dos_registry s)) ptrs grapheme
                  (dos_out s) = Some (false, dos_out s) ->
  Decompose fuel (decomposition_rules (dos_registry s)) grapheme
  = Some decomposed ->
  (HasMark decomposed = true ->
   (push_normalized ptrs (mapping_ascii (dos_registry s))
                    (StripMarks decomposed) (dos_out s)).1 = false) ->
  wide_to_dos_body fuel ptrs str_in i s =
  Some (j, {| dos_status := false;
              dos_out := dos_out s ++ [unknown_character];
              dos_registry :=
                warn_code_point (GetCodePoint grapheme) (dos_registry s) |}).
Proof.
  intros Ha Hn Hd HD Hs. unfold wide_to_dos_body. rewrite Ha.
  pose proof (push_normalized_one ptrs (mapping_ascii (dos_registry s))
                grapheme (dos_out s)) as [[Ht _]|Hf]; [congruence|].
  rewrite Hf, Hd, HD.
  destruct (HasMark decomposed); [|done].
  pose proof (push_normalized_one ptrs (mapping_ascii (dos_registry s))
                (StripMarks decomposed) (dos_out s)) as [[Ht _]|Hf'];
    [rewrite Hs in Ht; done|].
  by rewrite Hf'.
Qed.

(** [grapheme_count] counts a code point with the marks after it once. *)
Lemma grapheme_count_cons c ms rest :
  Forall (fun m => is_combining_mark m = true) ms ->
  match rest with
  | [] => True
  | next :: _ => is_combining_mark next = false
  end ->
  grapheme_count (c :: ms ++ rest) = S (grapheme_count rest).
Proof.
  intros Hms Hrest. simpl. f_equal.
  induction Hms as [|m ms Hm _ IH]; simpl.
  - destruct rest as [|next rest]; [done|]. simpl. by rewrite Hrest.
  - by rewrite Hm.
Qed.

(** C4: [wide_to_dos] gives one byte per grapheme.  Whenever it returns,
    the length of its output is the number of graphemes of its input (a
    code point with the combining marks that follow it), whatever the
    code page; it does return when the decomposition rules are acyclic
    (fuel of the size of the table is enough); and a grapheme for which
    no step of the fallback chain pushes a byte gets the sentinel
    0x3F. *)
Theorem wide_to_dos_one_byte_per_grapheme fuel str_in code_page st :
  (forall status str_out st',
      wide_to_dos fuel str_in code_page st = Some (status, str_out, st') ->
      length str_out = grapheme_count str_in) /\
  (rules_constructed (decomposition_rules st) ->
   acyclic (decomposition_rules st) ->
   (size (decomposition_rules st) <= fuel)%nat ->
   exists status str_out st',
     wide_to_dos fuel str_in code_page st = Some (status, str_out, st') /\
     length str_out = grapheme_count str_in) /\
  (forall ptrs i s grapheme j decomposed,
      assemble_marks (drop (S i) str_in) (Grapheme_new (nth i str_in 0)) i
      = (grapheme, j) ->
      (push_normalized ptrs (mapping_ascii (dos_registry s)) grapheme
                       (dos_out s)).1 = false ->
      push_decomposed fuel (decomposition_rules (dos_registry s)) ptrs
                      grapheme (dos_out s) = Some (false, dos_out s) ->
      Decompose fuel (decomposition_rules (dos_registry s)) grapheme
      = Some decomposed ->
      (HasMark decomposed = true ->
       (push_normalized ptrs (mapping_ascii (dos_registry s))
                        (StripMarks decomposed) (dos_out s)).1 = false) ->
      exists i' s',
        wide_to_dos_body fuel ptrs str_in i s = Some (i', s') /\
        dos_out s' = dos_out s ++ [unknown_character] /\
        dos_status s' = false).
Proof.
  split_and!.
  - intros status str_out st'. apply wide_to_dos_count.
  - intros Hc Ha Hf.
    destruct (wide_to_dos_total fuel str_in code_page st Hc Ha Hf)
      as [[[status str_out] st'] Hw].
    exists status, str_out, st'. split; [done|].
    by eapply wide_to_dos_count.
  - intros ptrs i s grapheme j decomposed Ha Hn Hd HD Hs.
    eexists _, _. split; [by eapply wide_to_dos_body_unknown|]. done.
Qed.

Lemma wide_to_dos_one_byte_per_grapheme_witness :
  exists status str_out st',
    wide_to_dos 1 [0x65; 0x0301; 0x65e5; 0x41] 437
                (load_config_if_needed good_main_files Registry_initial)
    = Some (status, str_out, st') /\
    length str_out = grapheme_count [0x65; 0x0301; 0x65e5; 0x41].
Proof.
  apply (proj1 (proj2 (wide_to_dos_one_byte_per_grapheme
           1 [0x65; 0x0301; 0x65e5; 0x41] 437
           (load_config_if_needed good_main_files Registry_initial)))).
  - rewrite good_main_files_rules. exact example_rules_constructed.
  - rewrite good_main_files_rules. exact example_rules_acyclic.
  - rewrite good_main_files_rules. vm_compute. lia.
Defined.

(** No code point below 0x0300 is a combining mark. *)
Lemma is_combining_mark_low c : c < 0x0300 -> is_combining_mark c = false.
Proof.
  intros Hc. unfold is_combining_mark, ranges. simpl.
  repeat match goal with
         | |- context [?a <=? c] => destruct (Z.leb_spec a c); try lia
         end; done.
Qed.

Lemma wide_to_dos_body_ascii fuel ptrs str_in i s :
  Forall printable_ascii str_in -> (i < length str_in)%nat ->
  wide_to_dos_body fuel ptrs str_in i s =
  Some (i, set_dos_out (dos_out s ++ [nth i str_in 0]) s).
Proof.
  intros Hs Hi. unfold wide_to_dos_body.
  pose proof (printable_ascii_nth str_in i Hs Hi) as Hc.
  assert (assemble_marks (drop (S i) str_in) (Grapheme_new (nth i str_in 0)) i
          = (Grapheme_new (nth i str_in 0), i)) as ->.
  { destruct (drop (S i) str_in) as [|next rest] eqn:Hd; [done|]. simpl.
    rewrite is_combining_mark_low; [done|].
    assert (next ∈ str_in) as Hin.
    { eapply (subseteq_drop (S i)). rewrite Hd. by left. }
    rewrite Forall_forall in Hs. apply Hs in Hin.
    unfold printable_ascii in Hin. lia. }
  unfold Grapheme_new. rewrite is_combining_mark_low by lia.
  unfold push_normalized, push_7bit, or_else, HasMark, GetCodePoint. simpl.
  unfold decode_threshold_non_ascii.
  destruct (Z.geb_spec (nth i str_in 0) 128); [lia|]. simpl.
  unfold uint8. rewrite Z.mod_small by lia. done.
Qed.

Lemma wide_to_dos_loop_ascii turns fuel ptrs str_in i s :
  Forall printable_ascii str_in -> (length str_in - i <= turns)%nat ->
  wide_to_dos_loop turns fuel ptrs str_in i s =
  Some (set_dos_out (dos_out s ++ drop i str_in) s).
Proof.
  intros Hs. revert i s.
  induction turns as [|turns IH]; intros i s Ht; simpl.
  - destruct (i <? length str_in)%nat eqn:Hi.
    + apply Nat.ltb_lt in Hi. lia.
    + apply Nat.ltb_ge in Hi. rewrite drop_ge by done.
      rewrite app_nil_r. by destruct s.
  - destruct (i <? length str_in)%nat eqn:Hi.
    + apply Nat.ltb_lt in Hi.
      rewrite wide_to_dos_body_ascii by done.
      rewrite IH by lia. simpl.
      rewrite (drop_nth_cons str_in i Hi), <- app_assoc. done.
    + apply Nat.ltb_ge in Hi. rewrite drop_ge by done.
      rewrite app_nil_r. by destruct s.
Qed.

Lemma wide_to_dos_ascii fuel str_in code_page st :
  Forall printable_ascii str_in ->
  wide_to_dos fuel str_in code_page st =
  Some (true, str_in, (find_mappings code_page st).2).
Proof.
  intros Hs. unfold wide_to_dos.
  destruct (find_mappings code_page st) as [ptrs st1].
  rewrite wide_to_dos_loop_ascii by (done || lia). simpl.
  by rewrite drop_0.
Qed.

(** * The DOS -> UTF-8 pipeline *)

(** What [dos_to_wide] pushes for a byte of the upper half. *)
Lemma dos_to_wide_step_upper st code_page str_out byte :
  0x80 <= byte <= 0xff ->
  dos_to_wide_step st code_page str_out byte =
  str_out ++
    match mappings_reverse_by_codepage st !! code_page with
    | None => [unknown_character]
    | Some reverse =>
        match smap_find Z.ltb byte reverse with
        | None => [unknown_character]
        | Some grapheme =>
            if is_empty grapheme || negb (is_valid grapheme) then []
            else code_point grapheme :: marks grapheme
        end
    end.
Proof.
  intros Hb. unfold dos_to_wide_step, uint8, decode_threshold_non_ascii.
  rewrite Z.mod_small by lia.
  destruct (Z.geb_spec byte 128); [|lia].
  destruct (_ !! _) as [reverse|]; [|done].
  destruct (smap_find _ _ _) as [grapheme|]; [|done].
  unfold PushInto. destruct (_ || _); [by rewrite app_nil_r|].
  by rewrite <- app_assoc.
Qed.

(** The byte 0x81 of the example files is marked undefined in MAIN.TXT:
    the reverse mapping of code page 437 holds it with the empty
    grapheme, and [dos_to_wide] pushes nothing for it. *)
Lemma dos_to_wide_undefined_byte :
  (exists reverse,
      mappings_reverse_by_codepage example_registry !! 437 = Some reverse /\
      smap_find Z.ltb 0x81 reverse = Some Grapheme_default) /\
  dos_to_wide [0x81] 437 example_registry = [] /\
  dos_to_wide [0x81] 437 example_registry <> [unknown_character].
Proof. split_and!; [eexists; split|..]; by vm_compute. Qed.

(** The same through the public entry point: the undefined byte 0x81
    leaves no trace in the output, the byte 0x82 (not in the mapping) and
    any byte of the upper half without a code page give the sentinel. *)
Lemma dos_to_utf8_undefined_byte :
  (fst <$> dos_to_utf8 2 good_main_files [0x81] 437 Registry_initial)
  = Some [] /\
  (fst <$> dos_to_utf8 2 good_main_files [0x41; 0x81; 0x42] 437
                       Registry_initial) = Some [0x41; 0x42] /\
  (fst <$> dos_to_utf8 2 good_main_files [0x82] 437 Registry_initial)
  = Some [unknown_character] /\
  (fst <$> dos_to_utf8 2 good_main_files [0x81] 0 Registry_initial)
  = Some [unknown_character].
Proof. vm_compute. done. Qed.

Lemma dos_to_wide_app str_in byte code_page st :
  dos_to_wide (str_in ++ [byte]) code_page st =
  dos_to_wide_step st code_page (dos_to_wide str_in code_page st) byte.
Proof. unfold dos_to_wide. by rewrite fold_left_app. Qed.

(** C2, as amended: for an input byte [b >= 0x80], [dos_to_wide] pushes
    the base and then the marks of the grapheme that the reverse mapping
    of the code page holds for [b] when that grapheme is non-empty and
    valid; it pushes nothing when the stored grapheme is empty or
    invalid; and it pushes exactly one sentinel 0x3F when the code page
    or the byte is absent from the reverse mappings. *)
Theorem dos_to_wide_upper_half str_in byte code_page st :
  0x80 <= byte <= 0xff ->
  dos_to_wide (str_in ++ [byte]) code_page st =
  dos_to_wide str_in code_page st ++
    match mappings_reverse_by_codepage st !! code_page with
    | None => [unknown_character]
    | Some reverse =>
        match smap_find Z.ltb byte reverse with
        | None => [unknown_character]
        | Some grapheme =>
            if is_empty grapheme || negb (is_valid grapheme) then []
            else code_point grapheme :: marks grapheme
        end
    end.
Proof.
  intros Hb. rewrite dos_to_wide_app. by apply dos_to_wide_step_upper.
Qed.

Lemma dos_to_wide_upper_half_witness :
  dos_to_wide ([0x41] ++ [0x80]) 437 example_registry =
  dos_to_wide [0x41] 437 example_registry ++ [0x00c7] /\
  dos_to_wide ([0x41] ++ [0x81]) 437 example_registry =
  dos_to_wide [0x41] 437 example_registry ++ [] /\
  dos_to_wide ([0x41] ++ [0x82]) 437 example_registry =
  dos_to_wide [0x41] 437 example_registry ++ [unknown_character].
Proof.
  split_and!.
  - rewrite (dos_to_wide_upper_half [0x41] 0x80 437 example_registry) by lia.
    by vm_compute.
  - rewrite (dos_to_wide_upper_half [0x41] 0x81 437 example_registry) by lia.
    by vm_compute.
  - rewrite (dos_to_wide_upper_half [0x41] 0x82 437 example_registry) by lia.
    by vm_compute.
Defined.

(** * The configuration loaders *)

(** [while_get_line] is the loop around [get_line]. *)
Lemma while_get_line_unfold {A} (body : nat -> string -> A -> option A)
      pending line_num acc :
  while_get_line body pending line_num acc =
  match get_line pending line_num with
  | None =>
      Some (acc,
            if bool_decide (Forall (fun l => string_empty l = true) pending)
            then AtStreamEnd else AtMarking)
  | Some (line_str, pending', line_num') =>
      match body line_num' line_str acc with
      | None => None
      | Some acc' => while_get_line body pending' line_num' acc'
      end
  end.
Proof.
  revert line_num acc.
  induction pending as [|line_str pending IH]; intros line_num acc; simpl.
  - done.
  - destruct (starts_with_eof_marking line_str) eqn:Hm.
    + rewrite bool_decide_eq_false_2; [done|].
      intros [He _]%Forall_cons. by destruct line_str.
    + destruct (string_empty line_str) eqn:He; [|done].
      rewrite IH. destruct (get_line pending (S line_num)) as [[[? ?] ?]|];
        [done|].
      assert (bool_decide (Forall (fun l => string_empty l = true)
                                  (line_str :: pending)) =
              bool_decide (Forall (fun l => string_empty l = true) pending))
        as -> by (apply bool_decide_ext; rewrite Forall_cons; tauto).
      done.
Qed.

(** A line that the body refuses makes the loop return. *)
Lemma while_get_line_error {A} (body : nat -> string -> A -> option A)
      pre line_str post line_num acc :
  Forall (fun l => starts_with_eof_marking l = false) pre ->
  starts_with_eof_marking line_str = false ->
  string_empty line_str = false ->
  (forall n a, body n line_str a = None) ->
  while_get_line body (pre ++ line_str :: post) line_num acc = None.
Proof.
  intros Hpre Hm He Hbody. revert line_num acc.
  induction Hpre as [|l pre Hl _ IH]; intros line_num acc; simpl.
  - by rewrite Hm, He, Hbody.
  - rewrite Hl. destruct (string_empty l); [apply IH|].
    destruct (body (S line_num) l acc); [apply IH|done].
Qed.

(** A property of the table under construction that the initial table
    has and every accepted line keeps holds for the table at the end of
    the loop. *)
Lemma while_get_line_invariant {A} (body : nat -> string -> A -> option A)
      (P : A -> Prop) pending line_num acc r how :
  (forall n line_str a a', P a -> body n line_str a = Some a' -> P a') ->
  P acc ->
  while_get_line body pending line_num acc = Some (r, how) -> P r.
Proof.
  intros Hbody. revert line_num acc.
  induction pending as [|line_str pending IH]; intros line_num acc Hacc;
    simpl.
  - by intros [= <- _].
  - destruct (starts_with_eof_marking line_str); [by intros [= <- _]|].
    destruct (string_empty line_str); [by apply IH|].
    destruct (body (S line_num) line_str acc) as [acc'|] eqn:Hb; [|done].
    apply IH. by eapply Hbody.
Qed.

Lemma rules_constructed_insert rules cp g :
  rules_constructed rules -> constructed g ->
  rules_constructed (<[cp := g]> rules).
Proof.
  intros Hr Hg cp' rule. rewrite lookup_insert.
  destruct (decide (cp = cp')); [by intros [= <-]|]. apply Hr.
Qed.

Lemma import_decomposition_marks_constructed rest cp rules rules' :
  rules_constructed rules ->
  import_decomposition_marks rest cp rules = Some rules' ->
  rules_constructed rules'.
Proof.
  revert rules. induction rest as [|token rest IH]; intros rules Hr; simpl.
  - by intros [= <-].
  - destruct (get_hex_16bit token) as [m|]; [|done].
    destruct (is_combining_mark m); [|done]. simpl.
    apply IH. apply rules_constructed_insert; [done|].
    apply constructed_AddMark.
    destruct (rules !! cp) as [g|] eqn:Hg; simpl.
    + by eapply Hr.
    + apply constructed_default.
Qed.

Lemma import_decomposition_body_constructed n line_str rules rules' :
  rules_constructed rules ->
  import_decomposition_body n line_str rules = Some rules' ->
  rules_constructed rules'.
Proof.
  intros Hr. unfold import_decomposition_body.
  destruct (get_tokens line_str) as [[] tokens]; simpl; [|by intros [= <-]].
  destruct (length tokens <? 3)%nat; [done|].
  destruct (get_hex_16bit (token_at tokens 0)) as [cp1|]; [|done].
  destruct (get_hex_16bit (token_at tokens 1)) as [cp2|]; [|done].
  apply import_decomposition_marks_constructed.
  apply rules_constructed_insert; [done|]. apply constructed_new.
Qed.

(** The rules that the loader installs are values of the Grapheme
    class. *)
Lemma import_decomposition_constructed fs st :
  rules_constructed (decomposition_rules st) ->
  rules_constructed (decomposition_rules (import_decomposition fs st)).
Proof.
  intros Hst. unfold import_decomposition, import_decomposition_parse.
  destruct (fs _ _) as [in_file|]; [|done].
  destruct (while_get_line _ _ _ _) as [[new_rules how]|] eqn:Hw; [|done].
  destruct (check_import_status _ _ _); [|done]. simpl.
  eapply (while_get_line_invariant _ rules_constructed); [|..|exact Hw].
  - intros n line_str a a'. apply import_decomposition_body_constructed.
  - intros cp rule. by rewrite lookup_empty.
Qed.

Lemma import_mapping_ascii_rules fs st :
  decomposition_rules (import_mapping_ascii fs st) = decomposition_rules st.
Proof.
  unfold import_mapping_ascii. by destruct (import_mapping_ascii_parse fs).
Qed.

Lemma import_config_main_rules fs st :
  decomposition_rules (import_config_main fs st) = decomposition_rules st.
Proof.
  unfold import_config_main. by destruct (import_config_main_parse fs).
Qed.

Lemma load_config_if_needed_constructed fs st :
  rules_constructed (decomposition_rules st) ->
  rules_constructed (decomposition_rules (load_config_if_needed fs st)).
Proof.
  intros Hst. unfold load_config_if_needed.
  destruct (config_loaded st); [done|]. simpl.
  rewrite import_config_main_rules, import_mapping_ascii_rules.
  by apply import_decomposition_constructed.
Qed.

Lemma import_fails_cannot_open {A} body (init : A) empty :
  import_fails body init empty None.
Proof. done. Qed.

Lemma import_fails_no_lines {A} body (init : A) empty read_error :
  empty init = true ->
  import_fails body init empty
               (Some {| file_lines := []; file_read_error := read_error |}).
Proof.
  intros He. unfold import_fails, check_import_status. simpl.
  rewrite He. by destruct read_error.
Qed.

Lemma import_fails_read_error {A} body (init : A) empty lines new_table :
  while_get_line body lines 0 init = Some (new_table, AtStreamEnd) ->
  import_fails body init empty
               (Some {| file_lines := lines; file_read_error := true |}).
Proof. intros Hw. unfold import_fails. simpl. by rewrite Hw. Qed.

Lemma import_fails_parse_error {A} body (init : A) empty file :
  while_get_line body (file_lines file) 0 init = None ->
  import_fails body init empty (Some file).
Proof. intros Hw. unfold import_fails. by rewrite Hw. Qed.

(** C6: loading a configuration file is atomic.  When
    [import_config_main], [import_decomposition] or
    [import_mapping_ascii] fails (the file cannot be opened, a line is
    refused, the stream ends in a read error or the file has no entry), it
    returns the registry it was given, unchanged; its tables are replaced
    only by the result of reading and parsing the whole file. *)
Theorem import_is_atomic fs st :
  (import_fails import_config_main_body main_locals_initial file_empty
                (fs dir_name_mapping file_name_main) ->
   import_config_main fs st = st) /\
  (import_fails import_decomposition_body ∅ rules_empty
                (fs dir_name_mapping file_name_decomposition) ->
   import_decomposition fs st = st) /\
  (import_fails import_mapping_ascii_body [] mapping_empty
                (fs dir_name_mapping file_name_ascii) ->
   import_mapping_ascii fs st = st) /\
  (forall file l how,
      fs dir_name_mapping file_name_main = Some file ->
      while_get_line import_config_main_body (file_lines file) 0
                     main_locals_initial = Some (l, how) ->
      check_import_status file how (file_empty l) = true ->
      import_config_main fs st =
      set_config_aliases (new_config_aliases l)
        (set_config_duplicates (new_config_duplicates l)
           (set_config_mappings (new_config_mappings l) st))) /\
  (forall file new_rules how,
      fs dir_name_mapping file_name_decomposition = Some file ->
      while_get_line import_decomposition_body (file_lines file) 0 ∅
      = Some (new_rules, how) ->
      check_import_status file how (rules_empty new_rules) = true ->
      import_decomposition fs st = set_decomposition_rules new_rules st) /\
  (forall file new_mapping_ascii how,
      fs dir_name_mapping file_name_ascii = Some file ->
      while_get_line import_mapping_ascii_body (file_lines file) 0 []
      = Some (new_mapping_ascii, how) ->
      check_import_status file how (mapping_empty new_mapping_ascii) = true ->
      import_mapping_ascii fs st = set_mapping_ascii new_mapping_ascii st).
Proof.
  unfold import_fails, import_config_main, import_config_main_parse,
    import_decomposition, import_decomposition_parse,
    import_mapping_ascii, import_mapping_ascii_parse,
    main_locals_initial, rules_empty, mapping_empty.
  split_and!.
  - destruct (fs dir_name_mapping file_name_main) as [file|]; [|done].
    destruct (while_get_line _ _ _ _) as [[l how]|]; [|done].
    by intros ->.
  - destruct (fs dir_name_mapping file_name_decomposition) as [file|];
      [|done].
    destruct (while_get_line _ _ _ _) as [[l how]|]; [|done].
    by intros ->.
  - destruct (fs dir_name_mapping file_name_ascii) as [file|]; [|done].
    destruct (while_get_line _ _ _ _) as [[l how]|]; [|done].
    by intros ->.
  - by intros file l how -> -> ->.
  - by intros file l how -> -> ->.
  - by intros file l how -> -> ->.
Qed.

Lemma import_is_atomic_witness :
  let st := load_config_if_needed good_main_files Registry_initial in
  import_config_main broken_main_files st = st.
Proof.
  intros st.
  apply (proj1 (import_is_atomic broken_main_files st)).
  vm_compute. exact I.
Defined.

(** The registry loaded from the example files does not have the
    initial, empty tables. *)
Lemma good_main_files_loaded :
  config_aliases (load_config_if_needed good_main_files Registry_initial)
  = [(0x00c8, 0x00c7)].
Proof. vm_compute. done. Qed.

(** ** DECOMPOSITION.TXT *)

(** The mark tokens of a line, when they all are combining marks. *)
Lemma import_decomposition_marks_accept rest ms code_point_1 new_rules g :
  Forall2 (fun token m => get_hex_16bit token = Some m /\
                          is_combining_mark m = true) rest ms ->
  new_rules !! code_point_1 = Some g ->
  import_decomposition_marks rest code_point_1 new_rules =
  Some (<[code_point_1 := AddMarks ms g]> new_rules).
Proof.
  intros Hall. revert new_rules g.
  induction Hall as [|token m rest ms [Hhex Hm] _ IH]; intros new_rules g Hg;
    simpl.
  - by rewrite insert_id.
  - rewrite Hhex, Hm, Hg. simpl.
    rewrite (IH _ (AddMark m g)) by apply lookup_insert_eq.
    by rewrite insert_insert_eq.
Qed.

Lemma import_decomposition_marks_reject rest idx m code_point_1 new_rules :
  (idx < length rest)%nat ->
  get_hex_16bit (nth idx rest EmptyString) = Some m ->
  is_combining_mark m = false ->
  import_decomposition_marks rest code_point_1 new_rules = None.
Proof.
  revert idx new_rules.
  induction rest as [|token rest IH]; intros idx new_rules Hidx Hhex Hm;
    simpl in *; [lia|].
  destruct idx as [|idx].
  - by rewrite Hhex, Hm.
  - destruct (get_hex_16bit token) as [m'|]; [|done].
    destruct (is_combining_mark m'); [|done]. simpl.
    eapply IH; [|done..]. lia.
Qed.

Lemma nth_drop {A} (l : list A) n i d : nth i (drop n l) d = nth (n + i) l d.
Proof.
  revert l. induction n as [|n IH]; intros l; simpl; [by rewrite drop_0|].
  destruct l as [|x l]; simpl; [by destruct i|]. apply IH.
Qed.

(** A second line for a source code point is not refused: the file is
    loaded, and the rule of the later line is the one kept. *)
Lemma import_decomposition_duplicate_source :
  import_decomposition_parse duplicate_source_files <> None /\
  decomposition_rules
    (import_decomposition duplicate_source_files Registry_initial) !! 0x00c9
  = Some (AddMark 0x0300 (Grapheme_new 0x41)).
Proof. split; [by vm_compute|]. vm_compute. reflexivity. Qed.

(** C8, as amended: a line of DECOMPOSITION.TXT with a source, a base
    and marks that all are combining marks is accepted whether or not the
    source already has a rule, and its rule replaces the earlier one; a
    line with a mark token that is no combining mark is refused, and the
    file is then not loaded (the registry is left as it was). *)
Theorem import_decomposition_line line_num line_str tokens new_rules :
  get_tokens line_str = (true, tokens) ->
  (forall code_point_1 code_point_2 ms,
      (3 <= length tokens)%nat ->
      get_hex_16bit (token_at tokens 0) = Some code_point_1 ->
      get_hex_16bit (token_at tokens 1) = Some code_point_2 ->
      Forall2 (fun token m => get_hex_16bit token = Some m /\
                              is_combining_mark m = true)
              (drop 2 tokens) ms ->
      import_decomposition_body line_num line_str new_rules =
      Some (<[code_point_1 := AddMarks ms (Grapheme_new code_point_2)]>
              new_rules)) /\
  (forall idx m,
      (2 <= idx < length tokens)%nat ->
      get_hex_16bit (token_at tokens idx) = Some m ->
      is_combining_mark m = false ->
      import_decomposition_body line_num line_str new_rules = None) /\
  (forall idx m fs file pre post st,
      (2 <= idx < length tokens)%nat ->
      get_hex_16bit (token_at tokens idx) = Some m ->
      is_combining_mark m = false ->
      fs dir_name_mapping file_name_decomposition = Some file ->
      file_lines file = pre ++ line_str :: post ->
      Forall (fun l => starts_with_eof_marking l = false) pre ->
      starts_with_eof_marking line_str = false ->
      import_decomposition fs st = st).
Proof.
  intros Htok.
  assert (forall idx m n rules,
      (2 <= idx < length tokens)%nat ->
      get_hex_16bit (token_at tokens idx) = Some m ->
      is_combining_mark m = false ->
      import_decomposition_body n line_str rules = None) as Hreject.
  { intros idx m n rules Hidx Hhex Hm. unfold import_decomposition_body.
    rewrite Htok. simpl.
    destruct (length tokens <? 3)%nat eqn:Hlen; [done|].
    destruct (get_hex_16bit (token_at tokens 0)) as [cp1|]; [|done].
    destruct (get_hex_16bit (token_at tokens 1)) as [cp2|]; [|done].
    apply (import_decomposition_marks_reject _ (idx - 2) m).
    - rewrite length_drop. lia.
    - rewrite nth_drop. replace (2 + (idx - 2))%nat with idx by lia. done.
    - done. }
  split_and!.
  - intros cp1 cp2 ms Hlen H0 H1 Hms. unfold import_decomposition_body.
    rewrite Htok. simpl.
    destruct (length tokens <? 3)%nat eqn:Hlt;
      [apply Nat.ltb_lt in Hlt; lia|].
    rewrite H0, H1.
    rewrite (import_decomposition_marks_accept _ ms _ _ (Grapheme_new cp2))
      by (done || apply lookup_insert_eq).
    by rewrite insert_insert_eq.
  - intros idx m. apply Hreject.
  - intros idx m fs file pre post st Hidx Hhex Hm Hfs Hlines Hpre Hline.
    unfold import_decomposition, import_decomposition_parse.
    rewrite Hfs, Hlines.
    rewrite while_get_line_error; try done.
    + destruct line_str; [|done]. by vm_compute in Htok.
    + intros n a. by eapply Hreject.
Qed.


Lemma import_decomposition_line_witness :
  import_decomposition_body 2 "0x00c9 0x0041 0x0300"
    {[ 0x00c9 := AddMark 0x0301 (Grapheme_new 0x45) ]}
  = Some (<[ 0x00c9 := AddMarks [0x0300] (Grapheme_new 0x41) ]>
            {[ 0x00c9 := AddMark 0x0301 (Grapheme_new 0x45) ]}) /\
  import_decomposition_body 2 "0x00c9 0x0041 0x0041"
    {[ 0x00c9 := AddMark 0x0301 (Grapheme_new 0x45) ]} = None.
Proof.
  split.
  - apply (proj1 (import_decomposition_line 2 "0x00c9 0x0041 0x0300"
                    ["0x00c9"%string; "0x0041"%string; "0x0300"%string]
                    {[ 0x00c9 := AddMark 0x0301 (Grapheme_new 0x45) ]}
                    eq_refl)).
    + simpl. lia.
    + reflexivity.
    + reflexivity.
    + repeat constructor.
  - apply (proj1 (proj2 (import_decomposition_line 2 "0x00c9 0x0041 0x0041"
                    ["0x00c9"%string; "0x0041"%string; "0x0041"%string]
                    {[ 0x00c9 := AddMark 0x0301 (Grapheme_new 0x45) ]}
                    eq_refl)) 2%nat 0x41).
    + simpl. lia.
    + reflexivity.
    + reflexivity.
Defined.

(** * The mapping builder returns *)

Lemma same_config_refl st : same_config st st.
Proof. by split_and!. Qed.

Lemma same_config_trans st1 st2 st3 :
  same_config st1 st2 -> same_config st2 st3 -> same_config st1 st3.
Proof.
  intros (Hr1 & Hc1 & Ht1) (Hr2 & Hc2 & Ht2).
  split_and!; [congruence|congruence|by transitivity (already_tried st2)].
Qed.

Lemma same_config_untried st st' :
  same_config st st' -> (size (untried st') <= size (untried st))%nat.
Proof.
  intros (_ & Hc & Ht). unfold untried. rewrite Hc.
  apply subseteq_size. intros x. rewrite !elem_of_difference.
  intros [Hx Hn]. split; [done|]. intros Hx'. apply Hn, Ht, Hx'.
Qed.

Lemma erase_mappings_same_config code_page st :
  same_config st (erase_mappings code_page st).
Proof. by split_and!. Qed.

Lemma construct_decomposed_loop_total fuel rules normalized decomposed :
  rules_constructed rules -> acyclic rules -> (size rules <= fuel)%nat ->
  is_Some (construct_decomposed_loop fuel rules normalized decomposed).
Proof.
  intros Hc Ha Hf. revert decomposed.
  induction normalized as [|[grapheme character_code] rest IH];
    intros decomposed; simpl; [by eexists|].
  destruct (Decompose_total rules fuel grapheme Hc Ha Hf) as [tmp ->].
  destruct (operator_eq grapheme tmp); apply IH.
Qed.

Lemma construct_aliases_total fuel code_page st :
  rules_constructed (decomposition_rules st) ->
  acyclic (decomposition_rules st) ->
  (size (decomposition_rules st) <= fuel)%nat ->
  exists st', construct_aliases fuel code_page st = Some st' /\
              same_config st st'.
Proof.
  intros Hc Ha Hf. unfold construct_aliases. simpl.
  match goal with |- context [construct_decomposed fuel ?r ?n] =>
    destruct (construct_decomposed_loop_total fuel r n [] Hc Ha Hf)
      as [decomposed Hd] end.
  unfold construct_decomposed. rewrite Hd.
  eexists. split; [done|]. by split_and!.
Qed.

Section prepare_code_page_total.
Variables (fuel : nat) (fs : resources) (rules : gmap Z Grapheme).
Hypothesis rules_ok : rules_constructed rules.
Hypothesis rules_acyclic : acyclic rules.
Hypothesis fuel_ok : (size rules <= fuel)%nat.

Lemma construct_mapping_finish_total code_page config_mapping maps st :
  decomposition_rules st = rules ->
  exists b st',
    construct_mapping_finish fuel fs code_page config_mapping maps st
    = Some (b, st') /\
    same_config st st'.
Proof.
  intros Hr. unfold construct_mapping_finish.
  match goal with
  | |- context [match ?ff with Some _ => _ | None => Some (false, st) end] =>
      destruct ff as [[new_mapping new_mapping_reverse]|]
  end.
  2: { exists false, st. split; [done|]. apply same_config_refl. }
  simpl. rewrite Hr.
  destruct (construct_decomposed_loop_total fuel rules new_mapping []
              rules_ok rules_acyclic fuel_ok) as [decomposed Hd].
  unfold construct_decomposed. rewrite Hd.
  eexists true, _. split; [done|]. by split_and!.
Qed.

Lemma construct_mapping_total prepare code_page st (depth : nat) :
  decomposition_rules st = rules ->
  is_Some (config_mappings st !! code_page) ->
  (size (untried st) < S depth)%nat ->
  (forall cp st1,
      decomposition_rules st1 = rules ->
      (size (untried st1) < depth)%nat ->
      exists b st2, prepare cp st1 = Some (b, st2) /\ same_config st1 st2) ->
  exists b st',
    construct_mapping prepare fuel fs code_page st = Some (b, st') /\
    same_config st st'.
Proof.
  intros Hr Hcfg Hsize Hprepare. unfold construct_mapping.
  destruct (bool_decide (code_page ∈ already_tried st)) eqn:Htried.
  { exists false, st. split; [done|]. apply same_config_refl. }
  apply bool_decide_eq_false in Htried.
  set (st1 := set_already_tried ({[code_page]} ∪ already_tried st) st).
  assert (same_config st st1) as Hsame1.
  { split_and!; try done. simpl. apply union_subseteq_r. }
  assert (size (untried st1) < depth)%nat as Hsize1.
  { assert (untried st1 ⊂ untried st) as Hsub;
      [|apply subset_size in Hsub; lia].
    unfold untried, st1. simpl.
    apply elem_of_dom in Hcfg. split.
    - intros x [Hx Hn]%elem_of_difference. apply elem_of_difference.
      split; [done|]. intros Hx'. apply Hn, elem_of_union. by right.
    - intros Hsub.
      assert (code_page ∈ dom (config_mappings st) ∖ already_tried st)
        as Hin by (by apply elem_of_difference).
      apply Hsub, elem_of_difference in Hin as [_ Hn].
      apply Hn, elem_of_union. left. by apply elem_of_singleton. }
  cbv zeta.
  destruct (extends_code_page _ =? 0).
  - destruct (construct_mapping_finish_total code_page
                (entry_at code_page (config_mappings st1))
                (fold_left
                   (fun maps entry => add_to_mappings entry.1 entry.2 maps)
                   (mapping (entry_at code_page (config_mappings st1)))
                   ([], []))
                st1 Hr) as (b & st2 & -> & Hsame2).
    exists b, st2. split; [done|]. by eapply same_config_trans.
  - match goal with |- context [prepare ?dep st1] =>
      destruct (Hprepare dep st1 Hr Hsize1) as (b & st2 & -> & Hsame2)
    end.
    pose proof (same_config_trans _ _ _ Hsame1 Hsame2) as Hsame.
    destruct b; [|by exists false, st2].
    match goal with
    | |- context [construct_mapping_finish fuel fs code_page ?c ?m st2] =>
        destruct (construct_mapping_finish_total code_page c m st2)
          as (b & st3 & -> & Hsame3)
    end.
    { destruct Hsame as (-> & _). done. }
    exists b, st3. split; [done|]. by eapply same_config_trans.
Qed.

Lemma prepare_code_page_total depth :
  forall code_page st,
    decomposition_rules st = rules ->
    (size (untried st) < depth)%nat ->
    exists b st',
      prepare_code_page depth fuel fs code_page st = Some (b, st') /\
      same_config st st'.
Proof.
  induction depth as [|depth IH]; intros code_page st Hr Hsize; [lia|].
  simpl.
  destruct (bool_decide (is_Some (mappings_normalized_by_codepage st
                                    !! code_page))).
  { exists true, st. split; [done|]. apply same_config_refl. }
  destruct (bool_decide (is_Some (config_mappings st !! code_page)))
    eqn:Hcfg; simpl.
  2: { eexists false, _. split; [done|]. apply erase_mappings_same_config. }
  apply bool_decide_eq_true in Hcfg.
  destruct (construct_mapping_total (prepare_code_page depth fuel fs)
              code_page st depth Hr Hcfg Hsize)
    as (b & st1 & -> & Hsame1).
  { intros cp st1 Hr1 Hs1. apply IH; done. }
  destruct b.
  - destruct Hsame1 as (Hr1 & Hc1 & Ht1).
    destruct (construct_aliases_total fuel code_page st1)
      as (st2 & -> & Hsame2); rewrite ?Hr1, ?Hr; try done.
    eexists true, st2. split; [done|].
    eapply same_config_trans; [|exact Hsame2]. by split_and!.
  - eexists false, _. split; [done|].
    eapply same_config_trans; [exact Hsame1|].
    apply erase_mappings_same_config.
Qed.
End prepare_code_page_total.

Lemma untried_size st : (size (untried st) <= size (config_mappings st))%nat.
Proof.
  unfold untried. rewrite <- size_dom. apply subseteq_size.
  intros x Hx. apply elem_of_difference in Hx. tauto.
Qed.

Lemma warn_default_code_page_same_config st :
  same_config st (warn_default_code_page st).
Proof.
  unfold warn_default_code_page.
  destruct (warned_default_code_page st); by split_and!.
Qed.

(** With acyclic rules and enough fuel the choice of the code page
    returns, and leaves the rules and the configuration alone. *)
Lemma get_custom_code_page_total fuel fs custom_code_page st :
  rules_constructed (decomposition_rules st) ->
  acyclic (decomposition_rules st) ->
  (size (decomposition_rules st) <= fuel)%nat ->
  (size (config_mappings st) < fuel)%nat ->
  exists cp st',
    get_custom_code_page fuel fs custom_code_page st = Some (cp, st') /\
    same_config st st'.
Proof.
  intros Hc Ha Hf Hd. unfold get_custom_code_page.
  destruct (custom_code_page =? 0).
  { exists 0, st. split; [done|]. apply same_config_refl. }
  pose proof (untried_size st) as Hu.
  destruct (prepare_code_page_total fuel fs (decomposition_rules st)
              Hc Ha Hf fuel (deduplicate_code_page custom_code_page st) st)
    as (b & st1 & -> & Hsame1); [done|lia|].
  destruct b; [by exists (deduplicate_code_page custom_code_page st), st1|].
  unfold get_default_code_page.
  pose proof (same_config_untried _ _ Hsame1) as Hu1.
  destruct (prepare_code_page_total fuel fs (decomposition_rules st)
              Hc Ha Hf fuel default_code_page st1)
    as (b & st2 & -> & Hsame2); [apply Hsame1|lia|].
  pose proof (same_config_trans _ _ _ Hsame1 Hsame2) as Hsame.
  destruct b; [by exists default_code_page, st2|].
  exists 0, (warn_default_code_page st2). split; [done|].
  eapply same_config_trans; [exact Hsame|].
  apply warn_default_code_page_same_config.
Qed.

(** C3: for every byte string [s] of bytes in 0x20..0x7E,
    [dos_to_utf8(s, 437)] gives [s] and [utf8_to_dos(s, 437)] gives
    [(s, true)]: whenever the calls return, and they do return when the
    decomposition rules in force after [load_config_if_needed] are
    acyclic and the fuel exceeds the sizes of the rule table and of the
    configuration. *)
Theorem printable_ascii_is_kept fuel fs st s :
  Forall printable_ascii s ->
  (forall str_out st',
      dos_to_utf8 fuel fs s 437 st = Some (str_out, st') -> str_out = s) /\
  (forall status str_out st',
      utf8_to_dos fuel fs s 437 st = Some (status, str_out, st') ->
      status = true /\ str_out = s) /\
  (let st1 := load_config_if_needed fs st in
   rules_constructed (decomposition_rules st) ->
   acyclic (decomposition_rules st1) ->
   (size (decomposition_rules st1) <= fuel)%nat ->
   (size (config_mappings st1) < fuel)%nat ->
   (exists st', dos_to_utf8 fuel fs s 437 st = Some (s, st')) /\
   (exists st', utf8_to_dos fuel fs s 437 st = Some (true, s, st'))).
Proof.
  intros Hs.
  assert (forall cp st1, dos_to_wide s cp st1 = s) as Hdw
      by (intros; by apply dos_to_wide_ascii).
  split_and!.
  - intros str_out st'. unfold dos_to_utf8.
    destruct (get_custom_code_page _ _ _ _) as [[cp st1]|]; [|done].
    intros [= <- <-]. rewrite Hdw. by apply wide_to_utf8_ascii.
  - intros status str_out st'. unfold utf8_to_dos.
    destruct (get_custom_code_page _ _ _ _) as [[cp st1]|]; [|done].
    rewrite utf8_to_wide_ascii, wide_to_dos_ascii by done.
    by intros [= <- <- <-].
  - intros st1 Hc Ha Hf Hd.
    apply (load_config_if_needed_constructed fs) in Hc. fold st1 in Hc.
    destruct (get_custom_code_page_total fuel fs 437 st1 Hc Ha Hf Hd)
      as (cp & st2 & Hcp & _).
    split.
    + unfold dos_to_utf8. fold st1. rewrite Hcp.
      eexists. by rewrite Hdw, wide_to_utf8_ascii.
    + unfold utf8_to_dos. fold st1. rewrite Hcp.
      rewrite utf8_to_wide_ascii, wide_to_dos_ascii by done.
      by eexists.
Qed.

Lemma printable_ascii_is_kept_witness :
  (exists st', dos_to_utf8 2 good_main_files [0x48; 0x69] 437 Registry_initial
               = Some ([0x48; 0x69], st')) /\
  (exists st', utf8_to_dos 2 good_main_files [0x48; 0x69] 437 Registry_initial
               = Some (true, [0x48; 0x69], st')).
Proof.
  apply (printable_ascii_is_kept 2 good_main_files Registry_initial
                                 [0x48; 0x69]).
  - repeat constructor; vm_compute; congruence.
  - intros cp rule. simpl. by rewrite lookup_empty.
  - rewrite good_main_files_rules. exact example_rules_acyclic.
  - vm_compute. lia.
  - vm_compute. lia.
Defined.

(** C10: [get_custom_code_page(0)] returns 0 and prepares nothing; with
    code page 0 [wide_to_dos] looks up no mapping, so that only the 7-bit
    ASCII shortcut and the ASCII fallback table can push a byte; and for
    a code page other than 0 whose preparation fails,
    [get_custom_code_page] returns what [get_default_code_page] returns:
    437 if code page 437 can be prepared, else 0. *)
Theorem code_page_zero_is_no_code_page fuel fs st :
  get_custom_code_page fuel fs 0 st = Some (0, st) /\
  find_mappings 0 st = (null_pointers, st) /\
  (forall str_in,
      utf8_to_dos fuel fs str_in 0 st =
      let st1 := load_config_if_needed fs st in
      let '(status1, str_wide) := utf8_to_wide str_in in
      match wide_to_dos_loop (length str_wide) fuel null_pointers str_wide 0
              {| dos_status := true; dos_out := [];
                 dos_registry := st1 |} with
      | None => None
      | Some s => Some (status1 && dos_status s, dos_out s, dos_registry s)
      end) /\
  (forall ascii grapheme str_out,
      push_normalized null_pointers ascii grapheme str_out =
      or_else (push_7bit grapheme str_out)
              (fun str_out => push_fallback ascii grapheme str_out)) /\
  (forall rules grapheme str_out r,
      push_decomposed fuel rules null_pointers grapheme str_out = Some r ->
      r = (false, str_out)) /\
  (forall code_page st1,
      code_page <> 0 ->
      prepare_code_page fuel fuel fs (deduplicate_code_page code_page st) st
      = Some (false, st1) ->
      get_custom_code_page fuel fs code_page st
      = get_default_code_page fuel fs st1 /\
      forall prepared st2,
        prepare_code_page fuel fuel fs 437 st1 = Some (prepared, st2) ->
        get_custom_code_page fuel fs code_page st =
        Some (if prepared then (437, st2)
              else (0, warn_default_code_page st2))).
Proof.
  split_and!.
  - done.
  - done.
  - intros str_in. unfold utf8_to_dos, wide_to_dos. simpl.
    destruct (utf8_to_wide str_in) as [status1 str_wide].
    by destruct (wide_to_dos_loop _ _ _ _ _ _).
  - intros ascii grapheme str_out.
    unfold push_normalized, or_else, push_code_page. simpl.
    by destruct (push_7bit grapheme str_out) as [[] ?].
  - intros rules grapheme str_out r. unfold push_decomposed.
    destruct (Decompose fuel rules grapheme); [|done]. by intros [= <-].
  - intros code_page st1 Hcp Hprep.
    assert (get_custom_code_page fuel fs code_page st
            = get_default_code_page fuel fs st1) as Heq.
    { unfold get_custom_code_page.
      destruct (Z.eqb_spec code_page 0); [done|]. by rewrite Hprep. }
    split; [done|]. intros prepared st2 H437.
    rewrite Heq. unfold get_default_code_page, default_code_page.
    rewrite H437. by destruct prepared.
Qed.

Lemma code_page_zero_is_no_code_page_witness :
  let st := load_config_if_needed good_main_files Registry_initial in
  exists st2,
    get_custom_code_page 2 good_main_files 850 st = Some (437, st2).
Proof.
  intros st.
  destruct (code_page_zero_is_no_code_page 2 good_main_files st)
    as (_ & _ & _ & _ & _ & H).
  destruct (H 850 (erase_mappings 850 st)) as [_ H437].
  - lia.
  - vm_compute. reflexivity.
  - eexists. apply (H437 true). vm_compute. reflexivity.
Defined.

(** * The UTF-8 codec: valid sequences and the round trip *)

(** A check that holds on every number of a range holds on each. *)
Lemma holds_from_spec (f : Z -> bool) count :
  forall lo x,
    holds_from f count lo = true -> lo <= x < lo + Z.of_nat count ->
    f x = true.
Proof.
  induction count as [|count IH]; intros lo x; simpl holds_from; [lia|].
  intros [Hlo Hrest]%andb_true_iff Hx.
  destruct (decide (x = lo)) as [->|Hne]; [done|].
  apply (IH (lo + 1)); [done|lia].
Qed.

Lemma encode_2_bytes_checked cp :
  0x80 <= cp < 0x800 -> encode_2_bytes_ok cp = true.
Proof.
  intros Hcp.
  apply (holds_from_spec encode_2_bytes_ok (Z.to_nat (0x800 - 0x80)) 0x80);
    [|lia].
  vm_compute. reflexivity.
Qed.

Lemma encode_3_bytes_checked cp :
  0x800 <= cp < 0x10000 -> encode_3_bytes_ok cp = true.
Proof.
  intros Hcp.
  apply (holds_from_spec encode_3_bytes_ok (Z.to_nat (0x10000 - 0x800))
                         0x800); [|lia].
  vm_compute. reflexivity.
Qed.

(** What the loop body of [utf8_to_wide] does at a 2-byte or 3-byte lead
    byte that is followed by the continuation bytes it needs: the bits
    are put together, whatever they are. *)
Lemma utf8_decode_at_valid str_in i status :
  let byte_1 := byte_at str_in i in
  let byte_2 := byte_2_at str_in i in
  let byte_3 := byte_3_at str_in i in
  (0xc0 <= byte_1 < 0xe0 -> is_continuation byte_2 = true ->
   utf8_decode_at str_in i status =
   (S i, status, (byte_1 - 0xc0) * 64 + (byte_2 - 0x80))) /\
  (0xe0 <= byte_1 < 0xf0 -> is_continuation byte_2 = true ->
   is_continuation byte_3 = true ->
   utf8_decode_at str_in i status =
   (S (S i), status,
    ((byte_1 - 0xe0) * 64 + (byte_2 - 0x80)) * 64 + (byte_3 - 0x80))).
Proof.
  intros byte_1 byte_2 byte_3.
  assert (forall b, is_continuation b = true -> 0x80 <= b < 0xc0) as Hcont.
  { intros b. unfold is_continuation, decode_threshold_non_ascii,
      decode_threshold_2_bytes. lia. }
  unfold utf8_decode_at. fold byte_1 byte_2 byte_3.
  clearbody byte_1 byte_2 byte_3.
  unfold decode_threshold_6_bytes, decode_threshold_5_bytes,
    decode_threshold_4_bytes, decode_threshold_3_bytes,
    decode_threshold_2_bytes, decode_threshold_non_ascii.
  unfold uint8, uint32, uint16.
  split.
  - intros Hr H2. rewrite H2. apply Hcont in H2.
    case_thresholds byte_1.
    rewrite ?Z.shiftl_mul_pow2 by lia. change (2 ^ 6) with 64.
    unwrap. f_equal. lia.
  - intros Hr H2 H3. rewrite H2, H3. apply Hcont in H2, H3.
    case_thresholds byte_1.
    cbn [andb]. rewrite ?Z.shiftl_mul_pow2 by lia. change (2 ^ 6) with 64.
    unwrap. f_equal. lia.
Qed.

Lemma byte_at_app pre l k :
  byte_at (pre ++ l) (length pre + k) = uint8 (nth k l 0).
Proof. unfold byte_at. by rewrite app_nth2_plus. Qed.

Lemma byte_at_middle pre b rest :
  byte_at (pre ++ b :: rest) (length pre) = uint8 b.
Proof.
  pose proof (byte_at_app pre (b :: rest) 0) as H.
  by rewrite Nat.add_0_r in H.
Qed.

Lemma byte_2_at_middle pre b b' rest :
  byte_2_at (pre ++ b :: b' :: rest) (length pre) = uint8 b'.
Proof.
  unfold byte_2_at. rewrite length_app. cbn [length].
  match goal with |- context [(1 <=? ?n)%nat] =>
    destruct (Nat.leb_spec 1 n); [|lia] end.
  by rewrite byte_at_app.
Qed.

Lemma byte_3_at_middle pre b b' b'' rest :
  byte_3_at (pre ++ b :: b' :: b'' :: rest) (length pre) = uint8 b''.
Proof.
  unfold byte_3_at. rewrite length_app. cbn [length].
  match goal with |- context [(2 <=? ?n)%nat] =>
    destruct (Nat.leb_spec 2 n); [|lia] end.
  by rewrite byte_at_app.
Qed.

Lemma uint8_idemp x : uint8 (uint8 x) = uint8 x.
Proof. unfold uint8. apply Z.mod_mod. lia. Qed.

Lemma wide_to_utf8_step_app str_out cp :
  wide_to_utf8_step str_out cp = str_out ++ utf8_bytes cp.
Proof.
  unfold utf8_bytes, wide_to_utf8_step, push_utf8.
  repeat match goal with |- context [if ?b then _ else _] => destruct b end;
    simpl; by rewrite <- ?app_assoc.
Qed.

Lemma fold_wide_to_utf8_step l str_out :
  fold_left wide_to_utf8_step l str_out = str_out ++ wide_to_utf8 l.
Proof.
  unfold wide_to_utf8. revert str_out.
  induction l as [|cp l IH]; intros str_out; simpl.
  - by rewrite app_nil_r.
  - rewrite IH, (IH (wide_to_utf8_step [] cp)), wide_to_utf8_step_app.
    by rewrite <- app_assoc.
Qed.

Lemma wide_to_utf8_cons cp l :
  wide_to_utf8 (cp :: l) = utf8_bytes cp ++ wide_to_utf8 l.
Proof. unfold wide_to_utf8 at 1. simpl. apply fold_wide_to_utf8_step. Qed.

(** The decoder reads back what the encoder wrote for one code point. *)
Lemma utf8_decode_at_utf8_bytes pre cp rest status :
  is_uint16 cp ->
  utf8_decode_at (pre ++ utf8_bytes cp ++ rest) (length pre) status =
  ((length pre + length (utf8_bytes cp) - 1)%nat, status, cp).
Proof.
  intros Hcp. unfold is_uint16 in Hcp.
  unfold utf8_bytes, wide_to_utf8_step, push_utf8,
    encode_threshold_2_bytes, encode_threshold_3_bytes.
  destruct (Z.ltb_spec cp 128).
  - simpl. rewrite utf8_decode_at_ascii.
    + rewrite nth_middle. unfold uint8. rewrite Z.mod_small by lia.
      f_equal. f_equal. lia.
    + rewrite nth_middle. unfold uint8. rewrite Z.mod_small; lia.
  - destruct (Z.ltb_spec cp 2048).
    + pose proof (encode_2_bytes_checked cp) as Hok.
      unfold encode_2_bytes_ok in Hok. cbv zeta in Hok. simpl.
      set (b1 := uint8 (Z.lor (Z.shiftr cp 6) 192)) in *.
      set (b2 := uint8 (Z.lor (Z.land 63 cp) 128)) in *.
      destruct (utf8_decode_at_valid (pre ++ b1 :: b2 :: rest) (length pre)
                  status) as [H2 _].
      rewrite byte_at_middle, byte_2_at_middle in H2.
      unfold b1, b2 in H2. rewrite !uint8_idemp in H2. fold b1 b2 in H2.
      rewrite H2.
      * f_equal; [f_equal; lia|]. lia.
      * lia.
      * unfold is_continuation, decode_threshold_non_ascii,
          decode_threshold_2_bytes. lia.
    + pose proof (encode_3_bytes_checked cp) as Hok.
      unfold encode_3_bytes_ok in Hok. cbv zeta in Hok. simpl.
      set (b1 := uint8 (Z.lor (Z.shiftr cp 12) 224)) in *.
      set (b2 := uint8 (Z.lor (Z.land 63 (Z.shiftr cp 6)) 128)) in *.
      set (b3 := uint8 (Z.lor (Z.land 63 cp) 128)) in *.
      destruct (utf8_decode_at_valid (pre ++ b1 :: b2 :: b3 :: rest)
                  (length pre) status) as [_ H3].
      rewrite byte_at_middle, byte_2_at_middle, byte_3_at_middle in H3.
      unfold b1, b2, b3 in H3. rewrite !uint8_idemp in H3.
      fold b1 b2 b3 in H3.
      rewrite H3.
      * f_equal; [f_equal; lia|]. lia.
      * lia.
      * unfold is_continuation, decode_threshold_non_ascii,
          decode_threshold_2_bytes. lia.
      * unfold is_continuation, decode_threshold_non_ascii,
          decode_threshold_2_bytes. lia.
Qed.

Lemma utf8_bytes_length cp : (1 <= length (utf8_bytes cp) <= 3)%nat.
Proof.
  unfold utf8_bytes, wide_to_utf8_step, push_utf8.
  repeat match goal with |- context [if ?b then _ else _] => destruct b end;
    simpl; lia.
Qed.

Lemma utf8_to_wide_loop_encoded l pre turns status str_out :
  Forall is_uint16 l -> (length l <= turns)%nat ->
  utf8_to_wide_loop turns (pre ++ wide_to_utf8 l) (length pre) status str_out
  = (status, str_out ++ l).
Proof.
  intros Hl. revert pre turns str_out.
  induction Hl as [|cp l Hcp _ IH]; intros pre turns str_out Hturns.
  - change (wide_to_utf8 []) with (@nil Z). rewrite !app_nil_r.
    destruct turns; simpl; [done|].
    destruct (Nat.ltb_spec (length pre) (length pre)); [lia|done].
  - destruct turns as [|turns]; [simpl in Hturns; lia|].
    rewrite wide_to_utf8_cons. simpl.
    pose proof (utf8_bytes_length cp) as Hlen.
    destruct (Nat.ltb_spec (length pre)
                (length (pre ++ utf8_bytes cp ++ wide_to_utf8 l))) as [_|Hge].
    2: { rewrite !length_app in Hge. lia. }
    rewrite utf8_decode_at_utf8_bytes by done.
    replace (S (length pre + length (utf8_bytes cp) - 1))
      with (length (pre ++ utf8_bytes cp))
      by (rewrite length_app; lia).
    rewrite (app_assoc pre). rewrite IH by (simpl in Hturns; lia).
    by rewrite <- app_assoc.
Qed.

Lemma wide_to_utf8_length l :
  (length l <= length (wide_to_utf8 l) <= 3 * length l)%nat.
Proof.
  induction l as [|cp l IH]; [simpl; lia|].
  rewrite wide_to_utf8_cons, length_app. simpl.
  pose proof (utf8_bytes_length cp). lia.
Qed.

Lemma utf8_to_wide_encoded l :
  Forall is_uint16 l -> utf8_to_wide (wide_to_utf8 l) = (true, l).
Proof.
  intros Hl. unfold utf8_to_wide.
  apply (utf8_to_wide_loop_encoded l [] _ true [] Hl).
  apply wide_to_utf8_length.
Qed.

(** X1: [wide_to_utf8] followed by [utf8_to_wide] gives back every
    sequence of 16-bit code points, with the status [true]; the encoding
    takes one to three bytes for each code point, and two such sequences
    with the same encoding are the same. *)
Theorem utf8_round_trip l :
  Forall is_uint16 l ->
  utf8_to_wide (wide_to_utf8 l) = (true, l) /\
  (length l <= length (wide_to_utf8 l) <= 3 * length l)%nat /\
  (forall l', Forall is_uint16 l' ->
              wide_to_utf8 l' = wide_to_utf8 l -> l' = l).
Proof.
  intros Hl. split; [|split].
  - by apply utf8_to_wide_encoded.
  - apply wide_to_utf8_length.
  - intros l' Hl' Heq.
    pose proof (utf8_to_wide_encoded l' Hl') as H'.
    rewrite Heq, (utf8_to_wide_encoded l Hl) in H'. congruence.
Qed.

Lemma utf8_round_trip_witness :
  utf8_to_wide (wide_to_utf8 [0x41; 0xe9; 0x20ac; 0xd800; 0xffff; 0])
  = (true, [0x41; 0xe9; 0x20ac; 0xd800; 0xffff; 0]).
Proof.
  eapply proj1.
  apply (utf8_round_trip [0x41; 0xe9; 0x20ac; 0xd800; 0xffff; 0]).
  repeat constructor; unfold is_uint16; lia.
Defined.

Lemma utf8_decode_at_uint16 str_in i status :
  is_uint16 (utf8_decode_at str_in i status).2.
Proof.
  unfold utf8_decode_at, advance, is_uint16.
  repeat match goal with
         | |- context [if ?b then _ else _] => destruct b
         end; simpl; unfold uint16; apply Z.mod_pos_bound; lia.
Qed.

Lemma utf8_to_wide_loop_bounds turns str_in i status str_out :
  Forall is_uint16 str_out ->
  let r := utf8_to_wide_loop turns str_in i status str_out in
  (length r.2 <= length str_out + (length str_in - i))%nat /\
  Forall is_uint16 r.2.
Proof.
  revert i status str_out.
  induction turns as [|turns IH]; intros i status str_out Hout; simpl.
  - split; [lia|done].
  - destruct (Nat.ltb_spec i (length str_in)); [|split; [simpl; lia|done]].
    pose proof (utf8_decode_at_ge str_in i status) as Hge.
    pose proof (utf8_decode_at_uint16 str_in i status) as Hcp.
    destruct (utf8_decode_at str_in i status) as [[i' status'] cp].
    simpl in Hge, Hcp.
    destruct (IH (S i') status' (str_out ++ [cp])) as [Hlen Hall].
    { apply Forall_app. split; [done|]. by constructor. }
    split; [|done]. rewrite length_app in Hlen. simpl in Hlen. lia.
Qed.

(** X2: whatever bytes it is given, [utf8_to_wide] pushes at most one code
    point for each input byte, and every code point it pushes is a 16-bit
    value. *)
Theorem utf8_to_wide_bounds str_in :
  (length (utf8_to_wide str_in).2 <= length str_in)%nat /\
  Forall is_uint16 (utf8_to_wide str_in).2.
Proof.
  unfold utf8_to_wide.
  destruct (utf8_to_wide_loop_bounds (length str_in) str_in 0 true [])
    as [Hlen Hall]; [constructor|].
  split; [|done]. simpl in Hlen. lia.
Qed.

(** * More on the Grapheme type *)

(** X3: adding the same mark a second time changes nothing, whatever the
    mark and the grapheme are. *)
Theorem AddMark_twice m g : AddMark m (AddMark m g) = AddMark m g.
Proof.
  destruct (is_valid g) eqn:Hv.
  2: { unfold AddMark. rewrite Hv. simpl. by rewrite Hv. }
  destruct (negb (is_combining_mark m) || is_empty g) eqn:Hm.
  { unfold AddMark. rewrite Hv, Hm. done. }
  destruct (std_find m (marks g)) eqn:Hf.
  - unfold AddMark. rewrite Hv, Hm, Hf. simpl. by rewrite ?Hv, ?Hm, ?Hf.
  - unfold AddMark. rewrite Hv, Hm, Hf. simpl. rewrite ?Hv, ?Hm. simpl.
    assert (std_find m (marks g ++ [m]) = true) as ->; [|done].
    apply std_find_spec, elem_of_app. right. by left.
Qed.

Lemma AddMarks_prefix l g :
  is_valid g = true -> is_empty g = false ->
  Forall (fun m => is_combining_mark m = true) l ->
  marks g `prefix_of` marks (AddMarks l g).
Proof.
  unfold AddMarks. revert g.
  induction l as [|m l IH]; intros g Hv He Hl; simpl; [done|].
  apply Forall_cons in Hl as [Hm Hl].
  destruct (AddMark_combining m g Hv He Hm) as (Hv' & He' & _ & _).
  etrans; [|by apply IH].
  unfold AddMark. rewrite Hv, Hm, He. simpl.
  destruct (std_find m (marks g)); simpl; [done|]. by apply prefix_app_r.
Qed.

Lemma Decompose_loop_valid rules fuel g g' :
  rules_constructed rules ->
  is_valid g = true -> is_empty g = false ->
  Decompose_loop fuel rules g = Some g' ->
  is_valid g' = true /\ is_empty g' = false /\
  marks g `prefix_of` marks g' /\ rules !! code_point g' = None.
Proof.
  intros Hrules. revert g.
  induction fuel as [|fuel IH]; intros g Hv He; simpl.
  - destruct (rules !! code_point g) eqn:Hr; [done|]. by intros [= <-].
  - destruct (rules !! code_point g) as [rule|] eqn:Hr;
      [|by intros [= <-]].
    assert (Forall (fun m => is_combining_mark m = true) (marks rule)) as Hm.
    { eapply constructed_combining, Hrules, Hr. }
    destruct (Decompose_step_valid rule g Hv He Hm) as (Hv' & He' & _).
    intros HD. destruct (IH _ Hv' He' HD) as (? & ? & Hpre & ?).
    split_and!; try done.
    etrans; [|exact Hpre].
    unfold Decompose_step.
    match goal with |- _ `prefix_of` marks (AddMarks _ ?g0) =>
      apply (AddMarks_prefix (marks rule) g0 Hv He Hm) end.
Qed.

Lemma grapheme_shape_valid g :
  is_valid g = true -> is_empty g = false -> grapheme_shape g.
Proof. intros Hv He. split; congruence. Qed.

Lemma AddMark_shape m g : grapheme_shape g -> grapheme_shape (AddMark m g).
Proof.
  intros Hg. unfold AddMark.
  destruct (is_valid g) eqn:Hv; simpl; [|done].
  destruct (negb (is_combining_mark m) || is_empty g) eqn:Hm; [by split|].
  apply orb_false_iff in Hm as [_ He].
  destruct (std_find m (marks g)); [done|].
  apply grapheme_shape_valid; done.
Qed.

Lemma StripMarks_shape g : grapheme_shape g -> grapheme_shape (StripMarks g).
Proof.
  intros [Hempty Hinvalid]. split; simpl.
  - intros He. by rewrite (Hempty He).
  - intros Hv. by rewrite (Hinvalid Hv).
Qed.

Lemma Decompose_shape fuel rules g g' :
  rules_constructed rules -> grapheme_shape g ->
  Decompose fuel rules g = Some g' -> grapheme_shape g'.
Proof.
  intros Hrules Hg. unfold Decompose.
  destruct (is_valid g) eqn:Hv; simpl; [|by intros [= <-]].
  destruct (is_empty g) eqn:He; simpl; [by intros [= <-]|].
  intros HD. apply Decompose_loop_valid in HD as (? & ? & _); try done.
  by apply grapheme_shape_valid.
Qed.

Lemma constructed_shape g : constructed g -> grapheme_shape g.
Proof.
  induction 1 as [ |cp|g _ _|m g _ IH|g _ IH|fuel rules g g' Hr _ _ IH HD].
  - by split.
  - unfold Grapheme_new. destruct (is_combining_mark cp); by split.
  - by split.
  - by apply AddMark_shape.
  - by apply StripMarks_shape.
  - by eapply Decompose_shape.
Qed.

(** X4: the class invariant of Grapheme, for every value that the
    constructors and the public member functions produce: the marks are
    combining marks without repetition, [marks_sorted] is sorted and holds
    the same marks, an empty value is the default-constructed one, and an
    invalid value is the bare replacement character '?'. *)
Theorem Grapheme_class_invariant g :
  constructed g ->
  Forall (fun m => is_combining_mark m = true) (marks g) /\
  NoDup (marks g) /\
  Sorted Z.le (marks_sorted g) /\
  marks_sorted g ≡ₚ marks g /\
  (is_empty g = true -> g = Grapheme_default) /\
  (is_valid g = false ->
   g = {| code_point := unknown_character; marks := []; marks_sorted := [];
          is_empty := false; is_valid := false |}).
Proof.
  intros Hg. destruct (constructed_inv g Hg) as [Hc Hn Hs Hp _].
  destruct (constructed_shape g Hg) as [He Hv]. by split_and!.
Qed.

Lemma Grapheme_class_invariant_witness :
  let g := AddMark 0x0301 (AddMark 0x0323 (Grapheme_new 0x61)) in
  Forall (fun m => is_combining_mark m = true) (marks g) /\
  NoDup (marks g) /\
  Sorted Z.le (marks_sorted g) /\
  marks_sorted g ≡ₚ marks g /\
  (is_empty g = true -> g = Grapheme_default) /\
  (is_valid g = false ->
   g = {| code_point := unknown_character; marks := []; marks_sorted := [];
          is_empty := false; is_valid := false |}).
Proof.
  apply (Grapheme_class_invariant
           (AddMark 0x0301 (AddMark 0x0323 (Grapheme_new 0x61)))).
  apply constructed_AddMark, constructed_AddMark, constructed_new.
Defined.

(** ** The order of [operator<] *)

Lemma lt_marks_refl l : lt_marks l l = None.
Proof.
  induction l as [|x l IH]; simpl; [done|].
  destruct (Z.ltb_spec x x); [lia|].
  destruct (Z.gtb_spec x x); [lia|done].
Qed.

Lemma lt_marks_None l1 l2 :
  length l1 = length l2 -> lt_marks l1 l2 = None -> l1 = l2.
Proof.
  revert l2. induction l1 as [|x l1 IH]; intros [|y l2] Hlen; simpl in *;
    try done.
  destruct (Z.ltb_spec x y); [done|].
  destruct (Z.gtb_spec x y); [done|].
  intros Hn. f_equal; [lia|]. apply IH; [lia|done].
Qed.

Lemma lt_marks_swap l1 l2 :
  length l1 = length l2 ->
  lt_marks l1 l2 = Some false -> lt_marks l2 l1 = Some true.
Proof.
  revert l2. induction l1 as [|x l1 IH]; intros [|y l2] Hlen; simpl in *;
    try done.
  destruct (Z.ltb_spec x y); [done|].
  destruct (Z.gtb_spec x y).
  - intros _. destruct (Z.ltb_spec y x); [done|lia].
  - intros Hf. destruct (Z.ltb_spec y x); [lia|].
    destruct (Z.gtb_spec y x); [lia|]. apply IH; [lia|done].
Qed.

Lemma lt_marks_asym l1 l2 :
  lt_marks l1 l2 = Some true -> lt_marks l2 l1 <> Some true.
Proof.
  revert l2. induction l1 as [|x l1 IH]; intros [|y l2]; simpl; try done.
  destruct (Z.ltb_spec x y).
  - intros _. destruct (Z.ltb_spec y x); [lia|].
    destruct (Z.gtb_spec y x); [done|lia].
  - destruct (Z.gtb_spec x y); [done|].
    intros Ht. destruct (Z.ltb_spec y x); [lia|].
    destruct (Z.gtb_spec y x); [lia|]. by apply IH.
Qed.

Lemma lt_marks_trans l1 l2 l3 :
  lt_marks l1 l2 = Some true -> lt_marks l2 l3 = Some true ->
  lt_marks l1 l3 = Some true.
Proof.
  revert l2 l3.
  induction l1 as [|x l1 IH]; intros [|y l2] [|z l3]; simpl; try done.
  destruct (Z.ltb_spec x y), (Z.ltb_spec y z), (Z.ltb_spec x z); try done;
    try lia;
    repeat match goal with
           | |- context [?a >? ?b] => destruct (Z.gtb_spec a b)
           end; try done; try lia.
  apply IH.
Qed.

Lemma Grapheme_ltb_unfold g1 g2 :
  Grapheme_ltb g1 g2 =
  if code_point g1 <? code_point g2 then true
  else if code_point g1 >? code_point g2 then false
  else if (length (marks_sorted g1) <? length (marks_sorted g2))%nat
  then true
  else if (length (marks_sorted g2) <? length (marks_sorted g1))%nat
  then false
  else match lt_marks (marks_sorted g1) (marks_sorted g2) with
       | Some b => b
       | None => false
       end.
Proof.
  unfold Grapheme_ltb, operator_lt.
  destruct (code_point g1 <? code_point g2); [done|].
  destruct (code_point g1 >? code_point g2); [done|].
  destruct (bool_decide (marks_sorted g1 = []) &&
            bool_decide (marks_sorted g2 = [])) eqn:Hnil.
  - apply andb_true_iff in Hnil as [H1 H2].
    apply bool_decide_eq_true in H1, H2. by rewrite H1, H2.
  - destruct (length (marks_sorted g1) <? length (marks_sorted g2))%nat;
      [done|].
    destruct (length (marks_sorted g2) <? length (marks_sorted g1))%nat;
      [done|].
    by destruct (lt_marks (marks_sorted g1) (marks_sorted g2)).
Qed.

Ltac case_ltb :=
  repeat match goal with
         | |- context [?a <? ?b] => destruct (Z.ltb_spec a b)
         | |- context [?a >? ?b] => destruct (Z.gtb_spec a b)
         | |- context [(?a <? ?b)%nat] => destruct (Nat.ltb_spec a b)
         | H : context [?a <? ?b] |- _ => destruct (Z.ltb_spec a b)
         | H : context [?a >? ?b] |- _ => destruct (Z.gtb_spec a b)
         | H : context [(?a <? ?b)%nat] |- _ => destruct (Nat.ltb_spec a b)
         end.

(** X5: [operator<] is a strict order: it is irreflexive, asymmetric and
    transitive, as [std::map] asks of its comparison. *)
Theorem Grapheme_ltb_strict_order :
  (forall g, Grapheme_ltb g g = false) /\
  (forall g1 g2, Grapheme_ltb g1 g2 = true -> Grapheme_ltb g2 g1 = false) /\
  (forall g1 g2 g3,
      Grapheme_ltb g1 g2 = true -> Grapheme_ltb g2 g3 = true ->
      Grapheme_ltb g1 g3 = true).
Proof.
  split_and!.
  - intros g. rewrite Grapheme_ltb_unfold. case_ltb; try lia.
    by rewrite lt_marks_refl.
  - intros g1 g2. rewrite !Grapheme_ltb_unfold. case_ltb; try done; try lia.
    destruct (lt_marks (marks_sorted g1) (marks_sorted g2)) as [[]|] eqn:H12;
      try done.
    intros _. apply lt_marks_asym in H12.
    by destruct (lt_marks (marks_sorted g2) (marks_sorted g1)) as [[]|].
  - intros g1 g2 g3. rewrite !Grapheme_ltb_unfold.
    case_ltb; try done; try lia.
    destruct (lt_marks (marks_sorted g1) (marks_sorted g2)) as [[]|] eqn:H12;
      try done.
    destruct (lt_marks (marks_sorted g2) (marks_sorted g3)) as [[]|] eqn:H23;
      try done.
    by rewrite (lt_marks_trans _ _ _ H12 H23).
Qed.

Lemma Grapheme_ltb_incomparable g1 g2 :
  Grapheme_ltb g1 g2 = false /\ Grapheme_ltb g2 g1 = false <->
  code_point g1 = code_point g2 /\ marks_sorted g1 = marks_sorted g2.
Proof.
  split.
  - rewrite !Grapheme_ltb_unfold. case_ltb; try (intros [? ?]; done);
      try lia.
    intros [H12 H21]. split; [lia|].
    apply lt_marks_None; [lia|].
    destruct (lt_marks (marks_sorted g1) (marks_sorted g2)) as [[]|] eqn:Hlt;
      try done.
    apply lt_marks_swap in Hlt; [|lia]. by rewrite Hlt in H21.
  - intros [Hc Hm]. rewrite !Grapheme_ltb_unfold, Hc, Hm.
    case_ltb; try lia. by rewrite lt_marks_refl.
Qed.

(** X6: two graphemes are the same key of a [std::map] exactly when they
    have the same code point and the same sorted marks.  Graphemes that
    are [==] are the same key, but not the other way round: the
    default-constructed (empty) grapheme and [Grapheme(0x20)] are the same
    key and are not [==]. *)
Theorem Grapheme_ltb_equivalence g1 g2 :
  (Grapheme_ltb g1 g2 = false /\ Grapheme_ltb g2 g1 = false <->
   code_point g1 = code_point g2 /\ marks_sorted g1 = marks_sorted g2) /\
  (operator_eq g1 g2 = true ->
   Grapheme_ltb g1 g2 = false /\ Grapheme_ltb g2 g1 = false) /\
  Grapheme_ltb Grapheme_default (Grapheme_new 0x20) = false /\
  Grapheme_ltb (Grapheme_new 0x20) Grapheme_default = false /\
  operator_eq Grapheme_default (Grapheme_new 0x20) = false.
Proof.
  split_and!; try by vm_compute.
  - apply Grapheme_ltb_incomparable.
  - intros Heq. apply operator_eq_spec in Heq as (_ & _ & Hc & Hm).
    by apply Grapheme_ltb_incomparable.
Qed.

(** X7: what [Decompose] returns: validity and emptiness are kept, the
    marks that were there stay in front in their order, the code point of
    a valid, non-empty result has no decomposition rule any more, and an
    invalid or empty grapheme is returned as it was. *)
Theorem Decompose_result fuel rules g g' :
  rules_constructed rules -> Decompose fuel rules g = Some g' ->
  is_valid g' = is_valid g /\ is_empty g' = is_empty g /\
  marks g `prefix_of` marks g' /\
  (is_valid g = true -> is_empty g = false ->
   rules !! code_point g' = None) /\
  (is_valid g = false \/ is_empty g = true -> g' = g).
Proof.
  intros Hrules. unfold Decompose.
  destruct (is_valid g) eqn:Hv; simpl.
  2: { intros [= <-]. split_and!; try done. }
  destruct (is_empty g) eqn:He; simpl.
  { intros [= <-]. split_and!; try done. }
  intros HD.
  apply Decompose_loop_valid in HD as (Hv' & He' & Hpre & Hnone); try done.
  split_and!; try done. intros [?|?]; done.
Qed.

Lemma Decompose_result_witness :
  exists g',
    Decompose 1 example_rules (AddMark 0x0323 (Grapheme_new 0xe9)) = Some g' /\
    marks (AddMark 0x0323 (Grapheme_new 0xe9)) `prefix_of` marks g' /\
    example_rules !! code_point g' = None.
Proof.
  eexists. split; [by vm_compute|].
  destruct (Decompose_result 1 example_rules
              (AddMark 0x0323 (Grapheme_new 0xe9))
              {| code_point := 0x65; marks := [0x0323; 0x0301];
                 marks_sorted := [0x0301; 0x0323];
                 is_empty := false; is_valid := true |}
              example_rules_constructed) as (_ & _ & Hp & Hn & _).
  - by vm_compute.
  - split; [exact Hp|]. by apply Hn.
Defined.

(** * What the loaders accept *)

Lemma get_hex_8bit_range token b :
  get_hex_8bit token = Some b -> 0 <= b <= 0xff.
Proof.
  unfold get_hex_8bit.
  repeat match goal with
         | |- context [match ?x with _ => _ end] => destruct x; try done
         end.
  intros [= <-]. unfold uint8.
  match goal with |- _ <= ?x mod 256 <= _ =>
    pose proof (Z.mod_pos_bound x 256) end. lia.
Qed.

Lemma get_hex_16bit_range token cp :
  get_hex_16bit token = Some cp -> is_uint16 cp.
Proof.
  unfold get_hex_16bit.
  repeat match goal with
         | |- context [match ?x with _ => _ end] => destruct x; try done
         end.
  intros [= <-]. unfold uint16, is_uint16. apply Z.mod_pos_bound. lia.
Qed.

Lemma get_code_page_range token cp :
  get_code_page token = Some cp -> code_page_number cp.
Proof.
  unfold get_code_page, UINT16_MAX, code_page_number.
  destruct (_ || _); [done|]. destruct (negb _); [done|].
  destruct (Z.ltb_spec (atoi_digits token 0) 1); [done|].
  destruct (Z.gtb_spec (atoi_digits token 0) 65535); [done|]. simpl.
  intros [= <-]. unfold uint16. rewrite Z.mod_small; lia.
Qed.

Lemma smap_try_emplace_Forall {K V} (lt : K -> K -> bool)
      (P : K * V -> Prop) k v m :
  Forall P m ->
  ((smap_try_emplace lt k v m).2 = true -> P (k, v)) ->
  Forall P (smap_try_emplace lt k v m).1.
Proof.
  induction m as [|[k' v'] m IH]; simpl; intros Hm Hkv.
  - constructor; [by apply Hkv|done].
  - apply Forall_cons in Hm as [Hhd Hm].
    destruct (lt k' k).
    + destruct (smap_try_emplace lt k v m) as [m'' was_added]. simpl in *.
      constructor; [done|]. by apply IH.
    + destruct (lt k k'); simpl in *.
      * constructor; [by apply Hkv|]. by constructor.
      * by constructor.
Qed.

Lemma get_grapheme_invariant (P : Grapheme -> Prop) tokens grapheme :
  (forall cp, is_uint16 cp -> P (Grapheme_new cp)) ->
  (forall m g, is_uint16 m -> P g -> P (AddMark m g)) ->
  get_grapheme tokens = Some grapheme -> P grapheme.
Proof.
  intros Hnew Hadd. unfold get_grapheme.
  destruct (length tokens <? 2)%nat; [done|].
  destruct (get_hex_16bit (token_at tokens 1)) as [cp|] eqn:H1; [|done].
  apply get_hex_16bit_range in H1.
  assert (forall o : option Grapheme,
             (forall g, o = Some g -> P g) ->
             match o with
             | Some new_grapheme =>
                 if (4 <=? length tokens)%nat
                 then match get_hex_16bit (token_at tokens 3) with
                      | Some code_point =>
                          Some (AddMark code_point new_grapheme)
                      | None => None
                      end
                 else Some new_grapheme
             | None => None
             end = Some grapheme -> P grapheme) as Hlast.
  { intros [g|] Hg; [|done]. specialize (Hg g eq_refl).
    destruct (4 <=? length tokens)%nat.
    - destruct (get_hex_16bit (token_at tokens 3)) eqn:H3; [|done].
      apply get_hex_16bit_range in H3.
      intros [= <-]. by apply Hadd.
    - by intros [= <-]. }
  apply Hlast. intros g.
  destruct (3 <=? length tokens)%nat.
  - destruct (get_hex_16bit (token_at tokens 2)) eqn:H2; [|done].
    apply get_hex_16bit_range in H2.
    intros [= <-]. apply Hadd; [done|]. by apply Hnew.
  - intros [= <-]. by apply Hnew.
Qed.

Lemma get_grapheme_constructed tokens grapheme :
  get_grapheme tokens = Some grapheme -> constructed grapheme.
Proof.
  apply get_grapheme_invariant.
  - intros cp _. apply constructed_new.
  - intros m g _. apply constructed_AddMark.
Qed.

Lemma Grapheme_new_wide cp : is_uint16 cp -> grapheme_wide (Grapheme_new cp).
Proof.
  intros Hcp. unfold Grapheme_new.
  destruct (is_combining_mark cp); split; simpl; try done;
    unfold is_uint16, unknown_character; lia.
Qed.

Lemma AddMark_wide m g :
  is_uint16 m -> grapheme_wide g -> grapheme_wide (AddMark m g).
Proof.
  intros Hm [Hc Hg]. unfold AddMark.
  destruct (negb (is_valid g)); [done|].
  destruct (_ || _).
  { split; simpl; [|done]. unfold is_uint16, unknown_character. lia. }
  destruct (std_find m (marks g)); [done|].
  split; simpl; [done|]. apply Forall_app. split; [done|by constructor].
Qed.

Lemma get_grapheme_wide tokens grapheme :
  get_grapheme tokens = Some grapheme -> grapheme_wide grapheme.
Proof.
  apply get_grapheme_invariant;
    [apply Grapheme_new_wide | apply AddMark_wide].
Qed.

Lemma reverse_entry_ok_default character_code :
  0x80 <= character_code <= 0xff ->
  reverse_entry_ok (character_code, Grapheme_default).
Proof.
  intros Hc. split_and!; [simpl; lia..|done|apply constructed_default|].
  split; simpl; [|done]. unfold is_uint16. lia.
Qed.

Lemma import_mapping_code_page_body_ok n line_str m m' :
  Forall reverse_entry_ok m ->
  import_mapping_code_page_body n line_str m = Some m' ->
  Forall reverse_entry_ok m'.
Proof.
  intros Hm. unfold import_mapping_code_page_body.
  destruct (get_tokens line_str) as [[] tokens]; simpl; [|by intros [= <-]].
  destruct (get_hex_8bit (token_at tokens 0)) as [character_code|] eqn:Hhex;
    [|done].
  apply get_hex_8bit_range in Hhex. unfold decode_threshold_non_ascii.
  destruct (length tokens =? 1)%nat.
  { destruct (Z.geb_spec character_code 128); intros [= <-]; [|done].
    apply smap_try_emplace_Forall; [done|]. intros _.
    apply reverse_entry_ok_default. lia. }
  destruct (length tokens <=? 4)%nat; [|done].
  destruct (Z.geb_spec character_code 128); [|by intros [= <-]].
  destruct (get_grapheme tokens) as [grapheme|] eqn:Hg; [|done].
  pose proof (get_grapheme_wide _ _ Hg) as Hwide.
  apply get_grapheme_constructed in Hg.
  pose proof (smap_try_emplace_Forall Z.ltb reverse_entry_ok character_code
                grapheme m Hm) as Hall.
  unfold add_if_not_mapped.
  destruct (smap_try_emplace Z.ltb character_code grapheme m)
    as [new_mapping was_added].
  simpl in Hall. unfold check_grapheme_valid, IsValid.
  destruct was_added, (is_valid grapheme) eqn:Hv; simpl; try done;
    intros [= <-]; apply Hall; try done.
  intros _. split_and!; simpl; try done; lia.
Qed.

Lemma import_mapping_code_page_ok fs dir_name file_name mapping :
  import_mapping_code_page fs dir_name file_name = Some mapping ->
  Forall reverse_entry_ok mapping.
Proof.
  unfold import_mapping_code_page.
  destruct (fs dir_name file_name) as [in_file|]; [|done].
  destruct (while_get_line _ _ _ _) as [[new_mapping how]|] eqn:Hw; [|done].
  destruct (check_import_status in_file how _) eqn:Hc; [|done].
  intros [= <-].
  eapply (while_get_line_invariant _ (Forall reverse_entry_ok));
    [|constructor|exact Hw].
  intros n line_str a a'. apply import_mapping_code_page_body_ok.
Qed.

(** X9: a mapping that [import_mapping_code_page] returns is never empty,
    and each of its entries has a byte of the range 0x80..0xFF and a valid
    grapheme of 16-bit code points that the class interface can
    produce. *)
Theorem import_mapping_code_page_entries fs dir_name file_name mapping :
  import_mapping_code_page fs dir_name file_name = Some mapping ->
  mapping <> [] /\ Forall reverse_entry_ok mapping.
Proof.
  intros Hm. split; [|by eapply import_mapping_code_page_ok].
  revert Hm. unfold import_mapping_code_page.
  destruct (fs dir_name file_name) as [in_file|]; [|done].
  destruct (while_get_line _ _ _ _) as [[new_mapping how]|] eqn:Hw; [|done].
  destruct (check_import_status in_file how _) eqn:Hc; [|done].
  intros [= <-] ->. unfold check_import_status in Hc.
  rewrite bool_decide_eq_true_2 in Hc by done.
  by destruct how, (file_read_error in_file).
Qed.

Lemma entry_at_ok l cp :
  main_locals_ok l ->
  let entry := entry_at cp (new_config_mappings l) in
  (extends_code_page entry = 0 \/ code_page_number (extends_code_page entry))
  /\ Forall reverse_entry_ok (mapping entry).
Proof.
  intros [[Hm _ _] _]. unfold entry_at.
  destruct (new_config_mappings l !! cp) as [entry|] eqn:He; simpl.
  - destruct (Hm cp entry He) as (_ & _ & ? & ?). done.
  - split; [by left|constructor].
Qed.

Lemma entry_at_current l :
  main_locals_ok l -> curent_code_page l <> 0 ->
  let entry := entry_at (curent_code_page l) (new_config_mappings l) in
  code_page_number (curent_code_page l) /\ valid entry = true.
Proof.
  intros [[Hm _ _] [?|[entry He]]] Hc; [done|].
  unfold entry_at. rewrite He. simpl.
  destruct (Hm _ entry He) as (? & ? & _). done.
Qed.

(** Storing an entry for a code page keeps the tables in order. *)
Lemma main_locals_ok_store l cp entry empty current :
  main_locals_ok l ->
  code_page_number cp -> valid entry = true ->
  (extends_code_page entry = 0 \/ code_page_number (extends_code_page entry)) ->
  Forall reverse_entry_ok (mapping entry) ->
  current = 0 \/ current = cp \/
    (current = curent_code_page l /\ current <> 0) ->
  main_locals_ok
    {| file_empty := empty; curent_code_page := current;
       new_config_mappings := <[cp := entry]> (new_config_mappings l);
       new_config_duplicates := new_config_duplicates l;
       new_config_aliases := new_config_aliases l |}.
Proof.
  intros [[Hm Hd Ha] Hcur] Hcp Hv He Hmap Hcurrent. split; [split|]; simpl;
    try done.
  - intros cp' entry'. rewrite lookup_insert.
    destruct (decide (cp = cp')) as [<-|]; [|apply Hm].
    by intros [= <-].
  - destruct Hcurrent as [?|[->|[-> Hne]]]; [by left|right|right].
    + rewrite lookup_insert_eq. by eexists.
    + rewrite lookup_insert. destruct (decide _); [by eexists|].
      destruct Hcur; done.
Qed.

Lemma import_config_main_body_ok n line_str l l' :
  main_locals_ok l ->
  import_config_main_body n line_str l = Some l' ->
  main_locals_ok l'.
Proof.
  intros Hl. unfold import_config_main_body.
  destruct (get_tokens line_str) as [[] tokens]; simpl; [|by intros [= <-]].
  destruct (String.eqb (token_at tokens 0) "ALIAS").
  { unfold import_config_main_ALIAS. destruct (_ || _); [done|].
    destruct (get_hex_16bit (token_at tokens 1)) as [cp1|] eqn:H1; [|done].
    destruct (get_hex_16bit (token_at tokens 2)) as [cp2|] eqn:H2; [|done].
    apply get_hex_16bit_range in H1, H2.
    intros [= <-]. destruct Hl as [[Hm Hd Ha] _].
    split; [split|by left]; simpl; try done.
    destruct (length tokens =? 4)%nat;
      rewrite ?Forall_app, ?Forall_singleton; simpl; split_and!; done. }
  destruct (String.eqb (token_at tokens 0) "CODEPAGE").
  { unfold import_config_main_CODEPAGE.
    destruct (_ && _).
    - destruct (get_code_page (token_at tokens 1)) as [cp1|] eqn:H1; [|done].
      destruct (get_code_page (token_at tokens 3)) as [cp2|] eqn:H2; [|done].
      apply get_code_page_range in H1, H2.
      destruct (negb _); [done|]. intros [= <-].
      destruct Hl as [[Hm Hd Ha] _].
      split; [split|by left]; simpl; try done.
      intros cp cp'. rewrite lookup_insert.
      destruct (decide (cp1 = cp)) as [<-|]; [|apply Hd]. by intros [= <-].
    - destruct (negb (length tokens =? 2)%nat); [done|].
      destruct (get_code_page (token_at tokens 1)) as [cp|] eqn:H1; [|done].
      apply get_code_page_range in H1.
      destruct (negb _); [done|]. intros [= <-].
      destruct (entry_at_ok l cp Hl) as [He Hmap].
      apply main_locals_ok_store; simpl; try done. right. by left. }
  destruct (String.eqb (token_at tokens 0) "EXTENDS").
  { unfold import_config_main_EXTENDS.
    destruct (Z.eqb_spec (curent_code_page l) 0) as [|Hc]; [done|].
    destruct (entry_at_current l Hl Hc) as [Hcp Hv].
    destruct (entry_at_ok l (curent_code_page l) Hl) as [He Hmap].
    destruct (_ && _).
    - destruct (get_code_page (token_at tokens 2)) as [cp|] eqn:H1; [|done].
      apply get_code_page_range in H1. intros [= <-].
      apply main_locals_ok_store; simpl; try done; [by right|by left].
    - destruct (_ && _); [|done]. intros [= <-].
      apply main_locals_ok_store; simpl; try done. by left. }
  destruct (get_hex_8bit (token_at tokens 0)) as [character_code|] eqn:Hhex;
    [|done].
  apply get_hex_8bit_range in Hhex.
  unfold import_config_main_character, decode_threshold_non_ascii.
  destruct (Z.eqb_spec (curent_code_page l) 0) as [|Hc]; [done|].
  destruct (entry_at_current l Hl Hc) as [Hcp Hv].
  destruct (entry_at_ok l (curent_code_page l) Hl) as [He Hmap].
  assert (forall new_mapping empty,
             Forall reverse_entry_ok new_mapping ->
             main_locals_ok
               {| file_empty := empty;
                  curent_code_page := curent_code_page l;
                  new_config_mappings :=
                    <[curent_code_page l :=
                        {| valid := valid (entry_at (curent_code_page l)
                                             (new_config_mappings l));
                           mapping := new_mapping;
                           extends_code_page :=
                             extends_code_page
                               (entry_at (curent_code_page l)
                                         (new_config_mappings l));
                           extends_dir :=
                             extends_dir (entry_at (curent_code_page l)
                                            (new_config_mappings l));
                           extends_file :=
                             extends_file (entry_at (curent_code_page l)
                                             (new_config_mappings l)) |}]>
                      (new_config_mappings l);
                  new_config_duplicates := new_config_duplicates l;
                  new_config_aliases := new_config_aliases l |}) as Hstore.
  { intros new_mapping empty Hnew.
    apply main_locals_ok_store; simpl; try done. right. by left. }
  assert (main_locals_ok
            {| file_empty := file_empty l;
               curent_code_page := curent_code_page l;
               new_config_mappings :=
                 <[curent_code_page l :=
                     entry_at (curent_code_page l) (new_config_mappings l)]>
                   (new_config_mappings l);
               new_config_duplicates := new_config_duplicates l;
               new_config_aliases := new_config_aliases l |}) as Hsame.
  { apply main_locals_ok_store; simpl; try done. right. by left. }
  destruct (length tokens =? 1)%nat.
  { destruct (Z.geb_spec character_code 128); intros [= <-]; [|done].
    apply Hstore. apply smap_try_emplace_Forall; [done|]. intros _.
    apply reverse_entry_ok_default. lia. }
  destruct (length tokens <=? 4)%nat; [|done].
  destruct (Z.geb_spec character_code 128); [|by intros [= <-]].
  destruct (get_grapheme tokens) as [grapheme|] eqn:Hg; [|done].
  pose proof (get_grapheme_wide _ _ Hg) as Hwide.
  apply get_grapheme_constructed in Hg.
  unfold check_grapheme_valid, IsValid.
  destruct (is_valid grapheme) eqn:Hvalid; [|done]. simpl.
  intros [= <-]. apply Hstore.
  apply smap_try_emplace_Forall; [done|]. intros _.
  split_and!; simpl; try done; lia.
Qed.

Lemma main_locals_initial_ok : main_locals_ok main_locals_initial.
Proof.
  split; [split|by left]; simpl; try done.
Qed.

Lemma import_config_main_parse_ok fs l :
  import_config_main_parse fs = Some l -> main_locals_ok l.
Proof.
  unfold import_config_main_parse.
  destruct (fs _ _) as [in_file|]; [|done].
  destruct (while_get_line _ _ _ _) as [[l0 how]|] eqn:Hw; [|done].
  destruct (check_import_status _ _ _); [|done]. intros [= <-].
  eapply (while_get_line_invariant _ main_locals_ok);
    [|apply main_locals_initial_ok|exact Hw].
  intros n line_str a a' Ha. by apply import_config_main_body_ok.
Qed.

Lemma load_config_if_needed_config fs st :
  config_ok (config_mappings st) (config_duplicates st) (config_aliases st) ->
  let st' := load_config_if_needed fs st in
  config_ok (config_mappings st') (config_duplicates st')
            (config_aliases st').
Proof.
  intros Hst. unfold load_config_if_needed.
  destruct (config_loaded st); [done|]. simpl.
  unfold import_config_main.
  destruct (import_config_main_parse fs) as [l|] eqn:Hl; simpl.
  - by apply import_config_main_parse_ok in Hl as [? _].
  - unfold import_mapping_ascii, import_decomposition.
    destruct (import_mapping_ascii_parse fs),
      (import_decomposition_parse fs); done.
Qed.

Lemma load_config_if_needed_zero fs st :
  config_ok (config_mappings st) (config_duplicates st) (config_aliases st) ->
  let st' := load_config_if_needed fs st in
  config_mappings st' !! 0 = None /\ deduplicate_code_page 0 st' = 0.
Proof.
  intros Hst st'.
  pose proof (load_config_if_needed_config fs st Hst) as Hok.
  fold st' in Hok. simpl in Hok.
  destruct Hok as [Hm Hd Ha]. split.
  - destruct (config_mappings st' !! 0) as [entry|] eqn:He; [|done].
    destruct (Hm 0 entry He) as ([? ?] & _). lia.
  - unfold deduplicate_code_page.
    destruct (config_duplicates st' !! 0) as [cp'|] eqn:He; [|done].
    destruct (Hd 0 cp' He) as ([? ?] & _). lia.
Qed.

(** X8: the configuration tables after [load_config_if_needed]: the code
    pages with an entry and the duplicates are numbers of the range
    1..65535, every entry is marked valid, extends no code page or one of
    that range, and maps bytes of 0x80..0xFF to valid graphemes; the
    aliases are pairs of 16-bit code points.  So code page 0 has no entry
    and is nobody's duplicate. *)
Theorem load_config_if_needed_config_ok fs st :
  config_ok (config_mappings st) (config_duplicates st) (config_aliases st) ->
  let st' := load_config_if_needed fs st in
  config_ok (config_mappings st') (config_duplicates st')
            (config_aliases st') /\
  config_mappings st' !! 0 = None /\
  deduplicate_code_page 0 st' = 0.
Proof.
  intros Hst st'. split.
  - by apply load_config_if_needed_config.
  - by apply load_config_if_needed_zero.
Qed.

Lemma load_config_if_needed_config_ok_witness :
  let st' := load_config_if_needed good_main_files Registry_initial in
  config_ok (config_mappings st') (config_duplicates st')
            (config_aliases st') /\
  config_mappings st' !! 0 = None /\
  deduplicate_code_page 0 st' = 0.
Proof.
  apply (load_config_if_needed_config_ok good_main_files Registry_initial).
  split; simpl; try done.
Defined.

(** * The tables of a prepared code page *)

Section std_map_facts.
Context {K V : Type} (lt : K -> K -> bool).

Lemma smap_try_emplace_old (k : K) (v : V) m e :
  e ∈ m -> e ∈ (smap_try_emplace lt k v m).1.
Proof.
  induction m as [|[k' v'] m IH]; simpl; [by intros ?%elem_of_nil|].
  intros He. destruct (lt k' k).
  - destruct (smap_try_emplace lt k v m) as [m'' was_added]. simpl in *.
    apply elem_of_cons in He as [->|He]; [by left|right; by apply IH].
  - destruct (lt k k'); simpl; [by right|done].
Qed.

Lemma smap_try_emplace_new (k : K) (v : V) m :
  (smap_try_emplace lt k v m).2 = true ->
  (k, v) ∈ (smap_try_emplace lt k v m).1.
Proof.
  induction m as [|[k' v'] m IH]; simpl; [intros _; by left|].
  destruct (lt k' k).
  - destruct (smap_try_emplace lt k v m) as [m'' was_added]. simpl in *.
    intros Ha. right. by apply IH.
  - destruct (lt k k'); simpl; [intros _; by left|done].
Qed.

Lemma smap_find_elem (k : K) (v : V) m :
  smap_find lt k m = Some v ->
  exists k', (k', v) ∈ m /\ lt k' k = false /\ lt k k' = false.
Proof.
  induction m as [|[k' v'] m IH]; simpl; [done|].
  destruct (lt k' k) eqn:H1.
  - intros (k'' & ? & ?)%IH. exists k''. split; [by right|done].
  - destruct (lt k k') eqn:H2; [done|]. intros [= ->].
    exists k'. split; [by left|done].
Qed.
End std_map_facts.

Lemma smap_try_emplace_sorted {V} (k : Z) (v : V) m :
  StronglySorted (fun e1 e2 : Z * V => e1.1 < e2.1) m ->
  StronglySorted (fun e1 e2 : Z * V => e1.1 < e2.1)
                 (smap_try_emplace Z.ltb k v m).1.
Proof.
  induction m as [|[k' v'] m IH]; simpl; intros Hs.
  - repeat constructor.
  - apply StronglySorted_inv in Hs as [Hs Hhd].
    destruct (Z.ltb_spec k' k).
    + pose proof (smap_try_emplace_Forall Z.ltb
                    (fun e : Z * V => k' < e.1) k v m Hhd) as Hall.
      specialize (IH Hs).
      destruct (smap_try_emplace Z.ltb k v m) as [m'' was_added].
      simpl in *. constructor; [done|]. by apply Hall.
    + destruct (Z.ltb_spec k k'); simpl.
      * constructor; [by constructor|]. constructor; [done|].
        eapply Forall_impl; [exact Hhd|]. simpl. intros; lia.
      * by constructor.
Qed.

Lemma smap_find_sorted {V} (k : Z) (v : V) m :
  StronglySorted (fun e1 e2 : Z * V => e1.1 < e2.1) m ->
  (k, v) ∈ m -> smap_find Z.ltb k m = Some v.
Proof.
  induction m as [|[k' v'] m IH]; simpl; intros Hs He;
    [by apply elem_of_nil in He|].
  apply StronglySorted_inv in Hs as [Hs Hhd].
  apply elem_of_cons in He as [[= <- <-]|He].
  - by rewrite Z.ltb_irrefl.
  - rewrite Forall_forall in Hhd. specialize (Hhd _ He). simpl in Hhd.
    destruct (Z.ltb_spec k' k); [by apply IH|lia].
Qed.

Lemma tables_ok_nil : tables_ok [] [].
Proof. split_and!; constructor. Qed.

Lemma add_to_mappings_ok first second maps :
  first <= 0xff -> grapheme_ok second ->
  tables_ok maps.1 maps.2 ->
  tables_ok (add_to_mappings first second maps).1
            (add_to_mappings first second maps).2.
Proof.
  intros Hfirst Hwide. destruct maps as [new_mapping new_mapping_reverse].
  simpl. intros (Hs & Hw & Hm). unfold add_to_mappings, add_if_not_mapped.
  unfold decode_threshold_non_ascii.
  destruct (Z.ltb_spec first 128); [done|].
  pose proof (smap_try_emplace_sorted first second new_mapping_reverse Hs)
    as Hs'.
  pose proof (smap_try_emplace_Forall Z.ltb
                (fun e : Z * Grapheme => grapheme_ok e.2) first second
                new_mapping_reverse Hw (fun _ => Hwide)) as Hw'.
  pose proof (smap_try_emplace_old Z.ltb first second new_mapping_reverse)
    as Hold.
  pose proof (smap_try_emplace_new Z.ltb first second new_mapping_reverse)
    as Hnew.
  destruct (smap_try_emplace Z.ltb first second new_mapping_reverse)
    as [reverse' was_added]. simpl in *.
  assert (Forall (fun e : Grapheme * Z =>
                    (e.2, e.1) ∈ reverse' /\ 0x80 <= e.2 <= 0xff /\
                    is_valid e.1 = true /\ is_empty e.1 = false)
                 new_mapping) as Hm'.
  { eapply Forall_impl; [exact Hm|]. intros e (? & ? & ?).
    split; [by apply Hold|done]. }
  destruct was_added; simpl; [|done].
  unfold IsEmpty, IsValid.
  destruct (is_empty second) eqn:He; simpl; [done|].
  destruct (is_valid second) eqn:Hv; simpl; [|done].
  split_and!; try done.
  apply smap_try_emplace_Forall; [done|]. intros _. simpl.
  split_and!; try done; try lia. by apply Hnew.
Qed.

Lemma fold_add_to_mappings_ok {A} (first : A -> Z) (second : A -> Grapheme)
      entries maps :
  Forall (fun e => first e <= 0xff /\ grapheme_ok (second e)) entries ->
  tables_ok maps.1 maps.2 ->
  let maps' :=
    fold_left (fun maps e => add_to_mappings (first e) (second e) maps)
              entries maps in
  tables_ok maps'.1 maps'.2.
Proof.
  revert maps. induction entries as [|e entries IH]; intros maps He Hm;
    simpl; [done|].
  apply Forall_cons in He as [[? ?] He].
  apply IH; [done|]. by apply add_to_mappings_ok.
Qed.

(** * What [prepare_code_page] leaves behind *)

Lemma construct_mapping_finish_result fuel fs code_page config_mapping maps
      st b st' :
  construct_mapping_finish fuel fs code_page config_mapping maps st
  = Some (b, st') ->
  config_mappings st' = config_mappings st /\
  already_tried st' = already_tried st /\
  (b = true ->
   is_Some (mappings_normalized_by_codepage st' !! code_page)).
Proof.
  unfold construct_mapping_finish.
  match goal with
  | |- context [match ?ff with Some _ => _ | None => Some (false, st) end] =>
      destruct ff as [[new_mapping new_mapping_reverse]|]
  end.
  2: { by intros [= <- <-]. }
  simpl. destruct (construct_decomposed _ _ _) as [decomposed|]; [|done].
  intros [= <- <-]. simpl. split_and!; try done.
  intros _. rewrite lookup_insert_eq. by eexists.
Qed.

Lemma construct_aliases_result fuel code_page st st' :
  construct_aliases fuel code_page st = Some st' ->
  config_mappings st' = config_mappings st /\
  already_tried st' = already_tried st /\
  mappings_normalized_by_codepage st' = mappings_normalized_by_codepage st.
Proof.
  unfold construct_aliases. simpl.
  destruct (construct_decomposed _ _ _) as [decomposed|]; [|done].
  by intros [= <-].
Qed.

Lemma construct_mapping_result prepare fuel fs code_page st b st' :
  (forall dep st1 b1 st2,
      prepare dep st1 = Some (b1, st2) ->
      config_mappings st2 = config_mappings st1 /\
      already_tried st1 ⊆ already_tried st2) ->
  construct_mapping prepare fuel fs code_page st = Some (b, st') ->
  config_mappings st' = config_mappings st /\
  already_tried st ⊆ already_tried st' /\
  code_page ∈ already_tried st' /\
  (b = true ->
   is_Some (mappings_normalized_by_codepage st' !! code_page)).
Proof.
  intros Hprepare. unfold construct_mapping.
  destruct (bool_decide (code_page ∈ already_tried st)) eqn:Htried.
  { apply bool_decide_eq_true in Htried. by intros [= <- <-]. }
  set (st1 := set_already_tried ({[code_page]} ∪ already_tried st) st).
  assert (config_mappings st1 = config_mappings st) as Hc1 by done.
  assert (already_tried st ⊆ already_tried st1) as Ht1.
  { simpl. apply union_subseteq_r. }
  assert (code_page ∈ already_tried st1) as Hin1.
  { simpl. apply elem_of_union. left. by apply elem_of_singleton. }
  cbv zeta. destruct (extends_code_page _ =? 0).
  - intros (Hc & Ht & Hn)%construct_mapping_finish_result.
    rewrite Hc, Ht. done.
  - match goal with |- context [prepare ?dep st1] =>
      destruct (prepare dep st1) as [[b2 st2]|] eqn:Hp; [|done] end.
    apply Hprepare in Hp as [Hc2 Ht2].
    destruct b2.
    + intros (Hc & Ht & Hn)%construct_mapping_finish_result.
      rewrite Hc, Ht, Hc2. split_and!; try done.
      * by transitivity (already_tried st1).
      * by apply Ht2.
    + intros [= <- <-]. rewrite Hc2. split_and!; try done.
      * by transitivity (already_tried st1).
      * by apply Ht2.
Qed.

Lemma erase_mappings_twice code_page st :
  erase_mappings code_page (erase_mappings code_page st)
  = erase_mappings code_page st.
Proof.
  unfold erase_mappings. destruct st. simpl.
  by rewrite !delete_delete_eq.
Qed.

Lemma prepare_code_page_result depth fuel fs :
  forall code_page st b st',
    prepare_code_page depth fuel fs code_page st = Some (b, st') ->
    config_mappings st' = config_mappings st /\
    already_tried st ⊆ already_tried st' /\
    if b then is_Some (mappings_normalized_by_codepage st' !! code_page)
    else erase_mappings code_page st' = st' /\
         (is_Some (config_mappings st' !! code_page) ->
          code_page ∈ already_tried st').
Proof.
  induction depth as [|depth IH]; intros code_page st b st'; simpl.
  - destruct (bool_decide (is_Some (mappings_normalized_by_codepage st
                                      !! code_page))) eqn:Hn.
    { apply bool_decide_eq_true in Hn. by intros [= <- <-]. }
    destruct (bool_decide (is_Some (config_mappings st !! code_page)))
      eqn:Hcfg; simpl; [done|].
    apply bool_decide_eq_false in Hcfg.
    intros [= <- <-]. split_and!; try done.
    apply erase_mappings_twice.
  - destruct (bool_decide (is_Some (mappings_normalized_by_codepage st
                                      !! code_page))) eqn:Hn.
    { apply bool_decide_eq_true in Hn. by intros [= <- <-]. }
    destruct (bool_decide (is_Some (config_mappings st !! code_page)))
      eqn:Hcfg; simpl.
    2: { apply bool_decide_eq_false in Hcfg.
         intros [= <- <-]. split_and!; try done.
         apply erase_mappings_twice. }
    destruct (construct_mapping _ _ _ _ _) as [[b1 st1]|] eqn:Hm; [|done].
    apply construct_mapping_result in Hm as (Hc1 & Ht1 & Hin1 & Hn1).
    2: { intros dep st2 b2 st3 Hp. apply IH in Hp as (? & ? & _). done. }
    destruct b1.
    + destruct (construct_aliases fuel code_page st1) as [st2|] eqn:Ha;
        [|done].
      apply construct_aliases_result in Ha as (Hc2 & Ht2 & Hn2).
      intros [= <- <-]. rewrite Hc2, Ht2, Hn2. split_and!; try done.
      by apply Hn1.
    + intros [= <- <-]. split_and!; try done.
      apply erase_mappings_twice.
Qed.



(** * The registry between two calls *)

Lemma registry_ok_initial : registry_ok Registry_initial.
Proof. split_and!; [split|..]; simpl; done. Qed.

Lemma load_config_if_needed_tables fs st :
  mappings_normalized_by_codepage (load_config_if_needed fs st)
  = mappings_normalized_by_codepage st /\
  mappings_reverse_by_codepage (load_config_if_needed fs st)
  = mappings_reverse_by_codepage st.
Proof.
  unfold load_config_if_needed. destruct (config_loaded st); [done|].
  unfold import_config_main, import_mapping_ascii, import_decomposition.
  destruct (import_config_main_parse fs), (import_mapping_ascii_parse fs),
    (import_decomposition_parse fs); done.
Qed.

Lemma load_config_if_needed_ok fs st :
  registry_ok st -> registry_ok (load_config_if_needed fs st).
Proof.
  intros (Hc & Hn & Hr).
  destruct (load_config_if_needed_tables fs st) as [En Er].
  split_and!.
  - by apply load_config_if_needed_config.
  - rewrite En, Er. apply Hn.
  - rewrite Er. apply Hr.
Qed.

Lemma tables_ok_wide normalized reverse :
  tables_ok normalized reverse ->
  Forall (fun e : Grapheme * Z => e.2 <= 0xff /\ grapheme_ok e.1)
         normalized.
Proof.
  intros (_ & Hw & Hm). eapply Forall_impl; [exact Hm|].
  intros [g b]. simpl. intros (Hin & ? & _). split; [lia|].
  rewrite Forall_forall in Hw. by apply (Hw _ Hin).
Qed.

Lemma reverse_entries_wide entries :
  Forall reverse_entry_ok entries ->
  Forall (fun e : Z * Grapheme => e.1 <= 0xff /\ grapheme_ok e.2) entries.
Proof.
  intros He. eapply Forall_impl; [exact He|].
  intros [b g] (? & _ & ? & ?). simpl in *. split; [lia|done].
Qed.

Lemma construct_mapping_finish_ok fuel fs code_page config_mapping maps
      st b st' :
  registry_ok st -> tables_ok maps.1 maps.2 ->
  construct_mapping_finish fuel fs code_page config_mapping maps st
  = Some (b, st') ->
  registry_ok st'.
Proof.
  intros Hst Hmaps. unfold construct_mapping_finish.
  assert (forall maps',
             match
               (if string_empty (extends_file config_mapping) then Some maps
                else
                  match import_mapping_code_page fs
                          (extends_dir config_mapping)
                          (extends_file config_mapping) with
                  | None => None
                  | Some mapping_file =>
                      Some (fold_left
                              (fun maps entry =>
                                 add_to_mappings entry.1 entry.2 maps)
                              mapping_file maps)
                  end)
             with Some m => m = maps' | None => False end ->
             tables_ok maps'.1 maps'.2) as Hfile.
  { intros maps'. destruct (string_empty _); [by intros <-|].
    destruct (import_mapping_code_page _ _ _) as [mapping_file|] eqn:Hf;
      [|done].
    intros <-. apply import_mapping_code_page_ok in Hf.
    apply (fold_add_to_mappings_ok fst snd); [|done].
    by apply reverse_entries_wide. }
  match goal with
  | |- context [match ?ff with Some _ => _ | None => Some (false, st) end] =>
      destruct ff as [[new_mapping new_mapping_reverse]|]
  end.
  2: { by intros [= <- <-]. }
  specialize (Hfile _ eq_refl). simpl in Hfile.
  simpl. destruct (construct_decomposed _ _ _) as [decomposed|]; [|done].
  intros [= <- <-]. destruct Hst as (Hc & Hn & Hr).
  split_and!; simpl; [done|..].
  - intros cp normalized. rewrite !lookup_insert.
    destruct (decide (code_page = cp)) as [<-|]; [|apply Hn].
    intros [= <-]. by eexists.
  - intros cp reverse. rewrite lookup_insert.
    destruct (decide (code_page = cp)) as [<-|]; [|apply Hr].
    intros [= <-]. apply Hfile.
Qed.

Lemma entry_at_entries code_page st :
  registry_ok st ->
  Forall reverse_entry_ok (mapping (entry_at code_page (config_mappings st))).
Proof.
  intros ([Hm _ _] & _). unfold entry_at.
  destruct (config_mappings st !! code_page) as [entry|] eqn:He; simpl.
  - by destruct (Hm _ _ He) as (_ & _ & _ & ?).
  - constructor.
Qed.

Lemma construct_mapping_ok prepare fuel fs code_page st b st' :
  (forall dep st1 b1 st2,
      registry_ok st1 -> prepare dep st1 = Some (b1, st2) ->
      registry_ok st2) ->
  registry_ok st ->
  construct_mapping prepare fuel fs code_page st = Some (b, st') ->
  registry_ok st'.
Proof.
  intros Hprepare Hst. unfold construct_mapping.
  destruct (bool_decide (code_page ∈ already_tried st));
    [by intros [= <- <-]|].
  set (st1 := set_already_tried ({[code_page]} ∪ already_tried st) st).
  assert (registry_ok st1) as Hst1 by done.
  cbv zeta.
  pose proof (fold_add_to_mappings_ok fst snd
                (mapping (entry_at code_page (config_mappings st1)))
                ([], [])
                (reverse_entries_wide _ (entry_at_entries code_page st1 Hst1))
                tables_ok_nil) as Hmaps.
  simpl in Hmaps.
  destruct (extends_code_page _ =? 0).
  - by apply construct_mapping_finish_ok.
  - match goal with |- context [prepare ?dep st1] =>
      destruct (prepare dep st1) as [[b2 st2]|] eqn:Hp; [|done];
      set (dependency := dep) in *
    end.
    apply Hprepare in Hp; [|done].
    destruct b2; [|by intros [= <- <-]].
    apply construct_mapping_finish_ok; [done|].
    apply (fold_add_to_mappings_ok snd fst); [|done].
    destruct (mappings_normalized_by_codepage st2 !! dependency)
      as [normalized|] eqn:Hn; simpl; [|constructor].
    destruct Hp as (_ & Hn2 & _).
    destruct (Hn2 _ _ Hn) as (reverse & _ & Hok).
    by eapply tables_ok_wide.
Qed.

Lemma construct_aliases_ok fuel code_page st st' :
  registry_ok st -> construct_aliases fuel code_page st = Some st' ->
  registry_ok st'.
Proof.
  intros Hst. unfold construct_aliases. simpl.
  destruct (construct_decomposed _ _ _) as [decomposed|]; [|done].
  by intros [= <-].
Qed.

Lemma erase_mappings_ok code_page st :
  registry_ok st -> registry_ok (erase_mappings code_page st).
Proof.
  intros (Hc & Hn & Hr). split_and!; simpl; [done|..].
  - intros cp normalized. rewrite !lookup_delete.
    destruct (decide (code_page = cp)); [done|apply Hn].
  - intros cp reverse. rewrite lookup_delete.
    destruct (decide (code_page = cp)); [done|apply Hr].
Qed.

Lemma prepare_code_page_ok depth fuel fs :
  forall code_page st b st',
    registry_ok st ->
    prepare_code_page depth fuel fs code_page st = Some (b, st') ->
    registry_ok st'.
Proof.
  induction depth as [|depth IH]; intros code_page st b st' Hst; simpl.
  - destruct (bool_decide _); [by intros [= <- <-]|].
    destruct (negb _); [|done]. intros [= <- <-].
    by apply erase_mappings_ok.
  - destruct (bool_decide _); [by intros [= <- <-]|].
    destruct (negb _).
    { intros [= <- <-]. by apply erase_mappings_ok. }
    destruct (construct_mapping _ _ _ _ _) as [[b1 st1]|] eqn:Hm; [|done].
    apply construct_mapping_ok in Hm; [|exact IH|done].
    destruct b1.
    + destruct (construct_aliases fuel code_page st1) as [st2|] eqn:Ha;
        [|done].
      intros [= <- <-]. by eapply construct_aliases_ok.
    + intros [= <- <-]. by apply erase_mappings_ok.
Qed.

Lemma warn_default_code_page_ok st :
  registry_ok st -> registry_ok (warn_default_code_page st).
Proof. unfold warn_default_code_page. by destruct (warned_default_code_page st). Qed.

Lemma get_default_code_page_ok fuel fs st cp st' :
  registry_ok st -> get_default_code_page fuel fs st = Some (cp, st') ->
  registry_ok st'.
Proof.
  intros Hst. unfold get_default_code_page.
  destruct (prepare_code_page _ _ _ _ _) as [[b st1]|] eqn:Hp; [|done].
  apply prepare_code_page_ok in Hp; [|done].
  destruct b; intros [= <- <-]; [done|].
  by apply warn_default_code_page_ok.
Qed.

Lemma get_custom_code_page_ok fuel fs custom_code_page st cp st' :
  registry_ok st ->
  get_custom_code_page fuel fs custom_code_page st = Some (cp, st') ->
  registry_ok st'.
Proof.
  intros Hst. unfold get_custom_code_page.
  destruct (custom_code_page =? 0); [by intros [= <- <-]|].
  destruct (prepare_code_page _ _ _ _ _) as [[b st1]|] eqn:Hp; [|done].
  apply prepare_code_page_ok in Hp; [|done].
  destruct b; [by intros [= <- <-]|].
  by apply get_default_code_page_ok.
Qed.

(** * A conversion changes nothing but the warnings given *)

Lemma only_warnings_differ_refl st : only_warnings_differ st st.
Proof. by destruct st. Qed.

Lemma only_warnings_differ_trans st1 st2 st3 :
  only_warnings_differ st1 st2 -> only_warnings_differ st2 st3 ->
  only_warnings_differ st1 st3.
Proof.
  unfold only_warnings_differ. destruct st1, st2, st3. simpl.
  unfold set_warned_code_points, set_warned_code_pages. simpl.
  intros H12 H23. injection H12 as -> -> -> -> -> -> -> -> -> -> -> -> ->.
  by injection H23 as -> -> -> -> -> -> -> -> -> -> -> -> ->.
Qed.

Lemma warn_code_point_only cp st :
  only_warnings_differ st (warn_code_point cp st).
Proof. unfold warn_code_point. destruct (bool_decide _); by destruct st. Qed.

Lemma warn_code_page_only cp st :
  only_warnings_differ st (warn_code_page cp st).
Proof. unfold warn_code_page. destruct (bool_decide _); by destruct st. Qed.

Lemma find_mappings_only code_page st :
  only_warnings_differ st (find_mappings code_page st).2.
Proof.
  unfold find_mappings.
  destruct (code_page =? 0); [apply only_warnings_differ_refl|]. simpl.
  destruct (_ !! _); [apply only_warnings_differ_refl|].
  apply warn_code_page_only.
Qed.

Lemma wide_to_dos_body_only fuel ptrs str_in i s i' s' :
  wide_to_dos_body fuel ptrs str_in i s = Some (i', s') ->
  only_warnings_differ (dos_registry s) (dos_registry s').
Proof.
  unfold wide_to_dos_body.
  destruct (assemble_marks _ _ _) as [grapheme j].
  destruct (push_normalized _ _ grapheme _) as [[] str_out1];
    [intros [= <- <-]; apply only_warnings_differ_refl|].
  destruct (push_decomposed _ _ _ _ _) as [[[] str_out2]|];
    [intros [= <- <-]; apply only_warnings_differ_refl| |done].
  destruct (Decompose _ _ _) as [decomposed|]; [|done].
  destruct (HasMark decomposed).
  - destruct (push_normalized _ _ (StripMarks decomposed) _)
      as [[] str_out3]; intros [= <- <-];
      [apply only_warnings_differ_refl|].
    simpl. apply warn_code_point_only.
  - intros [= <- <-]. simpl. apply warn_code_point_only.
Qed.

Lemma wide_to_dos_loop_only turns fuel ptrs str_in :
  forall i s s',
    wide_to_dos_loop turns fuel ptrs str_in i s = Some s' ->
    only_warnings_differ (dos_registry s) (dos_registry s').
Proof.
  induction turns as [|turns IH]; intros i s s'; simpl.
  - destruct (i <? length str_in)%nat; [done|].
    intros [= <-]. apply only_warnings_differ_refl.
  - destruct (i <? length str_in)%nat.
    2: { intros [= <-]. apply only_warnings_differ_refl. }
    destruct (wide_to_dos_body fuel ptrs str_in i s) as [[i1 s1]|] eqn:Hb;
      [|done].
    intros Hl. eapply only_warnings_differ_trans.
    + by eapply wide_to_dos_body_only.
    + by eapply IH.
Qed.

Lemma wide_to_dos_only fuel str_in code_page st status str_out st' :
  wide_to_dos fuel str_in code_page st = Some (status, str_out, st') ->
  only_warnings_differ st st'.
Proof.
  unfold wide_to_dos.
  pose proof (find_mappings_only code_page st) as Hf.
  destruct (find_mappings code_page st) as [ptrs st1]. simpl in Hf.
  destruct (wide_to_dos_loop _ _ _ _ _ _) as [s'|] eqn:Hl; [|done].
  intros [= <- <- <-]. apply wide_to_dos_loop_only in Hl.
  by eapply only_warnings_differ_trans.
Qed.

Lemma only_warnings_differ_ok st st' :
  only_warnings_differ st st' -> registry_ok st -> registry_ok st'.
Proof.
  unfold only_warnings_differ. intros <-. by destruct st'.
Qed.

(** * Round trips through the tables of a code page *)

Lemma push_code_page_decodes_back cp st grapheme str_out str_out' :
  registry_ok st ->
  push_code_page (mapping_normalized (find_mappings cp st).1) grapheme str_out
  = (true, str_out') ->
  exists byte ms,
    str_out' = str_out ++ [byte] /\ 0x80 <= byte <= 0xff /\
    dos_to_wide [byte] cp st = code_point grapheme :: ms /\
    ms ≡ₚ marks_sorted grapheme.
Proof.
  intros (_ & Hn & _). unfold find_mappings.
  destruct (cp =? 0); [done|]. simpl.
  destruct (mappings_normalized_by_codepage st !! cp) as [normalized|]
    eqn:Hnorm; [|done].
  simpl.
  destruct (smap_find Grapheme_ltb grapheme normalized) as [byte|] eqn:Hf;
    [|done].
  intros [= <-].
  apply smap_find_elem in Hf as (stored & Hin & H1 & H2).
  destruct (Hn _ _ Hnorm) as (reverse & Hrev & Hs & Hw & Hm).
  rewrite Forall_forall in Hm. rewrite Forall_forall in Hw.
  destruct (Hm _ Hin) as (Hin' & Hb & Hv & He). simpl in *.
  destruct (proj1 (Grapheme_ltb_incomparable stored grapheme)
                  (conj H1 H2)) as [Hcp Hms].
  destruct (Hw _ Hin') as [_ Hstored]. simpl in Hstored.
  apply constructed_inv in Hstored as [_ _ _ Hperm _].
  exists byte, (marks stored). split_and!; try done; try lia.
  2: { by rewrite <- Hms, Hperm. }
  unfold dos_to_wide. simpl. unfold dos_to_wide_step.
  unfold uint8, decode_threshold_non_ascii. rewrite Z.mod_small by lia.
  destruct (Z.geb_spec byte 128); [|lia].
  rewrite Hrev, (smap_find_sorted byte stored reverse Hs Hin').
  unfold PushInto. rewrite He, Hv. simpl. by rewrite Hcp.
Qed.

(** X11: after the code page has been chosen, whenever the lookup of
    [wide_to_dos] in the table of the code page ([push_code_page]) gives a
    byte for a grapheme, that byte is of the range 0x80..0xFF and
    [dos_to_wide] turns it back into the code point of the grapheme
    followed by the marks of the grapheme, in some order. *)
Theorem mapped_grapheme_decodes_back fuel fs code_page st cp st' :
  registry_ok st ->
  get_custom_code_page fuel fs code_page (load_config_if_needed fs st)
  = Some (cp, st') ->
  forall grapheme str_out str_out',
    push_code_page (mapping_normalized (find_mappings cp st').1)
                   grapheme str_out = (true, str_out') ->
    exists byte ms,
      str_out' = str_out ++ [byte] /\ 0x80 <= byte <= 0xff /\
      dos_to_wide [byte] cp st' = code_point grapheme :: ms /\
      ms ≡ₚ marks_sorted grapheme.
Proof.
  intros Hst Hcp grapheme str_out str_out'.
  apply push_code_page_decodes_back.
  eapply get_custom_code_page_ok; [|exact Hcp].
  by apply load_config_if_needed_ok.
Qed.

Lemma mapped_grapheme_decodes_back_witness :
  exists byte ms,
    [0x41; 0x80] = [0x41] ++ [byte] /\ 0x80 <= byte <= 0xff /\
    dos_to_wide [byte] 437 example_registry
    = code_point (Grapheme_new 0x00c7) :: ms /\
    ms ≡ₚ marks_sorted (Grapheme_new 0x00c7).
Proof.
  apply (mapped_grapheme_decodes_back 2 good_main_files 437
           Registry_initial 437 example_registry registry_ok_initial).
  - vm_compute. reflexivity.
  - vm_compute. reflexivity.
Defined.

(** * What [dos_to_utf8] writes is well-formed *)






(** * A conversion changes nothing but the warnings given *)

Lemma wide_to_dos_body_status fuel ptrs str_in i s i' s' :
  wide_to_dos_body fuel ptrs str_in i s = Some (i', s') ->
  dos_status s' = true ->
  dos_status s = true /\ dos_registry s' = dos_registry s.
Proof.
  unfold wide_to_dos_body.
  destruct (assemble_marks _ _ _) as [grapheme j].
  destruct (push_normalized _ _ grapheme _) as [[] str_out1];
    [by intros [= <- <-]|].
  destruct (push_decomposed _ _ _ _ _) as [[[] str_out2]|];
    [by intros [= <- <-]| |done].
  destruct (Decompose _ _ _) as [decomposed|]; [|done].
  destruct (HasMark decomposed).
  - destruct (push_normalized _ _ (StripMarks decomposed) _)
      as [[] str_out3]; by intros [= <- <-].
  - by intros [= <- <-].
Qed.

Lemma wide_to_dos_loop_status turns fuel ptrs str_in :
  forall i s s',
    wide_to_dos_loop turns fuel ptrs str_in i s = Some s' ->
    dos_status s' = true ->
    dos_status s = true /\ dos_registry s' = dos_registry s.
Proof.
  induction turns as [|turns IH]; intros i s s'; simpl.
  - destruct (i <? length str_in)%nat; [done|]. by intros [= <-].
  - destruct (i <? length str_in)%nat; [|by intros [= <-]].
    destruct (wide_to_dos_body fuel ptrs str_in i s) as [[i1 s1]|] eqn:Hb;
      [|done].
    intros Hl Hs. destruct (IH _ _ _ Hl Hs) as [Hs1 Hr1].
    destruct (wide_to_dos_body_status _ _ _ _ _ _ _ Hb Hs1) as [Hs0 Hr0].
    split; [done|congruence].
Qed.

(** X13: [wide_to_dos] changes nothing of the registry but the sets of the
    warnings already given.  When it returns [true] the only change can
    be the warning about a code page that is not prepared; with code page
    0 or a prepared code page the registry is unchanged. *)
Theorem wide_to_dos_only_warns fuel str_in code_page st status str_out st' :
  wide_to_dos fuel str_in code_page st = Some (status, str_out, st') ->
  only_warnings_differ st st' /\
  (status = true -> st' = (find_mappings code_page st).2) /\
  (status = true ->
   code_page = 0 \/
   is_Some (mappings_normalized_by_codepage st !! code_page) ->
   st' = st).
Proof.
  intros Hw. split; [by eapply wide_to_dos_only|].
  assert (status = true -> st' = (find_mappings code_page st).2) as Hfind.
  { revert Hw. unfold wide_to_dos.
    destruct (find_mappings code_page st) as [ptrs st1].
    destruct (wide_to_dos_loop _ _ _ _ _ _) as [s'|] eqn:Hl; [|done].
    intros [= <- <- <-] Hs.
    by destruct (wide_to_dos_loop_status _ _ _ _ _ _ _ Hl Hs) as [_ ->]. }
  split; [done|].
  intros Hs Hcp. rewrite (Hfind Hs). unfold find_mappings.
  destruct Hcp as [->|[normalized Hn]]; [done|].
  destruct (code_page =? 0); [done|]. simpl. by rewrite Hn.
Qed.

Lemma wide_to_dos_only_warns_witness :
  only_warnings_differ example_registry example_registry /\
  (true = true -> example_registry = (find_mappings 437 example_registry).2)
  /\
  (true = true ->
   437 = 0 \/
   is_Some (mappings_normalized_by_codepage example_registry !! 437) ->
   example_registry = example_registry).
Proof.
  apply (wide_to_dos_only_warns 2 [0x41; 0x00c7] 437 example_registry true
           [0x41; 0x80] example_registry).
  vm_compute. reflexivity.
Defined.

Lemma import_mapping_code_page_entries_witness :
  [(0x80, Grapheme_new 0x00c7); (0x9f, Grapheme_default)] <> [] /\
  Forall reverse_entry_ok
         [(0x80, Grapheme_new 0x00c7); (0x9f, Grapheme_default)].
Proof.
  apply (import_mapping_code_page_entries extended_main_files "cp"
           "CP850.TXT").
  vm_compute. reflexivity.
Defined.

(** * The end-of-file marking *)

Lemma while_get_line_cut {A} (body : nat -> string -> A -> option A) lines :
  forall line_num acc,
    while_get_line body (cut_at_marking lines) line_num acc
    = while_get_line body lines line_num acc.
Proof.
  induction lines as [|line_str lines IH]; intros line_num acc; simpl;
    [done|].
  destruct (starts_with_eof_marking line_str) eqn:Hm; simpl; rewrite Hm;
    [done|].
  destruct (string_empty line_str); [apply IH|].
  destruct (body (S line_num) line_str acc); [apply IH|done].
Qed.

Lemma import_mapping_code_page_cut fs dir_name file_name :
  import_mapping_code_page (cut_resources fs) dir_name file_name
  = import_mapping_code_page fs dir_name file_name.
Proof.
  unfold import_mapping_code_page, cut_resources.
  destruct (fs dir_name file_name) as [file|]; [|done]. simpl.
  by rewrite while_get_line_cut.
Qed.

Lemma load_config_if_needed_cut fs st :
  load_config_if_needed (cut_resources fs) st = load_config_if_needed fs st.
Proof.
  unfold load_config_if_needed. destruct (config_loaded st); [done|].
  assert (import_decomposition_parse (cut_resources fs)
          = import_decomposition_parse fs) as Hd.
  { unfold import_decomposition_parse, cut_resources.
    destruct (fs _ _) as [file|]; [|done]. simpl.
    by rewrite while_get_line_cut. }
  assert (import_mapping_ascii_parse (cut_resources fs)
          = import_mapping_ascii_parse fs) as Ha.
  { unfold import_mapping_ascii_parse, cut_resources.
    destruct (fs _ _) as [file|]; [|done]. simpl.
    by rewrite while_get_line_cut. }
  assert (import_config_main_parse (cut_resources fs)
          = import_config_main_parse fs) as Hm.
  { unfold import_config_main_parse, cut_resources.
    destruct (fs _ _) as [file|]; [|done]. simpl.
    by rewrite while_get_line_cut. }
  unfold import_config_main, import_mapping_ascii, import_decomposition.
  by rewrite Hd, Ha, Hm.
Qed.

Lemma construct_mapping_ext prepare1 prepare2 fuel fs1 fs2 code_page st :
  (forall dep st1, prepare1 dep st1 = prepare2 dep st1) ->
  (forall dir_name file_name,
      import_mapping_code_page fs1 dir_name file_name
      = import_mapping_code_page fs2 dir_name file_name) ->
  construct_mapping prepare1 fuel fs1 code_page st
  = construct_mapping prepare2 fuel fs2 code_page st.
Proof.
  intros Hp Hf. unfold construct_mapping, construct_mapping_finish.
  destruct (bool_decide _); [done|]. cbv zeta.
  rewrite !Hf. destruct (_ =? 0); [done|].
  rewrite Hp. destruct (prepare2 _ _) as [[[] st2]|]; by rewrite ?Hf.
Qed.

Lemma prepare_code_page_cut depth fuel fs :
  forall code_page st,
    prepare_code_page depth fuel (cut_resources fs) code_page st
    = prepare_code_page depth fuel fs code_page st.
Proof.
  induction depth as [|depth IH]; intros code_page st; simpl; [done|].
  destruct (bool_decide _); [done|]. destruct (negb _); [done|].
  by rewrite (construct_mapping_ext
                (prepare_code_page depth fuel (cut_resources fs))
                (prepare_code_page depth fuel fs) fuel (cut_resources fs) fs
                code_page st IH (import_mapping_code_page_cut fs)).
Qed.

(** X14: nothing of a mapping file is looked at after the first line that
    starts with the end-of-file marking (0x1A): cutting every file there
    changes neither what the loaders build nor what the conversions
    return. *)
Theorem nothing_is_read_after_the_marking fs :
  (forall st,
      load_config_if_needed (cut_resources fs) st
      = load_config_if_needed fs st) /\
  (forall dir_name file_name,
      import_mapping_code_page (cut_resources fs) dir_name file_name
      = import_mapping_code_page fs dir_name file_name) /\
  (forall fuel str_in code_page st,
      utf8_to_dos fuel (cut_resources fs) str_in code_page st
      = utf8_to_dos fuel fs str_in code_page st) /\
  (forall fuel str_in code_page st,
      dos_to_utf8 fuel (cut_resources fs) str_in code_page st
      = dos_to_utf8 fuel fs str_in code_page st).
Proof.
  assert (forall fuel code_page st,
             get_custom_code_page fuel (cut_resources fs) code_page st
             = get_custom_code_page fuel fs code_page st) as Hcp.
  { intros fuel code_page st.
    unfold get_custom_code_page, get_default_code_page.
    destruct (_ =? 0); [done|]. rewrite prepare_code_page_cut.
    destruct (prepare_code_page _ _ fs _ _) as [[[] st1]|]; try done.
    by rewrite prepare_code_page_cut. }
  split_and!.
  - apply load_config_if_needed_cut.
  - apply import_mapping_code_page_cut.
  - intros fuel str_in code_page st. unfold utf8_to_dos.
    by rewrite load_config_if_needed_cut, Hcp.
  - intros fuel str_in code_page st. unfold dos_to_utf8.
    by rewrite load_config_if_needed_cut, Hcp.
Qed.

(** * The entry points without a code page *)

Lemma load_config_if_needed_loaded fs st :
  config_loaded (load_config_if_needed fs st) = true.
Proof.
  unfold load_config_if_needed. by destruct (config_loaded st) eqn:Hl.
Qed.

Lemma load_config_if_needed_twice fs st :
  load_config_if_needed fs (load_config_if_needed fs st)
  = load_config_if_needed fs st.
Proof.
  unfold load_config_if_needed at 1.
  by rewrite load_config_if_needed_loaded.
Qed.

Lemma get_utf8_code_page_custom machine fuel fs st :
  IS_EGAVGA_ARCH machine = true ->
  uint16 (loaded_codepage machine) <> 0 ->
  get_utf8_code_page machine fuel fs (load_config_if_needed fs st)
  = get_custom_code_page fuel fs (uint16 (loaded_codepage machine))
                         (load_config_if_needed fs st).
Proof.
  intros Hm Hcp. unfold get_utf8_code_page, get_custom_code_page.
  rewrite Hm. simpl. rewrite load_config_if_needed_twice.
  destruct (Z.eqb_spec (uint16 (loaded_codepage machine)) 0); [done|].
  by destruct (prepare_code_page _ _ _ _ _) as [[[] st1]|].
Qed.

(** X15: on an EGA or VGA machine with a loaded code page other than 0,
    [utf8_to_dos(str_in, str_out)] and [dos_to_utf8(str_in, str_out)] do
    what the overloads with a code page do for the loaded code page. *)
Theorem loaded_code_page_is_used machine fuel fs str_in st :
  IS_EGAVGA_ARCH machine = true ->
  uint16 (loaded_codepage machine) <> 0 ->
  utf8_to_dos_loaded machine fuel fs str_in st
  = utf8_to_dos fuel fs str_in (uint16 (loaded_codepage machine)) st /\
  dos_to_utf8_loaded machine fuel fs str_in st
  = dos_to_utf8 fuel fs str_in (uint16 (loaded_codepage machine)) st.
Proof.
  intros Hm Hcp.
  unfold utf8_to_dos_loaded, utf8_to_dos, dos_to_utf8_loaded, dos_to_utf8.
  by rewrite get_utf8_code_page_custom.
Qed.

Lemma loaded_code_page_is_used_witness :
  utf8_to_dos_loaded {| IS_EGAVGA_ARCH := true; loaded_codepage := 437 |}
                     2 good_main_files [0x41; 0xc3; 0x87] Registry_initial
  = utf8_to_dos 2 good_main_files [0x41; 0xc3; 0x87] (uint16 437)
                Registry_initial /\
  dos_to_utf8_loaded {| IS_EGAVGA_ARCH := true; loaded_codepage := 437 |}
                     2 good_main_files [0x41; 0xc3; 0x87] Registry_initial
  = dos_to_utf8 2 good_main_files [0x41; 0xc3; 0x87] (uint16 437)
                Registry_initial.
Proof.
  apply (loaded_code_page_is_used
           {| IS_EGAVGA_ARCH := true; loaded_codepage := 437 |}
           2 good_main_files [0x41; 0xc3; 0x87] Registry_initial).
  - reflexivity.
  - vm_compute. discriminate.
Defined.

Lemma prepare_code_page_unknown depth fuel fs code_page st :
  mappings_normalized_by_codepage st !! code_page = None ->
  config_mappings st !! code_page = None ->
  prepare_code_page depth fuel fs code_page st
  = Some (false, erase_mappings code_page st).
Proof.
  intros Hn Hc. destruct depth; simpl; rewrite Hn, Hc;
    rewrite !bool_decide_eq_false_2 by (by intros [? ?]); done.
Qed.

(** X16: on a machine below EGA [get_utf8_code_page] does not load the
    configuration.  Called while code page 437 is neither configured nor
    prepared (as at the start of the program) it returns 0 whatever the
    mapping files are, leaves [config_loaded] as it is, and the warning
    about the default code page counts as given. *)
Theorem get_utf8_code_page_before_loading machine fuel fs st :
  IS_EGAVGA_ARCH machine = false ->
  mappings_normalized_by_codepage st !! default_code_page = None ->
  config_mappings st !! default_code_page = None ->
  get_utf8_code_page machine fuel fs st
  = Some (0, warn_default_code_page (erase_mappings default_code_page st)) /\
  config_loaded (warn_default_code_page (erase_mappings default_code_page st))
  = config_loaded st /\
  warned_default_code_page
    (warn_default_code_page (erase_mappings default_code_page st)) = true.
Proof.
  intros Hm Hn Hc. split_and!.
  - unfold get_utf8_code_page, get_default_code_page.
    rewrite Hm. simpl. by rewrite prepare_code_page_unknown.
  - unfold warn_default_code_page. simpl.
    by destruct (warned_default_code_page st).
  - unfold warn_default_code_page. simpl.
    by destruct (warned_default_code_page st) eqn:Hw; simpl.
Qed.

Lemma get_utf8_code_page_before_loading_witness :
  get_utf8_code_page {| IS_EGAVGA_ARCH := false; loaded_codepage := 437 |}
                     2 good_main_files Registry_initial
  = Some (0, warn_default_code_page
               (erase_mappings default_code_page Registry_initial)) /\
  config_loaded (warn_default_code_page
                   (erase_mappings default_code_page Registry_initial))
  = config_loaded Registry_initial /\
  warned_default_code_page
    (warn_default_code_page
       (erase_mappings default_code_page Registry_initial)) = true.
Proof.
  apply (get_utf8_code_page_before_loading
           {| IS_EGAVGA_ARCH := false; loaded_codepage := 437 |}
           2 good_main_files Registry_initial); reflexivity.
Defined.

(** X17: on an EGA or VGA machine with loaded code page 0,
    [get_utf8_code_page] falls back to the default code page, while
    [get_custom_code_page] with the same number returns 0, no code
    page. *)
Theorem loaded_code_page_zero machine fuel fs st :
  IS_EGAVGA_ARCH machine = true ->
  uint16 (loaded_codepage machine) = 0 ->
  config_ok (config_mappings st) (config_duplicates st) (config_aliases st) ->
  mappings_normalized_by_codepage st !! 0 = None ->
  get_utf8_code_page machine fuel fs st
  = get_default_code_page fuel fs
      (erase_mappings 0 (load_config_if_needed fs st)) /\
  get_custom_code_page fuel fs (uint16 (loaded_codepage machine))
                       (load_config_if_needed fs st)
  = Some (0, load_config_if_needed fs st).
Proof.
  intros Hm Hz Hst Hn. split.
  - unfold get_utf8_code_page. rewrite Hm, Hz. simpl.
    destruct (load_config_if_needed_zero fs st Hst) as [Hc0 Hd0].
    rewrite Hd0.
    destruct (load_config_if_needed_tables fs st) as [En _].
    rewrite prepare_code_page_unknown; [done| |done]. by rewrite En.
  - unfold get_custom_code_page. by rewrite Hz.
Qed.

Lemma loaded_code_page_zero_witness :
  get_utf8_code_page {| IS_EGAVGA_ARCH := true; loaded_codepage := 0 |}
                     2 good_main_files Registry_initial
  = get_default_code_page 2 good_main_files
      (erase_mappings 0
         (load_config_if_needed good_main_files Registry_initial)) /\
  get_custom_code_page 2 good_main_files (uint16 0)
                       (load_config_if_needed good_main_files
                                              Registry_initial)
  = Some (0, load_config_if_needed good_main_files Registry_initial).
Proof.
  apply (loaded_code_page_zero
           {| IS_EGAVGA_ARCH := true; loaded_codepage := 0 |}
           2 good_main_files Registry_initial); try reflexivity.
  split; simpl; done.
Defined.

(** * Code pages that extend each other in a circle *)







(** * Comments in the lines of a mapping file *)

Lemma substring_app_l x : forall y s n,
  (s + n <= String.length x)%nat ->
  String.substring s n (String.append x y) = String.substring s n x.
Proof.
  induction x as [|c x IH]; intros y s n Hle; simpl in *.
  - assert (s = O /\ n = O) as [-> ->] by lia. by destruct y.
  - destruct s as [|s]; [destruct n as [|n]; [done|]|].
    + simpl. f_equal. apply IH. lia.
    + simpl. apply IH. lia.
Qed.

Lemma substring_all x : String.substring 0 (String.length x) x = x.
Proof. induction x as [|c x IH]; simpl; [done|by rewrite IH]. Qed.

Lemma string_length_app x y :
  String.length (String.append x y) = (String.length x + String.length y)%nat.
Proof. induction x as [|c x IH]; simpl; [done|by rewrite IH]. Qed.

Lemma substring_app_rest x : forall y s,
  (s <= String.length x)%nat ->
  String.substring s (String.length (String.append x y) - s)
                   (String.append x y)
  = String.append (String.substring s (String.length x - s) x) y.
Proof.
  induction x as [|c x IH]; intros y s Hle; simpl in *.
  - assert (s = O) as -> by lia. rewrite Nat.sub_0_r. simpl.
    apply substring_all.
  - destruct s as [|s].
    + specialize (IH y O ltac:(lia)). rewrite !Nat.sub_0_r in IH.
      simpl. by rewrite IH.
    + simpl. apply IH. lia.
Qed.

Lemma get_tokens_loop_split a :
  forall b line1 line2 i token_started start_pos tokens,
    hash_free a = true ->
    (forall s n, (s + n <= i + String.length a)%nat ->
                 String.substring s n line1 = String.substring s n line2) ->
    (start_pos <= i)%nat ->
    exists token_started' start_pos' tokens',
      get_tokens_loop a line2 i token_started start_pos tokens
      = (token_started', start_pos', tokens') /\
      get_tokens_loop (String.append a b) line1 i token_started start_pos
                      tokens
      = get_tokens_loop b line1 (i + String.length a) token_started'
                        start_pos' tokens' /\
      (start_pos' <= i + String.length a)%nat /\
      token_started' = match a with
                       | EmptyString => token_started
                       | String _ _ => ends_with_token a
                       end.
Proof.
  induction a as [|c a IH];
    intros b line1 line2 i token_started start_pos tokens Hfree Hsub Hle.
  - simpl. rewrite Nat.add_0_r. by eexists _, _, _.
  - simpl in Hfree. apply andb_true_iff in Hfree as [Hc Hfree].
    apply negb_true_iff in Hc. simpl String.length in *.
    assert (forall s n, (s + n <= S i + String.length a)%nat ->
               String.substring s n line1 = String.substring s n line2)
      as Hsub' by (intros s n Hsn; apply Hsub; lia).
    assert (forall ts sp toks,
               (sp <= S i)%nat ->
               (ts = negb (is_space c)) ->
               exists token_started' start_pos' tokens',
                 get_tokens_loop a line2 (S i) ts sp toks
                 = (token_started', start_pos', tokens') /\
                 get_tokens_loop (String.append a b) line1 (S i) ts sp toks
                 = get_tokens_loop b line1 (i + S (String.length a))
                     token_started' start_pos' tokens' /\
                 (start_pos' <= i + S (String.length a))%nat /\
                 token_started' = match a with
                                  | EmptyString => negb (is_space c)
                                  | String _ _ => ends_with_token a
                                  end) as Hnext.
    { intros ts sp toks Hsp Hts.
      destruct (IH b line1 line2 (S i) ts sp toks Hfree Hsub' Hsp)
        as (ts' & sp' & toks' & H1 & H2 & H3 & H4).
      exists ts', sp', toks'.
      replace (i + S (String.length a))%nat
        with (S i + String.length a)%nat by lia.
      split_and!; try done. rewrite H4, Hts. by destruct a. }
    simpl. rewrite Hc.
    rewrite (Hsub start_pos (i - start_pos)%nat) by lia.
    destruct token_started, (is_space c) eqn:Hs; simpl;
      apply Hnext; try done; lia.
Qed.

(** X19: comments in [get_tokens], for a line without [#] followed by a
    comment.  When the line ends with white space (or is empty) the
    comment is dropped: the tokens are those of the line.  When the line
    ends in a token, the comment, up to the end of the line and with its
    white space, becomes part of that last token. *)
Theorem get_tokens_comment line comment :
  hash_free line = true ->
  let commented :=
    String.append line (String "#" comment) in
  if ends_with_token line then
    exists tokens last,
      get_tokens line = (true, tokens ++ [last]) /\
      get_tokens commented
      = (true, tokens ++ [String.append last (String "#" comment)])
  else get_tokens commented = get_tokens line.
Proof.
  intros Hfree commented.
  destruct (get_tokens_loop_split line (String "#" comment) commented line
              O false O [] Hfree) as (ts & sp & toks & H1 & H2 & H3 & H4);
    [|done|].
  { intros s n Hsn. by apply substring_app_l. }
  fold commented in H2. simpl in H2, H3.
  assert (ts = ends_with_token line) as Hts by (rewrite H4; by destruct line).
  unfold get_tokens. rewrite H1, H2. rewrite <- Hts.
  destruct ts; [|done].
  exists toks, (String.substring sp (String.length line - sp) line).
  assert (forall t : string, negb (bool_decide (toks ++ [t] = [])) = true)
    as Hne.
  { intros t. rewrite bool_decide_eq_false_2; [done|]. by destruct toks. }
  rewrite !Hne. split; [done|]. do 2 f_equal.
  unfold commented. by rewrite substring_app_rest.
Qed.

Lemma get_tokens_comment_witness :
  exists tokens last,
    get_tokens "0x80 0x00c7" = (true, tokens ++ [last]) /\
    get_tokens (String.append "0x80 0x00c7" (String "#" " C with cedilla"))
    = (true, tokens ++ [String.append last (String "#" " C with cedilla")]).
Proof.
  apply (get_tokens_comment "0x80 0x00c7" " C with cedilla").
  reflexivity.
Defined.

(** * The asserts of [construct_aliases] *)

Lemma construct_mapping_finish_tables fuel fs code_page config_mapping maps
      st b st' :
  construct_mapping_finish fuel fs code_page config_mapping maps st
  = Some (b, st') ->
  aliases_normalized_by_codepage st' = aliases_normalized_by_codepage st /\
  aliases_decomposed_by_codepage st' = aliases_decomposed_by_codepage st /\
  (forall c, c <> code_page ->
             mappings_normalized_by_codepage st' !! c
             = mappings_normalized_by_codepage st !! c) /\
  (b = false -> st' = st).
Proof.
  unfold construct_mapping_finish.
  match goal with
  | |- context [match ?ff with Some _ => _ | None => Some (false, st) end] =>
      destruct ff as [[new_mapping new_mapping_reverse]|]
  end.
  2: { by intros [= <- <-]. }
  simpl. destruct (construct_decomposed _ _ _) as [decomposed|]; [|done].
  intros [= <- <-]. simpl. split_and!; try done.
  intros c Hc. by rewrite lookup_insert_ne.
Qed.

Lemma construct_aliases_tables fuel code_page st st' :
  construct_aliases fuel code_page st = Some st' ->
  mappings_normalized_by_codepage st' = mappings_normalized_by_codepage st /\
  forall c, c <> code_page ->
            aliases_normalized_by_codepage st' !! c
            = aliases_normalized_by_codepage st !! c /\
            aliases_decomposed_by_codepage st' !! c
            = aliases_decomposed_by_codepage st !! c.
Proof.
  unfold construct_aliases. simpl.
  destruct (construct_decomposed _ _ _) as [decomposed|]; [|done].
  intros [= <-]. simpl. split; [done|].
  intros c Hc. by rewrite !lookup_insert_ne.
Qed.

Lemma left_alone_trans c st1 st2 st3 :
  left_alone c st1 st2 -> left_alone c st2 st3 -> left_alone c st1 st3.
Proof. intros (? & ? & ?) (? & ? & ?). split_and!; congruence. Qed.

Lemma construct_mapping_left_alone prepare fuel fs code_page st b st' c :
  (forall dep st1 b1 st2,
      c ∈ already_tried st1 ->
      mappings_normalized_by_codepage st1 !! c = None ->
      prepare dep st1 = Some (b1, st2) ->
      left_alone c st1 st2) ->
  c ∈ already_tried st \/ c = code_page ->
  mappings_normalized_by_codepage st !! c = None ->
  construct_mapping prepare fuel fs code_page st = Some (b, st') ->
  aliases_normalized_by_codepage st' !! c
  = aliases_normalized_by_codepage st !! c /\
  aliases_decomposed_by_codepage st' !! c
  = aliases_decomposed_by_codepage st !! c /\
  (c <> code_page \/ b = false ->
   mappings_normalized_by_codepage st' !! c = None) /\
  (code_page ∈ already_tried st -> b = false).
Proof.
  intros Hprepare Hin Hnone. unfold construct_mapping.
  destruct (bool_decide (code_page ∈ already_tried st)) eqn:Htried;
    [by intros [= <- <-]|].
  apply bool_decide_eq_false in Htried.
  set (st0 := set_already_tried ({[code_page]} ∪ already_tried st) st).
  assert (c ∈ already_tried st0) as Hin0.
  { simpl. apply elem_of_union. destruct Hin as [?| ->]; [by right|].
    left. by apply elem_of_singleton. }
  cbv zeta. destruct (extends_code_page _ =? 0).
  - intros (Ha & Hd & Hn & Hb)%construct_mapping_finish_tables.
    rewrite Ha, Hd. split_and!; try done.
    intros [Hc| ->]; [by rewrite Hn|by rewrite Hb].
  - destruct (prepare _ st0) as [[b2 st2]|] eqn:Hp; [|done].
    apply Hprepare in Hp as (Hn2 & Ha2 & Hd2); [|done..].
    destruct b2.
    + intros (Ha & Hd & Hn & Hb)%construct_mapping_finish_tables.
      rewrite Ha, Hd. split_and!; try done.
      intros [Hc| ->]; [by rewrite Hn|by rewrite Hb].
    + by intros [= <- <-].
Qed.

Lemma prepare_code_page_left_alone depth fuel fs :
  forall code_page st b st' c,
    c ∈ already_tried st ->
    mappings_normalized_by_codepage st !! c = None ->
    prepare_code_page depth fuel fs code_page st = Some (b, st') ->
    left_alone c st st'.
Proof.
  induction depth as [|depth IH]; intros code_page st b st' c Hin Hnone;
    simpl.
  - destruct (bool_decide _); [by intros [= <- <-]|].
    destruct (negb _); [|done]. intros [= <- <-].
    split_and!; simpl; try done. rewrite lookup_delete.
    by destruct (decide _).
  - destruct (bool_decide _); [by intros [= <- <-]|].
    destruct (negb _).
    { intros [= <- <-]. split_and!; simpl; try done.
      rewrite lookup_delete. by destruct (decide _). }
    destruct (construct_mapping _ _ _ _ _) as [[b1 st1]|] eqn:Hm; [|done].
    apply (construct_mapping_left_alone _ _ _ _ _ _ _ c) in Hm
        as (Ha1 & Hd1 & Hn1 & Hb1); [| |by left|done].
    2: { intros dep st2 b2 st3. apply IH. }
    destruct b1.
    + destruct (construct_aliases fuel code_page st1) as [st2|] eqn:Ha;
        [|done].
      intros [= <- <-].
      assert (c <> code_page) as Hne.
      { intros ->. by specialize (Hb1 Hin). }
      apply construct_aliases_tables in Ha as [Hn2 Ha2].
      destruct (Ha2 c Hne) as [Ea Ed].
      split_and!; [|by rewrite Ea|by rewrite Ed].
      rewrite Hn2. apply Hn1. by left.
    + intros [= <- <-]. split_and!; simpl; try done.
      rewrite lookup_delete. destruct (decide _); [done|].
      apply Hn1. by right.
Qed.

Lemma construct_mapping_follow prepare fuel fs code_page st b st' :
  (forall dep st1 b1 st2,
      aliases_follow_mappings st1 -> prepare dep st1 = Some (b1, st2) ->
      aliases_follow_mappings st2) ->
  aliases_follow_mappings st ->
  construct_mapping prepare fuel fs code_page st = Some (b, st') ->
  aliases_follow_mappings st'.
Proof.
  intros Hprepare Hst. unfold construct_mapping.
  destruct (bool_decide _); [by intros [= <- <-]|].
  set (st0 := set_already_tried ({[code_page]} ∪ already_tried st) st).
  assert (aliases_follow_mappings st0) as Hst0 by done.
  assert (forall config_mapping maps st1 b1 st2,
             aliases_follow_mappings st1 ->
             construct_mapping_finish fuel fs code_page config_mapping maps
                                      st1 = Some (b1, st2) ->
             aliases_follow_mappings st2) as Hfinish.
  { intros config_mapping maps st1 b1 st2 Hst1 Hf.
    pose proof (construct_mapping_finish_result _ _ _ _ _ _ _ _ Hf)
      as (_ & _ & Hsome).
    apply construct_mapping_finish_tables in Hf as (Ha & Hd & Hn & Hb).
    intros c Hc. rewrite Ha, Hd. apply Hst1.
    destruct (decide (c = code_page)) as [->|Hne]; [|by rewrite <- Hn].
    destruct b1; [|by rewrite <- Hb].
    destruct (Hsome eq_refl) as [? Hs]. by rewrite Hs in Hc. }
  cbv zeta. destruct (extends_code_page _ =? 0); [by apply Hfinish|].
  destruct (prepare _ st0) as [[b2 st2]|] eqn:Hp; [|done].
  apply Hprepare in Hp; [|done].
  destruct b2; [by apply Hfinish|by intros [= <- <-]].
Qed.

Lemma prepare_code_page_follow depth fuel fs :
  forall code_page st b st',
    aliases_follow_mappings st ->
    prepare_code_page depth fuel fs code_page st = Some (b, st') ->
    aliases_follow_mappings st'.
Proof.
  induction depth as [|depth IH]; intros code_page st b st' Hst.
  - simpl. destruct (bool_decide _) eqn:Hn; [by intros [= <- <-]|].
    apply bool_decide_eq_false in Hn.
    destruct (negb _); [|done]. intros [= <- <-].
    intros c. simpl. rewrite lookup_delete.
    destruct (decide (code_page = c)) as [<-|]; [|apply Hst].
    intros _. apply Hst. by apply eq_None_not_Some.
  - simpl. destruct (bool_decide _) eqn:Hn; [by intros [= <- <-]|].
    apply bool_decide_eq_false, eq_None_not_Some in Hn.
    destruct (negb _).
    { intros [= <- <-]. intros c. simpl. rewrite lookup_delete.
      destruct (decide (code_page = c)) as [<-|]; [|apply Hst].
      intros _. by apply Hst. }
    destruct (construct_mapping _ _ _ _ _) as [[b1 st1]|] eqn:Hm; [|done].
    pose proof (construct_mapping_follow _ _ _ _ _ _ _ IH Hst Hm) as Hst1.
    assert (b1 = true ->
            is_Some (mappings_normalized_by_codepage st1 !! code_page))
      as Hsome.
    { eapply construct_mapping_result; [|exact Hm].
      intros dep st2 b2 st3 Hp.
      by apply prepare_code_page_result in Hp as (? & ? & _). }
    apply (construct_mapping_left_alone _ _ _ _ _ _ _ code_page) in Hm
        as (Ha1 & Hd1 & Hn1 & Hb1); [| |by right|done].
    2: { intros dep st2 b2 st3. apply prepare_code_page_left_alone. }
    destruct b1.
    + destruct (construct_aliases fuel code_page st1) as [st2|] eqn:Ha;
        [|done].
      intros [= <- <-].
      pose proof (construct_aliases_result _ _ _ _ Ha) as (_ & _ & Hn2).
      pose proof Ha as Ha'.
      apply construct_aliases_tables in Ha as [_ Ha2].
      intros c Hc. rewrite Hn2 in Hc.
      assert (c <> code_page) as Hne.
      { intros ->. destruct (Hsome eq_refl) as [? Hs]. by rewrite Hs in Hc. }
      destruct (Ha2 c Hne) as [-> ->]. by apply Hst1.
    + intros [= <- <-]. intros c. simpl. rewrite lookup_delete.
      destruct (decide (code_page = c)) as [<-|]; [|apply Hst1].
      intros _. rewrite Ha1, Hd1. by apply Hst.
Qed.

(** X20: the three asserts of [construct_aliases] hold.  As long as only
    prepared code pages have alias tables, [prepare_code_page] keeps it
    so, and at its call of [construct_aliases] - the code page was not
    prepared and [construct_mapping] has returned [true] - the code page
    has no alias table yet and has its mapping. *)
Theorem construct_aliases_asserts_hold depth fuel fs code_page st :
  aliases_follow_mappings st ->
  (forall b st',
      prepare_code_page depth fuel fs code_page st = Some (b, st') ->
      aliases_follow_mappings st') /\
  (mappings_normalized_by_codepage st !! code_page = None ->
   forall st1,
     construct_mapping (prepare_code_page depth fuel fs) fuel fs code_page st
     = Some (true, st1) ->
     construct_aliases_asserts code_page st1).
Proof.
  intros Hst. split.
  - intros b st'. by apply prepare_code_page_follow.
  - intros Hn st1 Hm.
    assert (is_Some (mappings_normalized_by_codepage st1 !! code_page))
      as Hsome.
    { eapply construct_mapping_result; [|exact Hm|done].
      intros dep st2 b2 st3 Hp.
      by apply prepare_code_page_result in Hp as (? & ? & _). }
    apply (construct_mapping_left_alone _ _ _ _ _ _ _ code_page) in Hm
        as (Ha1 & Hd1 & _); [| |by right|done].
    2: { intros dep st2 b2 st3. apply prepare_code_page_left_alone. }
    destruct (Hst code_page Hn) as [Ha Hd].
    split_and!; [by rewrite Ha1|by rewrite Hd1|done].
Qed.

Lemma construct_aliases_asserts_hold_witness :
  (forall b st',
      prepare_code_page 2 2 good_main_files 437
        (load_config_if_needed good_main_files Registry_initial)
      = Some (b, st') ->
      aliases_follow_mappings st') /\
  (mappings_normalized_by_codepage
     (load_config_if_needed good_main_files Registry_initial) !! 437 = None ->
   forall st1,
     construct_mapping (prepare_code_page 2 2 good_main_files) 2
       good_main_files 437
       (load_config_if_needed good_main_files Registry_initial)
     = Some (true, st1) ->
     construct_aliases_asserts 437 st1).
Proof.
  apply (construct_aliases_asserts_hold 2 2 good_main_files 437
           (load_config_if_needed good_main_files Registry_initial)).
  intros c _. split; vm_compute; reflexivity.
Defined.

(** * Where the entries of the derived tables come from *)

Section std_map_assign.
Context {K V : Type} (lt : K -> K -> bool).

Lemma smap_assign_elem (k : K) (v : V) m e :
  e ∈ smap_assign lt k v m ->
  e ∈ m \/ e = (k, v) \/
  (e.2 = v /\ lt e.1 k = false /\ lt k e.1 = false).
Proof.
  induction m as [|[k' v'] m IH]; simpl.
  - intros ->%list_elem_of_singleton. right. by left.
  - destruct (lt k' k) eqn:H1.
    + intros [->|He]%elem_of_cons; [left; by left|].
      destruct (IH He) as [?|?]; [left; by right|by right].
    + destruct (lt k k') eqn:H2.
      * intros [->|He]%elem_of_cons; [right; by left|by left].
      * intros [->|He]%elem_of_cons; [by right; right|left; by right].
Qed.

Lemma smap_assign_new (k : K) (v : V) m e :
  smap_find lt k m = None ->
  e ∈ smap_assign lt k v m -> e ∈ m \/ e = (k, v).
Proof.
  induction m as [|[k' v'] m IH]; simpl.
  - intros _ ->%list_elem_of_singleton. by right.
  - destruct (lt k' k) eqn:H1.
    + intros Hf [->|He]%elem_of_cons; [left; by left|].
      destruct (IH Hf He) as [?|?]; [left; by right|by right].
    + destruct (lt k k') eqn:H2; [|done].
      intros _ [->|He]%elem_of_cons; [by right|by left].
Qed.
End std_map_assign.

Lemma construct_decomposed_loop_entries fuel rules normalized :
  forall decomposed0 decomposed k b,
    construct_decomposed_loop fuel rules normalized decomposed0
    = Some decomposed ->
    (k, b) ∈ decomposed ->
    (k, b) ∈ decomposed0 \/
    exists g tmp,
      (g, b) ∈ normalized /\ Decompose fuel rules g = Some tmp /\
      operator_eq g tmp = false /\
      code_point k = code_point tmp /\ marks_sorted k = marks_sorted tmp.
Proof.
  induction normalized as [|[g c] normalized IH];
    intros decomposed0 decomposed k b; simpl.
  - intros [= <-] Hin. by left.
  - destruct (Decompose fuel rules g) as [tmp|] eqn:Hd; [|done].
    destruct (operator_eq g tmp) eqn:Heq.
    + intros Hl Hin. destruct (IH _ _ _ _ Hl Hin) as [?|(g' & tmp' & ? & ?)];
        [by left|].
      right. exists g', tmp'. split; [by right|done].
    + intros Hl Hin.
      destruct (IH _ _ _ _ Hl Hin) as [Hin0|(g' & tmp' & ? & ?)].
      2: { right. exists g', tmp'. split; [by right|done]. }
      apply smap_assign_elem in Hin0 as [?|[[= -> ->]|(Hv & H1 & H2)]];
        [by left|right; exists g, tmp..].
      * split_and!; try done. by left.
      * simpl in *. subst c. split_and!; try done; [by left|..];
          by apply (Grapheme_ltb_incomparable k tmp).
Qed.

(** X21: every entry of a table that [construct_decomposed] builds comes
    from an entry of the normalized table with the same byte: its key is
    (as a key) the decomposition of that grapheme, which differs from the
    grapheme. *)
Theorem construct_decomposed_entries fuel rules normalized decomposed k b :
  construct_decomposed fuel rules normalized = Some decomposed ->
  (k, b) ∈ decomposed ->
  exists g tmp,
    (g, b) ∈ normalized /\ Decompose fuel rules g = Some tmp /\
    operator_eq g tmp = false /\
    code_point k = code_point tmp /\ marks_sorted k = marks_sorted tmp.
Proof.
  intros Hc Hin.
  destruct (construct_decomposed_loop_entries _ _ _ _ _ _ _ Hc Hin)
    as [Hnil|?]; [|done].
  by apply elem_of_nil in Hnil.
Qed.

Lemma construct_decomposed_entries_witness :
  exists g tmp,
    (g, 0x82) ∈ [(Grapheme_new 0x00e9, 0x82); (Grapheme_new 0x00c7, 0x80)] /\
    Decompose 1 example_rules g = Some tmp /\
    operator_eq g tmp = false /\
    code_point (AddMark 0x0301 (Grapheme_new 0x65)) = code_point tmp /\
    marks_sorted (AddMark 0x0301 (Grapheme_new 0x65)) = marks_sorted tmp.
Proof.
  apply (construct_decomposed_entries 1 example_rules
           [(Grapheme_new 0x00e9, 0x82); (Grapheme_new 0x00c7, 0x80)]
           [(AddMark 0x0301 (Grapheme_new 0x65), 0x82)]).
  - vm_compute. reflexivity.
  - apply list_elem_of_singleton. reflexivity.
Defined.

Lemma construct_aliases_fold mapping aliases :
  forall aliases0 g b,
    (g, b) ∈ fold_left (construct_aliases_step mapping) aliases aliases0 ->
    (g, b) ∈ aliases0 \/
    exists alias,
      alias ∈ aliases /\ g = Grapheme_new alias.1 /\
      smap_find Grapheme_ltb (Grapheme_new alias.2) mapping = Some b /\
      smap_find Grapheme_ltb (Grapheme_new alias.1) mapping = None.
Proof.
  induction aliases as [|alias aliases IH]; intros aliases0 g b; simpl;
    [by left|].
  intros Hin. destruct (IH _ _ _ Hin) as [Hin0|(alias' & ? & ?)].
  2: { right. exists alias'. split; [by right|done]. }
  revert Hin0. unfold construct_aliases_step, smap_count.
  destruct (smap_find Grapheme_ltb (Grapheme_new alias.1) mapping) eqn:H1;
    simpl; [by left|].
  destruct (smap_find Grapheme_ltb (Grapheme_new alias.2) mapping)
    as [second|] eqn:H2; simpl; [|by left].
  destruct (smap_find Grapheme_ltb (Grapheme_new alias.1) aliases0) eqn:H3;
    simpl; [by left|].
  intros [?|[= -> ->]]%smap_assign_new; [by left| |done].
  right. exists alias. split_and!; try done. by left.
Qed.

(** X22: every entry that [construct_aliases] puts into the alias table
    of a code page comes from an ALIAS of the configuration: its key is
    the alias' first code point, which the code page itself does not map,
    and its byte is the one the code page has for the second code
    point. *)
Theorem construct_aliases_entries fuel code_page st st' g b :
  construct_aliases_asserts code_page st ->
  construct_aliases fuel code_page st = Some st' ->
  (g, b) ∈ default [] (aliases_normalized_by_codepage st' !! code_page) ->
  exists alias,
    alias ∈ config_aliases st /\ g = Grapheme_new alias.1 /\
    push_code_page (mappings_normalized_by_codepage st !! code_page)
                   (Grapheme_new alias.2) [] = (true, [b]) /\
    push_code_page (mappings_normalized_by_codepage st !! code_page)
                   (Grapheme_new alias.1) [] = (false, []).
Proof.
  intros (Ha & _ & [mapping Hm]). unfold construct_aliases. simpl.
  destruct (construct_decomposed _ _ _) as [decomposed|]; [|done].
  intros [= <-]. simpl. rewrite lookup_insert_eq, Ha, Hm. simpl.
  intros [Hnil|(alias & Hin & -> & H2 & H1)]%construct_aliases_fold.
  { by apply elem_of_nil in Hnil. }
  exists alias. unfold push_code_page. by rewrite H1, H2.
Qed.

Lemma construct_aliases_entries_witness :
  exists alias,
    alias ∈ config_aliases mapped_registry /\
    Grapheme_new 0x00c8 = Grapheme_new alias.1 /\
    push_code_page (mappings_normalized_by_codepage mapped_registry !! 437)
                   (Grapheme_new alias.2) [] = (true, [0x80]) /\
    push_code_page (mappings_normalized_by_codepage mapped_registry !! 437)
                   (Grapheme_new alias.1) [] = (false, []).
Proof.
  apply (construct_aliases_entries 2 437 mapped_registry example_registry).
  - split_and!; [vm_compute; reflexivity..|].
    eexists. vm_compute. reflexivity.
  - vm_compute. reflexivity.
  - vm_compute. apply list_elem_of_singleton. reflexivity.
Defined.

(** * The registry stays in order *)

Lemma get_utf8_code_page_ok machine fuel fs st cp st' :
  registry_ok st ->
  get_utf8_code_page machine fuel fs st = Some (cp, st') ->
  registry_ok st'.
Proof.
  intros Hst. unfold get_utf8_code_page.
  destruct (negb _); [by apply get_default_code_page_ok|].
  destruct (prepare_code_page _ _ _ _ _) as [[b st1]|] eqn:Hp; [|done].
  apply prepare_code_page_ok in Hp; [|by apply load_config_if_needed_ok].
  destruct b; [by intros [= <- <-]|].
  by apply get_default_code_page_ok.
Qed.

(** X23: the registry is in order at the start of the program and stays
    so through every entry point: the configuration is as X8 says, and
    for every prepared code page the byte-to-grapheme table has its keys
    in increasing order and graphemes of 16-bit code points, and every
    entry of the grapheme-to-byte table (a valid, non-empty grapheme and a
    byte of 0x80..0xFF) is the mirror image of one of its entries. *)
Theorem registry_ok_is_kept fuel fs :
  registry_ok Registry_initial /\
  (forall str_in code_page st status str_out st',
      registry_ok st ->
      utf8_to_dos fuel fs str_in code_page st = Some (status, str_out, st') ->
      registry_ok st') /\
  (forall str_in code_page st str_out st',
      registry_ok st ->
      dos_to_utf8 fuel fs str_in code_page st = Some (str_out, st') ->
      registry_ok st') /\
  (forall machine str_in st status str_out st',
      registry_ok st ->
      utf8_to_dos_loaded machine fuel fs str_in st
      = Some (status, str_out, st') ->
      registry_ok st') /\
  (forall machine str_in st str_out st',
      registry_ok st ->
      dos_to_utf8_loaded machine fuel fs str_in st = Some (str_out, st') ->
      registry_ok st') /\
  (forall machine st cp st',
      registry_ok st ->
      get_utf8_code_page machine fuel fs st = Some (cp, st') ->
      registry_ok st').
Proof.
  split_and!.
  - apply registry_ok_initial.
  - intros str_in code_page st status str_out st' Hst. unfold utf8_to_dos.
    destruct (get_custom_code_page _ _ _ _) as [[cp st1]|] eqn:Hcp; [|done].
    apply get_custom_code_page_ok in Hcp;
      [|by apply load_config_if_needed_ok].
    destruct (utf8_to_wide str_in) as [status1 str_wide].
    destruct (wide_to_dos _ _ _ _) as [[[status2 out] st2]|] eqn:Hw; [|done].
    intros [= <- <- <-]. apply wide_to_dos_only in Hw.
    by eapply only_warnings_differ_ok.
  - intros str_in code_page st str_out st' Hst. unfold dos_to_utf8.
    destruct (get_custom_code_page _ _ _ _) as [[cp st1]|] eqn:Hcp; [|done].
    apply get_custom_code_page_ok in Hcp;
      [|by apply load_config_if_needed_ok].
    by intros [= <- <-].
  - intros machine str_in st status str_out st' Hst.
    unfold utf8_to_dos_loaded.
    destruct (get_utf8_code_page _ _ _ _) as [[cp st1]|] eqn:Hcp; [|done].
    apply get_utf8_code_page_ok in Hcp;
      [|by apply load_config_if_needed_ok].
    destruct (utf8_to_wide str_in) as [status1 str_wide].
    destruct (wide_to_dos _ _ _ _) as [[[status2 out] st2]|] eqn:Hw; [|done].
    intros [= <- <- <-]. apply wide_to_dos_only in Hw.
    by eapply only_warnings_differ_ok.
  - intros machine str_in st str_out st' Hst. unfold dos_to_utf8_loaded.
    destruct (get_utf8_code_page _ _ _ _) as [[cp st1]|] eqn:Hcp; [|done].
    apply get_utf8_code_page_ok in Hcp;
      [|by apply load_config_if_needed_ok].
    by intros [= <- <-].
  - intros machine st cp st'. apply get_utf8_code_page_ok.
Qed.

Lemma registry_ok_is_kept_witness : registry_ok example_registry.
Proof.
  destruct (registry_ok_is_kept 2 good_main_files)
    as (Hinitial & _ & Hdos & _).
  apply (Hdos [0x80] 437 Registry_initial [0xc3; 0x87] example_registry
              Hinitial).
  vm_compute. reflexivity.
Defined.

(** * 7-bit input and the length of the output *)









Lemma grapheme_count_le str_in :
  (grapheme_count str_in <= length str_in)%nat.
Proof.
  destruct str_in as [|c rest]; simpl; [done|].
  pose proof (List.filter_length_le (fun c => negb (is_combining_mark c))
                rest).
  lia.
Qed.

Lemma utf8_to_wide_length str_in :
  (length (utf8_to_wide str_in).2 <= length str_in)%nat.
Proof.
  unfold utf8_to_wide.
  destruct (utf8_to_wide_loop_bounds (length str_in) str_in 0 true [])
    as [Hlen _]; [constructor|].
  simpl in Hlen. lia.
Qed.

(** X25: what [utf8_to_dos] writes, with or without a code page given,
    has at most as many bytes as its input. *)
Theorem utf8_to_dos_is_never_longer fuel fs str_in :
  (forall code_page st status str_out st',
      utf8_to_dos fuel fs str_in code_page st = Some (status, str_out, st') ->
      (length str_out <= length str_in)%nat) /\
  (forall machine st status str_out st',
      utf8_to_dos_loaded machine fuel fs str_in st
      = Some (status, str_out, st') ->
      (length str_out <= length str_in)%nat).
Proof.
  assert (forall cp st status2 str_out st',
             wide_to_dos fuel (utf8_to_wide str_in).2 cp st
             = Some (status2, str_out, st') ->
             (length str_out <= length str_in)%nat) as Hlen.
  { intros cp st status2 str_out st' Hw.
    apply wide_to_dos_count in Hw. rewrite Hw.
    pose proof (grapheme_count_le (utf8_to_wide str_in).2).
    pose proof (utf8_to_wide_length str_in). lia. }
  split.
  - intros code_page st status str_out st'. unfold utf8_to_dos.
    destruct (get_custom_code_page _ _ _ _) as [[cp st1]|]; [|done].
    destruct (utf8_to_wide str_in) as [status1 str_wide] eqn:Hu.
    simpl in Hlen.
    destruct (wide_to_dos _ _ _ _) as [[[status2 out] st2]|] eqn:Hw; [|done].
    intros [= <- <- <-]. by eapply Hlen.
  - intros machine st status str_out st'. unfold utf8_to_dos_loaded.
    destruct (get_utf8_code_page _ _ _ _) as [[cp st1]|]; [|done].
    destruct (utf8_to_wide str_in) as [status1 str_wide] eqn:Hu.
    simpl in Hlen.
    destruct (wide_to_dos _ _ _ _) as [[[status2 out] st2]|] eqn:Hw; [|done].
    intros [= <- <- <-]. by eapply Hlen.
Qed.
